(** * Entitlement service: router, comparator, batch executor, benchmark statistics

    A shallow embedding of the Go entitlement service
    (package [service]: [Service.CheckPermission] and
    [Service.checkBothImplementations]; package [main]:
    [server.CheckBulkPermissions] and the statistics of
    [server.runBenchmarkTest]) together with the properties its specification
    states about them.

    Conventions of the embedding:
    - a Go [error] is [option string]: [None] is [nil], [Some msg] is an error
      whose [Error()] text is [msg];
    - a Go pointer result [*pb.PermissionResponse] is
      [option PermissionResponse] ([None] is the nil pointer);
    - a backend client (an interface value with the single method
      [CheckPermission]) is a function from the request to the pair the method
      returns; a nil interface field of [Service] is [None];
    - [int32] values are integers of [Z] with the wrap-around of the Go
      arithmetic written out ([int32]);
    - [float64] values are [spec_float] of the standard library, at
      precision 53 and maximal exponent 1024 (IEEE 754 binary64);
    - what the service prints with [fmt.Printf] is collected, in order, in the
      [stdout] component of an [Outcome].

    The second half of the development covers the rest of the server
    ([server.StreamPermissionChecks], [server.Benchmark] and the whole of
    [server.runBenchmarkTest]), the three clients (packages [spicedb],
    [neo4j] and [graphql]), the test client of the SpiceDB model and the
    resolvers of the GraphQL model.  What lies outside the program (the
    databases and servers, the clock, the library calls whose results the code
    only passes on) is a [Variable] of a [Section]: a property proved there
    holds whatever they answer. *)

From Stdlib Require Import ZArith String List Lia Floats.SpecFloat.
From stdpp Require Import base option list gmap strings sorting.

Local Open Scope string_scope.
Local Open Scope list_scope.

(** ** Protocol buffer messages (package [pb]) *)

Module pb.

(** Modelled from the spec: the generated package [pb] is not part of the
    sources; the enumeration lists the backends the router names, the dual
    marker and the unspecified value that defaults to SpiceDB. *)
Inductive Implementation : Set :=
| Implementation_IMPLEMENTATION_UNSPECIFIED
| Implementation_IMPLEMENTATION_SPICEDB
| Implementation_IMPLEMENTATION_NEO4J
| Implementation_IMPLEMENTATION_GRAPHQL
| Implementation_IMPLEMENTATION_BOTH.

(** Modelled from the spec: the request message, with the fields the router
    and the clients read: actor, resource, permission and the context map
    that carries the backend hint. *)
Record PermissionRequest : Type := {
  Actor : string;
  Resource : string;
  Permission : string;
  Context : gmap string string
}.

(** Modelled from the spec: the response message, with the fields the
    clients, the router and the server write.  The field [Implementation] of
    the Go struct is [ImplementationTag] here, the name being taken by the
    enumeration. *)
Record PermissionResponse : Type := {
  HasPermission : bool;
  Permissionship : Z;
  ImplementationTag : Implementation;
  ResponseTimeMs : spec_float;
  ErrorMessage : string
}.

(** Modelled from the spec: the batch job, an ordered sequence of requests
    and a concurrency ceiling ([int32]). *)
Record BulkPermissionRequest : Type := {
  Requests : list PermissionRequest;
  MaxConcurrency : Z
}.

(** Modelled from the spec: the responses in the order of the requests, the
    elapsed milliseconds and the two counters ([int32]); a response is a
    pointer and may be nil. *)
Record BulkPermissionResponse : Type := {
  Responses : list (option PermissionResponse);
  TotalTimeMs : spec_float;
  SuccessCount : Z;
  ErrorCount : Z
}.

End pb.

Import pb.

#[global] Instance Implementation_eq_dec : EqDecision Implementation.
Proof. solve_decision. Defined.

(** ** Go values *)

Definition error : Type := option string.

(** [fmt.Sprintf("%t", b)] *)
Definition fmt_bool (b : bool) : string := if b then "true" else "false".

(** The line feed that ends every line the service prints. *)
Definition newline : string := String (Ascii.ascii_of_nat 10) EmptyString.

(** The zero value of a [float64] field. *)
Definition float64_zero : spec_float := S754_zero false.

(** ** Package [service] *)

(** The three client interfaces have the same single method. *)
Definition SpiceDBClient : Type :=
  PermissionRequest -> option PermissionResponse * error.
Definition Neo4jClient : Type :=
  PermissionRequest -> option PermissionResponse * error.
Definition GraphQLClient : Type :=
  PermissionRequest -> option PermissionResponse * error.

Record Service : Type := {
  Spice : option SpiceDBClient;
  Neo4j : option Neo4jClient;
  GraphQL : option GraphQLClient
}.

Definition NewService (spice : option SpiceDBClient) (neo4j : option Neo4jClient)
    (gql : option GraphQLClient) : Service :=
  {| Spice := spice; Neo4j := neo4j; GraphQL := gql |}.

(** What a call of the service hands back: the two Go results and the lines
    printed meanwhile. *)
Record Outcome : Type := {
  response : option PermissionResponse;
  failure : error;
  stdout : list string
}.

Definition returns (r : option PermissionResponse) (e : error)
    (out : list string) : Outcome :=
  {| response := r; failure := e; stdout := out |}.

(** A response literal that sets [HasPermission], [Implementation] and
    [ErrorMessage] and leaves the other fields at their zero values. *)
Definition diagnostic (impl : Implementation) (msg : string) : PermissionResponse :=
  {| HasPermission := false;
     Permissionship := 0;
     ImplementationTag := impl;
     ResponseTimeMs := float64_zero;
     ErrorMessage := msg |}.

(** [r.Implementation = impl] *)
Definition set_Implementation (impl : Implementation) (r : PermissionResponse)
    : PermissionResponse :=
  {| HasPermission := HasPermission r;
     Permissionship := Permissionship r;
     ImplementationTag := impl;
     ResponseTimeMs := ResponseTimeMs r;
     ErrorMessage := ErrorMessage r |}.

(** [r.ErrorMessage = msg] *)
Definition set_ErrorMessage (msg : string) (r : PermissionResponse)
    : PermissionResponse :=
  {| HasPermission := HasPermission r;
     Permissionship := Permissionship r;
     ImplementationTag := ImplementationTag r;
     ResponseTimeMs := ResponseTimeMs r;
     ErrorMessage := msg |}.

(** The first half of [Service.CheckPermission]: the local variable
    [implementation] after the lookup of the ["implementation"] key and the
    switch over its value. *)
Definition implementation (req : PermissionRequest) : Implementation :=
  match Context req !! "implementation" with
  | Some implStr =>
      if String.eqb implStr "spicedb" then Implementation_IMPLEMENTATION_SPICEDB
      else if String.eqb implStr "neo4j" then Implementation_IMPLEMENTATION_NEO4J
      else if String.eqb implStr "graphql" then Implementation_IMPLEMENTATION_GRAPHQL
      else if String.eqb implStr "both" then Implementation_IMPLEMENTATION_BOTH
      else Implementation_IMPLEMENTATION_SPICEDB
  | None => Implementation_IMPLEMENTATION_SPICEDB
  end.

(** One goroutine of [checkBothImplementations]: the call of the client when
    there is one, the error made by [fmt.Errorf] otherwise. *)
Definition probe (client : option (PermissionRequest -> option PermissionResponse * error))
    (unavailable : string) (req : PermissionRequest) : option PermissionResponse * error :=
  match client with
  | Some c => c req
  | None => (None, Some unavailable)
  end.

(** [Service.checkBothImplementations].  The two goroutines assign disjoint
    variables and the function reads them only after both channels are closed,
    so the values read do not depend on the interleaving. *)
Definition checkBothImplementations (s : Service) (req : PermissionRequest) : Outcome :=
  let '(spiceResult, spiceErr) := probe (Spice s) "SpiceDB backend not available" req in
  let '(neo4jResult, neo4jErr) := probe (Neo4j s) "Neo4j backend not available" req in
  match spiceErr, neo4jErr with
  | Some se, Some ne =>
      returns
        (Some (diagnostic Implementation_IMPLEMENTATION_BOTH
                 ("Both backends unavailable - SpiceDB: " +:+ se +:+ ", Neo4j: " +:+ ne)))
        None []
  | _, _ =>
      let out1 :=
        match spiceErr with
        | Some se => ["SpiceDB error (using Neo4j only): " +:+ se +:+ newline]
        | None => []
        end in
      match spiceErr, neo4jResult with
      | Some _, Some nr =>
          returns
            (Some (set_ErrorMessage
                     ("SpiceDB unavailable, using Neo4j only: " +:+ ErrorMessage nr)
                     (set_Implementation Implementation_IMPLEMENTATION_BOTH nr)))
            None out1
      | _, _ =>
          let out2 :=
            match neo4jErr with
            | Some ne => out1 ++ ["Neo4j error (using SpiceDB only): " +:+ ne +:+ newline]
            | None => out1
            end in
          match neo4jErr, spiceResult with
          | Some _, Some sr =>
              returns
                (Some (set_ErrorMessage
                         ("Neo4j unavailable, using SpiceDB only: " +:+ ErrorMessage sr)
                         (set_Implementation Implementation_IMPLEMENTATION_BOTH sr)))
                None out2
          | _, _ =>
              match spiceResult, neo4jResult with
              | Some sr, Some nr =>
                  let line :=
                    if Bool.eqb (HasPermission sr) (HasPermission nr)
                    then "MATCH: Both backends returned " +:+ fmt_bool (HasPermission sr)
                         +:+ " for actor=" +:+ Actor req +:+ ", resource=" +:+ Resource req
                         +:+ ", permission=" +:+ Permission req +:+ newline
                    else "MISMATCH: SpiceDB=" +:+ fmt_bool (HasPermission sr)
                         +:+ ", Neo4j=" +:+ fmt_bool (HasPermission nr)
                         +:+ " for actor=" +:+ Actor req +:+ ", resource=" +:+ Resource req
                         +:+ ", permission=" +:+ Permission req +:+ newline in
                  returns (Some (set_Implementation Implementation_IMPLEMENTATION_BOTH sr))
                    None (out2 ++ [line])
              | _, _ =>
                  returns None (Some "unexpected state in both implementations check") out2
              end
          end
      end
  end.

(** A single-backend case of the switch of [CheckPermission]: the synthesized
    response when the field is nil, the client's own results otherwise. *)
Definition dispatch (client : option (PermissionRequest -> option PermissionResponse * error))
    (impl : Implementation) (hint : string) (req : PermissionRequest) : Outcome :=
  match client with
  | None => returns (Some (diagnostic impl hint)) None []
  | Some c => let '(r, e) := c req in returns r e []
  end.

(** [Service.CheckPermission] *)
Definition CheckPermission (s : Service) (req : PermissionRequest) : Outcome :=
  match implementation req with
  | Implementation_IMPLEMENTATION_NEO4J =>
      dispatch (Neo4j s) Implementation_IMPLEMENTATION_NEO4J
        "Neo4j backend not available - please ensure Neo4j is running on localhost:7687"
        req
  | Implementation_IMPLEMENTATION_GRAPHQL =>
      dispatch (GraphQL s) Implementation_IMPLEMENTATION_GRAPHQL
        "GraphQL backend not available - please ensure GraphQL is running on localhost:4000"
        req
  | Implementation_IMPLEMENTATION_BOTH => checkBothImplementations s req
  | Implementation_IMPLEMENTATION_SPICEDB
  | Implementation_IMPLEMENTATION_UNSPECIFIED =>
      dispatch (Spice s) Implementation_IMPLEMENTATION_SPICEDB
        "SpiceDB backend not available - please ensure SpiceDB is running on localhost:50051"
        req
  end.

(** The client a request is routed to when its hint names a single backend
    ([None] for the dual check): the field read by the case of the switch the
    request takes. *)
Definition selected (s : Service) (req : PermissionRequest)
    : option (option (PermissionRequest -> option PermissionResponse * error)) :=
  match implementation req with
  | Implementation_IMPLEMENTATION_NEO4J => Some (Neo4j s)
  | Implementation_IMPLEMENTATION_GRAPHQL => Some (GraphQL s)
  | Implementation_IMPLEMENTATION_BOTH => None
  | Implementation_IMPLEMENTATION_SPICEDB
  | Implementation_IMPLEMENTATION_UNSPECIFIED => Some (Spice s)
  end.

(** The two ways an evaluation of the dual check fails: the client was never
    configured (the failure text is then the one of [fmt.Errorf]), or its call
    returned an error. *)
Inductive fails (client : option (PermissionRequest -> option PermissionResponse * error))
    (unavailable : string) (req : PermissionRequest) : string -> Prop :=
| fails_unconfigured :
    client = None -> fails client unavailable req unavailable
| fails_raised c r e :
    client = Some c -> c req = (r, Some e) -> fails client unavailable req e.

(** An evaluation succeeds with [r]: the client is configured and its call
    returns the response [r] and no error. *)
Inductive succeeds (client : option (PermissionRequest -> option PermissionResponse * error))
    (req : PermissionRequest) : PermissionResponse -> Prop :=
| succeeds_with c r :
    client = Some c -> c req = (Some r, None) -> succeeds client req r.

(** The name under which the router's messages speak of a backend. *)
Definition backend_name (impl : Implementation) : string :=
  match impl with
  | Implementation_IMPLEMENTATION_NEO4J => "Neo4j"
  | Implementation_IMPLEMENTATION_GRAPHQL => "GraphQL"
  | Implementation_IMPLEMENTATION_BOTH => "Both"
  | Implementation_IMPLEMENTATION_SPICEDB
  | Implementation_IMPLEMENTATION_UNSPECIFIED => "SpiceDB"
  end.

(** [strings.Contains(s, sub)], used to state what a message contains. *)
Fixpoint contains (sub s : string) : bool :=
  String.prefix sub s ||
  match s with
  | EmptyString => false
  | String _ s' => contains sub s'
  end.

(** ** Numbers of Go *)

(** The value an [int32] computation wraps to. *)
Definition int32 (z : Z) : Z := ((z + 2 ^ 31) mod 2 ^ 32 - 2 ^ 31)%Z.

Definition max_int32 : Z := (2 ^ 31 - 1)%Z.

(** IEEE 754 binary64. *)
Definition prec : Z := 53%Z.
Definition emax : Z := 1024%Z.

Definition float64_add : spec_float -> spec_float -> spec_float := SFadd prec emax.
Definition float64_mul : spec_float -> spec_float -> spec_float := SFmul prec emax.
Definition float64_div : spec_float -> spec_float -> spec_float := SFdiv prec emax.
Definition float64_lt : spec_float -> spec_float -> bool := SFltb.
Definition float64_le : spec_float -> spec_float -> bool := SFleb.

(** The conversion [float64(i)] of an integer: the nearest binary64 value,
    ties to even. *)
Definition float64 (i : Z) : spec_float := binary_normalize prec emax i 0 false.

(** The conversion [int(f)] of a [float64]: the fraction is discarded
    (truncation towards zero).  For an infinity or a NaN the result is
    implementation-specific; the value of amd64 is given. *)
Definition int (f : spec_float) : Z :=
  match f with
  | S754_zero _ => 0
  | S754_finite s m e =>
      let a := match e with
               | Zneg p => Z.pos m / 2 ^ Z.pos p
               | _ => Z.pos m * 2 ^ e
               end in
      if s then - a else a
  | _ => - 2 ^ 63
  end%Z.

(** The constants [0.95] and [0.99] of the source, converted to [float64]:
    the binary64 values nearest to 95/100 and 99/100. *)
Definition const_0_95 : spec_float :=
  Eval vm_compute in float64_div (float64 95) (float64 100).
Definition const_0_99 : spec_float :=
  Eval vm_compute in float64_div (float64 99) (float64 100).

Definition isNaN (f : spec_float) : bool :=
  match f with S754_nan => true | _ => false end.

(** ** Package [sort] *)

(** [sort.Float64Slice.Less]: NaN values are ordered before the others. *)
Definition Less (x y : spec_float) : bool :=
  float64_lt x y || (isNaN x && negb (isNaN y)).

(** [sort.Float64s] sorts in increasing order.  The library routine is
    modelled by insertion under [Less], which it also is for short slices. *)
Fixpoint insert_by {A : Type} (lt : A -> A -> bool) (x : A) (l : list A) : list A :=
  match l with
  | [] => [x]
  | y :: l' => if lt x y then x :: y :: l' else y :: insert_by lt x l'
  end.

Definition sort_by {A : Type} (lt : A -> A -> bool) (l : list A) : list A :=
  foldr (insert_by lt) [] l.

Definition Float64s (x : list spec_float) : list spec_float := sort_by Less x.

(** ** Package [main]: the gRPC server *)

Module server.

(** *** The workers of [CheckBulkPermissions]

    One goroutine is started per request.  It blocks on the send to the
    semaphore channel [sem], then calls the router, writes the slot
    [responses[idx]] of its own index, adds one to a counter, and on return
    frees its place in [sem] and signals the wait group. *)
Inductive phase : Set :=
| Blocked    (* started, waiting at the send to [sem] *)
| InFlight   (* holds a place of [sem] *)
| Finished.  (* has run [wg.Done] *)

#[global] Instance phase_eq_dec : EqDecision phase.
Proof. solve_decision. Defined.

(** The memory the workers share. *)
Record pool : Type := {
  phases : list phase;
  responses : list (option PermissionResponse);
  successCount : Z;
  errorCount : Z
}.

(** [len(sem)]: the places taken. *)
Definition in_flight (ps : list phase) : nat :=
  length (filter (fun p => p = InFlight) ps).

(** The scheduler's choices: which blocked worker passes the send to [sem]
    next, which worker in flight runs to its end next. *)
Inductive event : Set :=
| Acquire (idx : nat)
| Complete (idx : nat).

(** What the worker stores in its slot: the literal built from the error,
    or the response as it came. *)
Definition slot (o : Outcome) : option PermissionResponse :=
  match failure o with
  | Some e => Some (diagnostic Implementation_IMPLEMENTATION_UNSPECIFIED e)
  | None => response o
  end.

(** One step of a worker; [None] when the event is not enabled. *)
Definition step (svc : Service) (requests : list PermissionRequest)
    (maxConcurrency : Z) (ev : event) (st : pool) : option pool :=
  match ev with
  | Acquire idx =>
      match phases st !! idx with
      | Some Blocked =>
          if bool_decide (Z.of_nat (in_flight (phases st)) < maxConcurrency)%Z
          then Some {| phases := <[idx := InFlight]> (phases st);
                       responses := responses st;
                       successCount := successCount st;
                       errorCount := errorCount st |}
          else None
      | _ => None
      end
  | Complete idx =>
      match phases st !! idx, requests !! idx with
      | Some InFlight, Some request =>
          let o := CheckPermission svc request in
          Some {| phases := <[idx := Finished]> (phases st);
                  responses := <[idx := slot o]> (responses st);
                  successCount :=
                    match failure o with
                    | Some _ => successCount st
                    | None => int32 (successCount st + 1)
                    end;
                  errorCount :=
                    match failure o with
                    | Some _ => int32 (errorCount st + 1)
                    | None => errorCount st
                    end |}
      | _, _ => None
      end
  end.

Fixpoint run (svc : Service) (requests : list PermissionRequest)
    (maxConcurrency : Z) (schedule : list event) (st : pool) : option pool :=
  match schedule with
  | [] => Some st
  | ev :: schedule' =>
      match step svc requests maxConcurrency ev st with
      | Some st' => run svc requests maxConcurrency schedule' st'
      | None => None
      end
  end.

(** The shared memory when the first worker starts: [make] gives a slice of
    nil pointers. *)
Definition start (n : nat) : pool :=
  {| phases := replicate n Blocked;
     responses := replicate n None;
     successCount := 0;
     errorCount := 0 |}.

(** [wg.Wait()] returns when every worker has finished. *)
Definition joined (st : pool) : bool :=
  bool_decide (Forall (fun p => p = Finished) (phases st)).

(** [server.CheckBulkPermissions], for a schedule of the workers and the
    milliseconds [totalTime] read off the clock.  [None] stands for a call
    that does not return: [make] panics on a negative capacity, and a
    schedule that is not enabled or leaves a worker unfinished is not an
    execution up to the return of [wg.Wait]. *)
Definition CheckBulkPermissions (svc : Service) (req : BulkPermissionRequest)
    (schedule : list event) (totalTime : Z) : option BulkPermissionResponse :=
  match Requests req with
  | [] => Some {| Responses := []; TotalTimeMs := float64_zero;
                  SuccessCount := 0; ErrorCount := 0 |}
  | _ =>
      let maxConcurrency :=
        if (MaxConcurrency req <=? 0)%Z
        then int32 (Z.of_nat (length (Requests req)))
        else MaxConcurrency req in
      if (maxConcurrency <? 0)%Z then None
      else
        match run svc (Requests req) maxConcurrency schedule
                (start (length (Requests req))) with
        | Some st =>
            if joined st
            then Some {| Responses := responses st;
                         TotalTimeMs := float64 totalTime;
                         SuccessCount := successCount st;
                         ErrorCount := errorCount st |}
            else None
        | None => None
        end
  end.

(** *** The statistics of [runBenchmarkTest] *)

(** The five local variables [minTime], [maxTime], [avgTime], [p95Time] and
    [p99Time] that go into the [BenchmarkResult]. *)
Record Statistics : Type := {
  minTime : spec_float;
  maxTime : spec_float;
  avgTime : spec_float;
  p95Time : spec_float;
  p99Time : spec_float
}.

(** [times[i]] for an [int] index: [None] is the run-time panic of an index
    out of range. *)
Definition at_index (times : list spec_float) (i : Z) : option spec_float :=
  if (i <? 0)%Z then None else times !! Z.to_nat i.

Definition p95Index (len : Z) : Z := int (float64_mul (float64 len) const_0_95).

Definition p99Index (len : Z) : Z := int (float64_mul (float64 len) const_0_99).

(** The lines from [sort.Float64s(times)] to the last percentile lookup. *)
Definition statistics (times0 : list spec_float) : option Statistics :=
  let times := Float64s times0 in
  let len := Z.of_nat (length times) in
  minTime ← at_index times 0;
  maxTime ← at_index times (len - 1);
  let sum := foldl float64_add float64_zero times in
  let avgTime := float64_div sum (float64 len) in
  p95Time ← at_index times (p95Index len);
  p99Time ← at_index times (p99Index len);
  Some {| minTime := minTime; maxTime := maxTime; avgTime := avgTime;
          p95Time := p95Time; p99Time := p99Time |}.

(** The slice [times] when the wait group is passed: worker [idx] has
    stored [float64(elapsed)] at its own index, [elapsed idx] being the
    milliseconds it measured. *)
Definition recorded (iterations : nat) (elapsed : nat -> Z) : list spec_float :=
  map (fun idx => float64 (elapsed idx)) (seq 0 iterations).

End server.

(** ** Vocabulary of the proofs *)

Module batch.

Import server.

(** The workers that have run [wg.Done]. *)
Definition finished (ps : list phase) : nat :=
  length (filter (fun p => p = Finished) ps).

(** What holds of the shared memory at every point of every execution. *)
Record invariant (svc : Service) (requests : list PermissionRequest)
    (st : pool) : Prop := {
  inv_phases : length (phases st) = length requests;
  inv_responses : length (responses st) = length requests;
  inv_slots : forall i request,
    phases st !! i = Some Finished -> requests !! i = Some request ->
    responses st !! i = Some (slot (CheckPermission svc request));
  inv_success : (0 <= successCount st)%Z;
  inv_error : (0 <= errorCount st)%Z;
  inv_counters :
    (successCount st + errorCount st)%Z = Z.of_nat (finished (phases st))
}.

(** The schedule that lets in and completes the workers one after the
    other, from the one of index [k]. *)
Fixpoint one_by_one (k m : nat) : list event :=
  match m with
  | O => []
  | S m' => Acquire k :: Complete k :: one_by_one (S k) m'
  end.

End batch.

Import batch.

(** The exact sum of a list of integers. *)
Definition total (l : list Z) : Z := foldr Z.add 0%Z l.

(** The binary64 representation of a positive integer [c] of [d] binary
    digits, [d] at most 53: a mantissa of 53 digits and the exponent that
    goes with it. *)
Definition canonical (c : Z) (d : Z) : spec_float :=
  S754_finite false (Z.to_pos (c * 2 ^ (53 - d))) (d - 53).

(** What the rounding of the library returns for a rounded mantissa [m2]
    between [2 ^ 52] and [2 ^ 53] at the exponent [e']: the mantissa as it
    is, or [2 ^ 52] at the next exponent when the rounding carried. *)
Definition renormalized (s : bool) (m2 e' : Z) : spec_float :=
  if (m2 <? 2 ^ 53)%Z then S754_finite s (Z.to_pos m2) e'
  else S754_finite s (Z.to_pos (2 ^ 52)) (e' + 1).

(** ** Sample backends and requests *)

Definition hinted (hint : string) : PermissionRequest :=
  {| Actor := "david"; Resource := "acc123";
     Permission := "can_download_statement";
     Context := {[ "implementation" := hint ]} |}.

Definition unhinted : PermissionRequest :=
  {| Actor := "david"; Resource := "acc123";
     Permission := "can_download_statement";
     Context := ∅ |}.

Definition granted (impl : Implementation) : PermissionResponse :=
  {| HasPermission := true; Permissionship := 2; ImplementationTag := impl;
     ResponseTimeMs := float64_zero; ErrorMessage := "" |}.

Definition denied (impl : Implementation) : PermissionResponse :=
  {| HasPermission := false; Permissionship := 1; ImplementationTag := impl;
     ResponseTimeMs := float64_zero; ErrorMessage := "" |}.

Definition grants (impl : Implementation)
    : PermissionRequest -> option PermissionResponse * error :=
  fun _ => (Some (granted impl), None).

Definition denies (impl : Implementation)
    : PermissionRequest -> option PermissionResponse * error :=
  fun _ => (Some (denied impl), None).

(** A client that answers as the Neo4j client does for a permission it has
    no query for: a nil response and an error. *)
Definition unsupported : PermissionRequest -> option PermissionResponse * error :=
  fun r => (None, Some ("unsupported permission: " +:+ Permission r)).

(** A service with a failing SpiceDB client, a granting Neo4j client and a
    granting GraphQL client, and a batch of three requests under a ceiling of
    two. *)
Definition sample_service : Service :=
  NewService (Some unsupported) (Some (grants Implementation_IMPLEMENTATION_NEO4J))
    (Some (grants Implementation_IMPLEMENTATION_GRAPHQL)).

Definition sample_batch : BulkPermissionRequest :=
  {| Requests := [hinted "spicedb"; hinted "graphql"; hinted "both"];
     MaxConcurrency := 2 |}.

(** The milliseconds ten iterations of a benchmark measured. *)
Definition sample_elapsed (idx : nat) : Z := Z.of_nat ((7 * idx + 3) mod 10).

(** ** Package [main]: the streaming call *)

Module stream.

(** How the messages of the caller end: [stream.Recv] returns [io.EOF], or
    another error. *)
Inductive closing : Type :=
| EOF
| RecvError (e : string).

(** [server.StreamPermissionChecks], for the requests [stream.Recv] delivers
    before the stream closes and the way it closes.  [Send k resp] is what the
    call number [k] of [stream.Send] returns.  The results are the responses
    whose send returned nil, in the order sent, and the error the handler
    returns. *)
Fixpoint StreamPermissionChecks (svc : Service)
    (Send : nat -> option PermissionResponse -> error) (k : nat)
    (incoming : list PermissionRequest) (last : closing)
    : list (option PermissionResponse) * error :=
  match incoming with
  | [] =>
      match last with
      | EOF => ([], None)
      | RecvError e => ([], Some e)
      end
  | req :: incoming' =>
      let o := CheckPermission svc req in
      let resp :=
        match failure o with
        | Some e =>
            Some {| HasPermission := false;
                    Permissionship := 0;
                    ImplementationTag := Implementation_IMPLEMENTATION_UNSPECIFIED;
                    ResponseTimeMs := float64_zero;
                    ErrorMessage := e |}
        | None => response o
        end in
      match Send k resp with
      | Some e => ([], Some e)
      | None =>
          let '(sent, result) :=
            StreamPermissionChecks svc Send (S k) incoming' last in
          (resp :: sent, result)
      end
  end.

End stream.

(** ** Package [main]: the benchmark *)

Module benchmark.

(** Modelled from the spec: the generated package [pb] is not part of the
    sources; a benchmark case is one request (actor, resource, permission,
    context) with a name and the decision expected. *)
Module TestCase.
Record t : Type := {
  Name : string;
  Actor : string;
  Resource : string;
  Permission : string;
  Context : gmap string string;
  ExpectedResult : bool
}.
End TestCase.

(** Modelled from the spec: the statistics of one case, with the fields
    [runBenchmarkTest] writes; the counts are [int32]. *)
Module BenchmarkResult.
Record t : Type := {
  TestName : string;
  Success : bool;
  AvgResponseTimeMs : spec_float;
  MinResponseTimeMs : spec_float;
  MaxResponseTimeMs : spec_float;
  P95ResponseTimeMs : spec_float;
  P99ResponseTimeMs : spec_float;
  TotalRequests : Z;
  SuccessfulRequests : Z;
  FailedRequests : Z;
  ImplementationTag : Implementation
}.
End BenchmarkResult.

(** Modelled from the spec: the benchmark job, with the fields
    [server.Benchmark] reads. *)
Module BenchmarkRequest.
Record t : Type := {
  TestCases : list TestCase.t;
  Iterations : Z;
  Concurrency : Z;
  ImplementationTag : Implementation
}.
End BenchmarkRequest.

(** Modelled from the spec: the summary over all cases, with the fields
    [server.Benchmark] writes. *)
Module BenchmarkSummary.
Record t : Type := {
  TotalTimeMs : spec_float;
  TotalRequests : Z;
  AvgResponseTimeMs : spec_float;
  ThroughputRps : spec_float;
  ImplementationTag : Implementation
}.
End BenchmarkSummary.

(** Modelled from the spec: the per-case results and the summary. *)
Module BenchmarkResponse.
Record t : Type := {
  Results : list BenchmarkResult.t;
  Summary : BenchmarkSummary.t
}.
End BenchmarkResponse.

(** The memory the workers of [runBenchmarkTest] share. *)
Record pool : Type := {
  phases : list server.phase;
  times : list spec_float;
  successCount : Z;
  failedCount : Z
}.

(** The request every worker builds from the case. *)
Definition permReq (testCase : TestCase.t) : PermissionRequest :=
  {| pb.Actor := TestCase.Actor testCase;
     pb.Resource := TestCase.Resource testCase;
     pb.Permission := TestCase.Permission testCase;
     pb.Context := TestCase.Context testCase |}.

(** One step of a worker: the send to [sem], or the rest of the goroutine.
    [svc idx] is the service with the clients as they answer during the call
    of worker [idx] (the answers of a backend may change from call to call),
    and [elapsed idx] the time in milliseconds the worker measures.  A worker
    whose call returns neither a response nor an error panics when it reads
    [resp.HasPermission]: it has stored its time and adds to neither
    counter, and its deferred calls free its place in [sem] and signal the
    wait group before the runtime ends the process.  [None] when the event
    is not enabled. *)
Definition step (svc : nat -> Service) (testCase : TestCase.t) (concurrency : Z)
    (elapsed : nat -> Z) (ev : server.event) (st : pool) : option pool :=
  match ev with
  | server.Acquire idx =>
      match phases st !! idx with
      | Some server.Blocked =>
          if bool_decide (Z.of_nat (server.in_flight (phases st)) < concurrency)%Z
          then Some {| phases := <[idx := server.InFlight]> (phases st);
                       times := times st;
                       successCount := successCount st;
                       failedCount := failedCount st |}
          else None
      | _ => None
      end
  | server.Complete idx =>
      match phases st !! idx with
      | Some server.InFlight =>
          let o := CheckPermission (svc idx) (permReq testCase) in
          let times' := <[idx := float64 (elapsed idx)]> (times st) in
          let failed :=
            {| phases := <[idx := server.Finished]> (phases st);
               times := times';
               successCount := successCount st;
               failedCount := int32 (failedCount st + 1) |} in
          let succeeded :=
            {| phases := <[idx := server.Finished]> (phases st);
               times := times';
               successCount := int32 (successCount st + 1);
               failedCount := failedCount st |} in
          let panicked :=
            {| phases := <[idx := server.Finished]> (phases st);
               times := times';
               successCount := successCount st;
               failedCount := failedCount st |} in
          match failure o, response o with
          | Some _, _ => Some failed
          | None, Some resp =>
              if Bool.eqb (HasPermission resp) (TestCase.ExpectedResult testCase)
              then Some succeeded else Some failed
          | None, None => Some panicked
          end
      | _ => None
      end
  end.

Fixpoint run (svc : nat -> Service) (testCase : TestCase.t) (concurrency : Z)
    (elapsed : nat -> Z) (schedule : list server.event) (st : pool) : option pool :=
  match schedule with
  | [] => Some st
  | ev :: schedule' =>
      match step svc testCase concurrency elapsed ev st with
      | Some st' => run svc testCase concurrency elapsed schedule' st'
      | None => None
      end
  end.

(** The shared memory when the first worker starts: [make] gives a slice of
    zeros. *)
Definition start (n : nat) : pool :=
  {| phases := replicate n server.Blocked;
     times := replicate n float64_zero;
     successCount := 0;
     failedCount := 0 |}.

Definition joined (st : pool) : bool :=
  bool_decide (Forall (fun p => p = server.Finished) (phases st)).

(** [server.runBenchmarkTest], for a schedule of the workers and the
    milliseconds they measure.  [None] stands for a call that does not
    return: [make] panics on a negative length, the index [times[0]] is out
    of range when there is no iteration, and a schedule that is not enabled
    or leaves a worker unfinished is not an execution up to the return of
    [wg.Wait].  After the panic of a worker the process ends; the schedules
    describe the executions in which the call passes the wait group and
    returns before that. *)
Definition runBenchmarkTest (svc : nat -> Service) (testCase : TestCase.t)
    (iterations concurrency : Z) (implementation : Implementation)
    (schedule : list server.event) (elapsed : nat -> Z)
    : option BenchmarkResult.t :=
  let concurrency := if (concurrency <=? 0)%Z then 1%Z else concurrency in
  if (iterations <? 0)%Z then None
  else
    match run svc testCase concurrency elapsed schedule
            (start (Z.to_nat iterations)) with
    | Some st =>
        if joined st
        then
          match server.statistics (times st) with
          | Some stats =>
              Some {| BenchmarkResult.TestName := TestCase.Name testCase;
                      BenchmarkResult.Success := (failedCount st =? 0)%Z;
                      BenchmarkResult.AvgResponseTimeMs := server.avgTime stats;
                      BenchmarkResult.MinResponseTimeMs := server.minTime stats;
                      BenchmarkResult.MaxResponseTimeMs := server.maxTime stats;
                      BenchmarkResult.P95ResponseTimeMs := server.p95Time stats;
                      BenchmarkResult.P99ResponseTimeMs := server.p99Time stats;
                      BenchmarkResult.TotalRequests := iterations;
                      BenchmarkResult.SuccessfulRequests := successCount st;
                      BenchmarkResult.FailedRequests := failedCount st;
                      BenchmarkResult.ImplementationTag := implementation |}
          | None => None
          end
        else None
    | None => None
    end.

(** The loop of [server.Benchmark] over the cases from the one of index [i]:
    the results in the order of the cases and the [int32] sum
    [totalRequests].  The cases run one after the other; [svc i],
    [schedules i] and [elapsed i] are the services of the calls, the schedule
    and the measurements of the case of index [i]. *)
Fixpoint cases (svc : nat -> nat -> Service) (req : BenchmarkRequest.t)
    (schedules : nat -> list server.event) (elapsed : nat -> nat -> Z)
    (i : nat) (testCases : list TestCase.t) (totalRequests : Z)
    : option (list BenchmarkResult.t * Z) :=
  match testCases with
  | [] => Some ([], totalRequests)
  | testCase :: testCases' =>
      match runBenchmarkTest (svc i) testCase (BenchmarkRequest.Iterations req)
              (BenchmarkRequest.Concurrency req)
              (BenchmarkRequest.ImplementationTag req)
              (schedules i) (elapsed i) with
      | Some result =>
          match cases svc req schedules elapsed (S i) testCases'
                  (int32 (totalRequests + BenchmarkResult.TotalRequests result)) with
          | Some (results, total) => Some (result :: results, total)
          | None => None
          end
      | None => None
      end
  end.

(** [server.Benchmark]; [totalTime] is the milliseconds read off the clock
    after the last case. *)
Definition Benchmark (svc : nat -> nat -> Service) (req : BenchmarkRequest.t)
    (schedules : nat -> list server.event) (elapsed : nat -> nat -> Z)
    (totalTime : Z) : option BenchmarkResponse.t :=
  if bool_decide (length (BenchmarkRequest.TestCases req) = 0)
     || (BenchmarkRequest.Iterations req <=? 0)%Z
  then
    Some {| BenchmarkResponse.Results := [];
            BenchmarkResponse.Summary :=
              {| BenchmarkSummary.TotalTimeMs := float64_zero;
                 BenchmarkSummary.TotalRequests := 0;
                 BenchmarkSummary.AvgResponseTimeMs := float64_zero;
                 BenchmarkSummary.ThroughputRps := float64_zero;
                 BenchmarkSummary.ImplementationTag :=
                   Implementation_IMPLEMENTATION_UNSPECIFIED |} |}
  else
    match cases svc req schedules elapsed 0 (BenchmarkRequest.TestCases req) 0 with
    | Some (results, totalRequests) =>
        let avgResponseTime :=
          float64_div (float64 totalTime) (float64 totalRequests) in
        let throughput :=
          float64_div (float64 totalRequests)
            (float64_div (float64 totalTime) (float64 1000)) in
        Some {| BenchmarkResponse.Results := results;
                BenchmarkResponse.Summary :=
                  {| BenchmarkSummary.TotalTimeMs := float64 totalTime;
                     BenchmarkSummary.TotalRequests := totalRequests;
                     BenchmarkSummary.AvgResponseTimeMs := avgResponseTime;
                     BenchmarkSummary.ThroughputRps := throughput;
                     BenchmarkSummary.ImplementationTag :=
                       BenchmarkRequest.ImplementationTag req |} |}
    | None => None
    end.

End benchmark.

(** ** Package [spicedb]: the client of SpiceDB *)

Module spicedb.

(** The messages of the Authzed API the clients build, with the fields they
    set; a field that holds a pointer is an option. *)
Module v1.

Record ObjectReference : Type := {
  ObjectType : string;
  ObjectId : string
}.

Record SubjectReference : Type := {
  Object : ObjectReference
}.

Inductive Consistency : Type :=
| Consistency_FullyConsistent (FullyConsistent : bool).

Record CheckPermissionRequest (Struct : Type) : Type := {
  Resource : ObjectReference;
  Permission : string;
  Subject : SubjectReference;
  Consistency_ : option Consistency;
  Context : option Struct
}.

Arguments Resource {Struct} _.
Arguments Permission {Struct} _.
Arguments Subject {Struct} _.
Arguments Consistency_ {Struct} _.
Arguments Context {Struct} _.

(** The values of the enumeration [CheckPermissionResponse_Permissionship]. *)
Definition CheckPermissionResponse_PERMISSIONSHIP_NO_PERMISSION : Z := 1.
Definition CheckPermissionResponse_PERMISSIONSHIP_HAS_PERMISSION : Z := 2.
Definition CheckPermissionResponse_PERMISSIONSHIP_CONDITIONAL_PERMISSION : Z := 3.

End v1.

Section Client.

(** [structpb.Struct], and [structpb.NewStruct] on the context of a request:
    the struct, or the text of the error. *)
Variable Struct : Type.
Variable NewStruct : gmap string string -> Struct + string.

(** The call [c.client.CheckPermission] of the Authzed client: the
    permissionship of the answer, or the text of the error. *)
Variable remote : v1.CheckPermissionRequest Struct -> Z + string.

(** The first part of [Client.CheckPermission]: the request for SpiceDB, or
    the results returned when the context cannot be converted. *)
Definition checkReq (req : PermissionRequest)
    : v1.CheckPermissionRequest Struct + (option PermissionResponse * error) :=
  let checkReq :=
    {| v1.Resource := {| v1.ObjectType := "account"; v1.ObjectId := pb.Resource req |};
       v1.Permission := pb.Permission req;
       v1.Subject :=
         {| v1.Object := {| v1.ObjectType := "user"; v1.ObjectId := pb.Actor req |} |};
       v1.Consistency_ := Some (v1.Consistency_FullyConsistent true);
       v1.Context := None |} in
  if bool_decide (pb.Context req <> ∅)
  then
    match NewStruct (pb.Context req) with
    | inr err =>
        inr (Some {| HasPermission := false;
                     Permissionship := 0;
                     ImplementationTag := Implementation_IMPLEMENTATION_UNSPECIFIED;
                     ResponseTimeMs := float64_zero;
                     ErrorMessage := "failed to create context: " +:+ err |},
             Some err)
    | inl contextStruct =>
        inl {| v1.Resource := v1.Resource checkReq;
               v1.Permission := v1.Permission checkReq;
               v1.Subject := v1.Subject checkReq;
               v1.Consistency_ := v1.Consistency_ checkReq;
               v1.Context := Some contextStruct |}
    end
  else inl checkReq.

(** [Client.CheckPermission].  The two lines written to the standard output
    are left out. *)
Definition CheckPermission (req : PermissionRequest)
    : option PermissionResponse * error :=
  match checkReq req with
  | inr results => results
  | inl checkReq =>
      match remote checkReq with
      | inr err =>
          (Some {| HasPermission := false;
                   Permissionship := 0;
                   ImplementationTag := Implementation_IMPLEMENTATION_UNSPECIFIED;
                   ResponseTimeMs := float64_zero;
                   ErrorMessage := err |},
           Some err)
      | inl permissionship =>
          let hasPermission :=
            if (permissionship =? v1.CheckPermissionResponse_PERMISSIONSHIP_HAS_PERMISSION)%Z
            then true
            else if (permissionship
                     =? v1.CheckPermissionResponse_PERMISSIONSHIP_CONDITIONAL_PERMISSION)%Z
            then true
            else if (permissionship
                     =? v1.CheckPermissionResponse_PERMISSIONSHIP_NO_PERMISSION)%Z
            then false
            else false in
          if (permissionship
              =? v1.CheckPermissionResponse_PERMISSIONSHIP_CONDITIONAL_PERMISSION)%Z
             && bool_decide (pb.Context req = ∅)
          then
            (Some {| HasPermission := false;
                     Permissionship := permissionship;
                     ImplementationTag := Implementation_IMPLEMENTATION_UNSPECIFIED;
                     ResponseTimeMs := float64_zero;
                     ErrorMessage :=
                       "conditional permission requires context but none was provided" |},
             None)
          else
            (Some {| HasPermission := hasPermission;
                     Permissionship := permissionship;
                     ImplementationTag := Implementation_IMPLEMENTATION_UNSPECIFIED;
                     ResponseTimeMs := float64_zero;
                     ErrorMessage := "" |},
             None)
      end
  end.

End Client.

End spicedb.

(** ** Package [neo4j]: the client of Neo4j *)

Module neo4j.

(** The value of the field ["result"] of a record, by its Go type: the three
    types the client converts, and any other type by its name. *)
Inductive value : Type :=
| Bool (v : bool)
| Int64 (v : Z)
| Float64 (v : spec_float)
| Other (type : string).

(** The map [params]: the three keys always set, and the key ["amount"] of
    the payment queries. *)
Record params : Type := {
  userId : string;
  accountId : string;
  now : string;
  amount : option spec_float
}.

(** What the driver does with a query: [session.Run] fails; or
    [result.Single] fails (no record, or more than one); or there is a single
    record, with or without a field ["result"]. *)
Inductive execution : Type :=
| RunError (e : string)
| SingleError (e : string)
| Single (result : option value).

(** [Client.getPermissionQuery] *)
Definition getPermissionQuery (permission : string) : string * error :=
  if String.eqb permission "read" || String.eqb permission "can_view_transactions"
  then ("
			OPTIONAL MATCH (user:User {id: $userId})
			OPTIONAL MATCH (account:Account {id: $accountId})
			WITH user, account
			OPTIONAL MATCH (user)-[owns:OWNS]->(account)
			WITH user, account, owns IS NOT NULL as direct_owner
			OPTIONAL MATCH (user)-[poa:HAS_POA]->(account)
			WHERE datetime($now) >= datetime(poa.starts_at) AND datetime($now) <= datetime(poa.expires_at)
			WITH user, account, direct_owner, count(poa) as valid_poa
			OPTIONAL MATCH (user)-[:HAS_ROLE]->(role:Role)-[:MEMBER_OF]->(org:Org)-[:OWNS]->(account)
			WITH user, account, direct_owner, valid_poa, count(role) as role_access
			OPTIONAL MATCH (user)-[acc:HAS_ACCOUNTANT_ACCESS]->(account)
			WHERE datetime($now) >= datetime(acc.starts_at) AND datetime($now) <= datetime(acc.expires_at)
			WITH user, account, direct_owner, valid_poa, role_access, count(acc) as accountant_access
			RETURN (direct_owner OR valid_poa > 0 OR role_access > 0 OR accountant_access > 0) as result
		", None)
  else if String.eqb permission "write" || String.eqb permission "can_initiate_payment"
  then ("
			OPTIONAL MATCH (user:User {id: $userId})
			OPTIONAL MATCH (account:Account {id: $accountId})
			WITH user, account
			OPTIONAL MATCH (user)-[owns:OWNS]->(account)
			WITH user, account, owns IS NOT NULL as direct_owner
			OPTIONAL MATCH (user)-[poa:HAS_POA]->(account)
			WHERE datetime($now) >= datetime(poa.starts_at) AND datetime($now) <= datetime(poa.expires_at) AND ($amount <= poa.payment_limit OR poa.payment_limit IS NULL)
			WITH user, account, direct_owner, count(poa) as valid_poa
			OPTIONAL MATCH (user)-[:HAS_ROLE]->(role:Role)-[:MEMBER_OF]->(org:Org)-[:OWNS]->(account)
			WITH user, account, direct_owner, valid_poa, count(role) as role_access
			RETURN (direct_owner OR valid_poa > 0 OR role_access > 0) as result
		", None)
  else if String.eqb permission "can_download_statement"
  then ("
			OPTIONAL MATCH (user:User {id: $userId})
			OPTIONAL MATCH (account:Account {id: $accountId})
			WITH user, account
			OPTIONAL MATCH (user)-[owns:OWNS]->(account)
			WITH user, account, owns IS NOT NULL as direct_owner
			OPTIONAL MATCH (user)-[poa:HAS_POA]->(account)
			WHERE datetime($now) >= datetime(poa.starts_at) AND datetime($now) <= datetime(poa.expires_at)
			WITH user, account, direct_owner, count(poa) as valid_poa
			OPTIONAL MATCH (user)-[:HAS_ROLE]->(role:Role)-[:MEMBER_OF]->(org:Org)-[:OWNS]->(account)
			WITH user, account, direct_owner, valid_poa, count(role) as role_access
			OPTIONAL MATCH (user)-[acc:HAS_ACCOUNTANT_ACCESS]->(account)
			WHERE datetime($now) >= datetime(acc.starts_at) AND datetime($now) <= datetime(acc.expires_at)
			WITH user, account, direct_owner, valid_poa, role_access, count(acc) as accountant_access
			RETURN (direct_owner OR valid_poa > 0 OR role_access > 0 OR accountant_access > 0) as result
		", None)
  else if String.eqb permission "can_access"
  then ("
			OPTIONAL MATCH (user:User {id: $userId})
			OPTIONAL MATCH (account:Account {id: $accountId})
			WITH user, account
			OPTIONAL MATCH (user)-[owns:OWNS]->(account)
			WITH user, account, owns IS NOT NULL as direct_owner
			OPTIONAL MATCH (user)-[:HAS_ROLE]->(role:Role)-[:MEMBER_OF]->(org:Org)-[:OWNS]->(account)
			WITH user, account, direct_owner, count(role) as role_access
			RETURN (direct_owner OR role_access > 0) as result
		", None)
  else ("", Some ("unsupported permission: " +:+ permission)).

Section Client.

(** The driver, and the three library calls whose results the client uses:
    the current time in the layout of [testDate], [strconv.ParseFloat] (the
    number when the error is nil), and the milliseconds since the start of
    the call. *)
Variable Run : string -> params -> execution.
Variable clock : string.
Variable ParseFloat : string -> option spec_float.
Variable responseTime : Z.

(** [Client.CheckPermission].  The permissionships 1 and 2 are the values of
    NO_PERMISSION and HAS_PERMISSION of the enumeration [pb.Permissionship],
    as [mapPermissionship] of the GraphQL client writes them. *)
Definition CheckPermission (req : PermissionRequest)
    : option PermissionResponse * error :=
  match getPermissionQuery (Permission req) with
  | (_, Some err) => (None, Some err)
  | (query, None) =>
      let testDate :=
        match Context req !! "test_date" with
        | Some dateStr => dateStr
        | None => clock
        end in
      let amount :=
        if String.eqb (Permission req) "can_initiate_payment"
           || String.eqb (Permission req) "write"
        then
          Some match Context req !! "amount" with
               | Some amtStr =>
                   match ParseFloat amtStr with
                   | Some amt => amt
                   | None => float64 1000
                   end
               | None => float64 1000
               end
        else None in
      let answer (permission : bool) :=
        (Some {| HasPermission := permission;
                 Permissionship := if permission then 2%Z else 1%Z;
                 ImplementationTag := Implementation_IMPLEMENTATION_NEO4J;
                 ResponseTimeMs := float64 responseTime;
                 ErrorMessage := "" |},
         None) in
      match Run query {| userId := Actor req; accountId := Resource req;
                         now := testDate; amount := amount |} with
      | RunError err => (None, Some ("failed to execute Neo4j query: " +:+ err))
      | SingleError _ =>
          (Some {| HasPermission := false;
                   Permissionship := 1;
                   ImplementationTag := Implementation_IMPLEMENTATION_NEO4J;
                   ResponseTimeMs := float64 responseTime;
                   ErrorMessage := "" |},
           None)
      | Single None => (None, Some "query result does not contain 'result' field")
      | Single (Some hasPermission) =>
          match hasPermission with
          | Bool v => answer v
          | Int64 v => answer (negb (v =? 0)%Z)
          | Float64 v => answer (negb (SFeqb v float64_zero))
          | Other type => (None, Some ("unexpected result type: " +:+ type))
          end
      end
  end.

End Client.

End neo4j.

(** ** Package [graphql]: the client of the GraphQL server *)

Module graphql.

(** A value of the map [Data], decoded from JSON: a boolean, or a value of
    another type. *)
Inductive value : Type :=
| Bool (v : bool)
| Other.

(** The map [variables]: the key ["accountId"], and the key ["amount"] of the
    payment query. *)
Record variables : Type := {
  accountId : string;
  amount : option spec_float
}.

Record GraphQLRequest : Type := {
  Query : string;
  Variables : variables
}.

Record GraphQLError : Type := {
  Message : string
}.

Record GraphQLResponse : Type := {
  Data : gmap string value;
  Errors : list GraphQLError
}.

(** The exchange with the server, from [json.Marshal] to [json.Unmarshal]:
    the first of the five calls that fails, with the text of its error, or
    the response decoded. *)
Inductive exchange : Type :=
| MarshalError (e : string)
| NewRequestError (e : string)
| DoError (e : string)
| ReadAllError (e : string)
| UnmarshalError (e : string)
| Decoded (gqlResp : GraphQLResponse).

(** [fmt.Sprintf("%v", errors)] for a slice of [GraphQLError]. *)
Definition fmt_errors (errors : list GraphQLError) : string :=
  "[" +:+ String.concat " " (map (fun e => "{" +:+ Message e +:+ "}") errors) +:+ "]".

Section Client.

(** [strconv.ParseFloat] (the number when the error is nil); the exchange
    with the server for a request body and the header [x-user-id]; the order
    in which a [range] statement visits the entries of a map; the
    milliseconds since the start of the call. *)
Variable ParseFloat : string -> option spec_float.
Variable post : GraphQLRequest -> string -> exchange.
Variable range : gmap string value -> list (string * value).
Variable responseTime : Z.

(** [Client.buildGraphQLQuery] *)
Definition buildGraphQLQuery (req : PermissionRequest) : string * variables :=
  let variables := {| accountId := Resource req; amount := None |} in
  if String.eqb (Permission req) "can_view_transactions"
  then ("
		query($accountId: ID!) {
			canViewTransactions(accountId: $accountId)
		}", variables)
  else if String.eqb (Permission req) "can_download_statement"
  then ("
		query($accountId: ID!) {
			canDownloadStatement(accountId: $accountId)
		}", variables)
  else if String.eqb (Permission req) "can_initiate_payment"
  then
    let amount :=
      match Context req !! "amount" with
      | Some amtStr =>
          match ParseFloat amtStr with
          | Some amt => amt
          | None => float64 1000
          end
      | None => float64 1000
      end in
    ("
		query($accountId: ID!, $amount: Float!) {
			canInitiatePayment(accountId: $accountId, amount: $amount)
		}", {| accountId := accountId variables; amount := Some amount |})
  else if String.eqb (Permission req) "can_access"
  then ("
		query($accountId: ID!) {
			canAccess(accountId: $accountId)
		}", variables)
  else ("
		query($accountId: ID!) {
			canAccess(accountId: $accountId)
		}", variables).

(** The loop of [Client.extractPermissionResult] over the entries in the
    order they are visited. *)
Fixpoint first_bool (entries : list (string * value)) : bool :=
  match entries with
  | [] => false
  | (_, Bool boolValue) :: _ => boolValue
  | (_, Other) :: entries' => first_bool entries'
  end.

(** [Client.extractPermissionResult] *)
Definition extractPermissionResult (data : gmap string value) (permission : string)
    : bool :=
  first_bool (range data).

(** [Client.mapPermissionship] *)
Definition mapPermissionship (hasPermission : bool) : Z :=
  if hasPermission then 2%Z else 1%Z.

(** [Client.CheckPermission] *)
Definition CheckPermission (req : PermissionRequest)
    : option PermissionResponse * error :=
  let '(query, variables) := buildGraphQLQuery req in
  let gqlReq := {| Query := query; Variables := variables |} in
  let refused (msg : string) :=
    (Some {| HasPermission := false;
             Permissionship := 0;
             ImplementationTag := Implementation_IMPLEMENTATION_UNSPECIFIED;
             ResponseTimeMs := float64_zero;
             ErrorMessage := msg |},
     None) in
  match post gqlReq (Actor req) with
  | MarshalError err => refused ("failed to marshal GraphQL request: " +:+ err)
  | NewRequestError err => refused ("failed to create HTTP request: " +:+ err)
  | DoError err => refused ("failed to make GraphQL request: " +:+ err)
  | ReadAllError err => refused ("failed to read response body: " +:+ err)
  | UnmarshalError err => refused ("failed to unmarshal GraphQL response: " +:+ err)
  | Decoded gqlResp =>
      if bool_decide (0 < length (Errors gqlResp))
      then refused ("GraphQL errors: " +:+ fmt_errors (Errors gqlResp))
      else
        let hasPermission := extractPermissionResult (Data gqlResp) (Permission req) in
        (Some {| HasPermission := hasPermission;
                 Permissionship := mapPermissionship hasPermission;
                 ImplementationTag := Implementation_IMPLEMENTATION_GRAPHQL;
                 ResponseTimeMs := float64 responseTime;
                 ErrorMessage := "" |},
         None)
  end.

End Client.

End graphql.

(** ** The test client of the SpiceDB model (package [main] of the tests) *)

Module spicedb_tests.

(** The character [':']. *)
Definition colon : Ascii.ascii := Ascii.ascii_of_nat 58.

(** The loop of [parseObjectRef]: [i] is the index of the first character of
    [rest] in [objectRef].  The loop of the source visits the runes of the
    string; the colon is a single byte and no part of the encoding of another
    rune, so the bytes are visited here. *)
Fixpoint scan (objectRef : string) (i : nat) (rest : string) : list string :=
  match rest with
  | EmptyString => [objectRef]
  | String r rest' =>
      if Ascii.eqb r colon
      then [substring 0 i objectRef;
            substring (i + 1) (String.length objectRef - (i + 1)) objectRef]
      else scan objectRef (S i) rest'
  end.

(** [parseObjectRef] *)
Definition parseObjectRef (objectRef : string) : list string :=
  scan objectRef 0 objectRef.

(** [getCaveatName] *)
Definition getCaveatName (relation : string) : string :=
  let caveatMap : gmap string string :=
    {[ "delegate_with_limit" := "under_limit";
       "delegate_with_time" := "within_active_range";
       "delegate_with_time_and_limit" := "within_time_and_limit";
       "accountant_access" := "within_active_range" ]} in
  match caveatMap !! relation with
  | Some caveat => caveat
  | None => ""
  end.

Section TestClient.

(** [structpb.Struct], the values of a caveat context, [structpb.NewStruct]
    (the struct, or the text of the error) and the empty struct. *)
Variable Struct : Type.
Variable Value : Type.
Variable NewStruct : gmap string Value -> Struct + string.
Variable emptyStruct : Struct.

(** The call [tc.client.CheckPermission] of the Authzed client: the
    permissionship of the answer, or the text of the error. *)
Variable remote : spicedb.v1.CheckPermissionRequest Struct -> Z + string.

(** [convertToStruct] *)
Definition convertToStruct (data : gmap string Value) : Struct :=
  match NewStruct data with
  | inr _ => emptyStruct
  | inl s => s
  end.

(** [TestClient.CheckPermission] *)
Definition CheckPermission (resource permission subject : string)
    (caveatContext : gmap string Value) : bool * error :=
  let resourceParts := parseObjectRef resource in
  if negb (length resourceParts =? 2)%nat
  then (false, Some ("invalid resource format: " +:+ resource))
  else
    let subjectParts := parseObjectRef subject in
    if negb (length subjectParts =? 2)%nat
    then (false, Some ("invalid subject format: " +:+ subject))
    else
      let req :=
        {| spicedb.v1.Resource :=
             {| spicedb.v1.ObjectType := nth 0 resourceParts "";
                spicedb.v1.ObjectId := nth 1 resourceParts "" |};
           spicedb.v1.Permission := permission;
           spicedb.v1.Subject :=
             {| spicedb.v1.Object :=
                  {| spicedb.v1.ObjectType := nth 0 subjectParts "";
                     spicedb.v1.ObjectId := nth 1 subjectParts "" |} |};
           spicedb.v1.Consistency_ := None;
           spicedb.v1.Context :=
             if bool_decide (caveatContext <> ∅)
             then Some (convertToStruct caveatContext)
             else None |} in
      match remote req with
      | inr err => (false, Some ("failed to check permission: " +:+ err))
      | inl permissionship =>
          ((permissionship
            =? spicedb.v1.CheckPermissionResponse_PERMISSIONSHIP_HAS_PERMISSION)%Z,
           None)
      end.

End TestClient.

End spicedb_tests.

(** ** The resolvers of the GraphQL model (TypeScript) *)

Module resolvers.

(** The rows the queries of Prisma return, with the columns the resolvers
    read.  A [Date] is its time value in milliseconds, a [number] a
    [float64]; a column that may be null, and a relation that may be
    missing, is an option.  Of the organization that owns an account only
    the id is read. *)
Record User : Type := {
  user_id : string
}.

Record Role : Type := {
  role_members : list User
}.

Record Organization : Type := {
  org_id : string;
  org_members : list User;
  org_roles : list Role
}.

Record POA : Type := {
  delegateId : string;
  validFrom : option Z;
  validTo : option Z;
  maxAmount : option spec_float
}.

Record Account : Type := {
  ownerUser : option User;
  ownerOrg : option Organization;
  delegates : option (list User);
  poas : option (list POA)
}.

Record AccountantAccess : Type := {
  access_accountId : string;
  access_userId : string;
  access_validFrom : Z;
  access_validTo : Z
}.

Section Prisma.

(** The database: [prisma.organization.findUnique] and
    [prisma.account.findUnique] by id, and the rows of the table
    [AccountantAccess]. *)
Variable organization_findUnique : string -> option Organization.
Variable account_findUnique : string -> option Account.
Variable accountantAccess : list AccountantAccess.

(** [userHasOrgAccess] *)
Definition userHasOrgAccess (userId orgId : string) : bool :=
  match organization_findUnique orgId with
  | None => false
  | Some org =>
      if existsb (fun u => String.eqb (user_id u) userId) (org_members org)
      then true
      else
        existsb
          (fun role => existsb (fun u => String.eqb (user_id u) userId) (role_members role))
          (org_roles org)
  end.

(** The loop of [userHasPOAAccess] over the powers of attorney of the
    account; [now] is the time read at the start of the function. *)
Fixpoint poa_loop (now : Z) (userId : string) (amount : option spec_float)
    (poas : list POA) : bool :=
  match poas with
  | [] => false
  | poa :: poas' =>
      if String.eqb (delegateId poa) userId
      then
        if match validFrom poa, validTo poa with
           | Some validFrom, Some validTo => (now <? validFrom)%Z || (now >? validTo)%Z
           | _, _ => false
           end
        then poa_loop now userId amount poas'
        else if match maxAmount poa, amount with
                | Some maxAmount, Some amount => float64_lt maxAmount amount
                | _, _ => false
                end
        then poa_loop now userId amount poas'
        else true
      else poa_loop now userId amount poas'
  end.

(** [userHasPOAAccess] *)
Definition userHasPOAAccess (now : Z) (account : Account) (userId : string)
    (amount : option spec_float) : bool :=
  poa_loop now userId amount (default [] (poas account)).

(** [userHasAccountantAccess]; [findFirst] returns a row that satisfies the
    four conditions when there is one. *)
Definition userHasAccountantAccess (now : Z) (accountId userId : string) : bool :=
  match
    List.find
      (fun access =>
         String.eqb (access_accountId access) accountId
         && String.eqb (access_userId access) userId
         && (access_validFrom access <=? now)%Z
         && (access_validTo access >=? now)%Z)
      accountantAccess
  with
  | Some _ => true
  | None => false
  end.

(** [!context.userId]: the header is missing or empty. *)
Definition no_user (userId : option string) : bool :=
  match userId with
  | None => true
  | Some userId => String.eqb userId ""
  end.

(** The resolver [canInitiatePayment]; [now] is the time read by
    [userHasPOAAccess]. *)
Definition canInitiatePayment (context_userId : option string)
    (accountId : string) (amount : option spec_float) (now : Z) : bool :=
  if no_user context_userId then false
  else
    let userId := default "" context_userId in
    match account_findUnique accountId with
    | None => false
    | Some account =>
        if match ownerUser account with
           | Some u => String.eqb (user_id u) userId
           | None => false
           end
        then true
        else if match ownerOrg account with
                | Some org => userHasOrgAccess userId (org_id org)
                | None => false
                end
        then true
        else if match delegates account with
                | Some users => existsb (fun u => String.eqb (user_id u) userId) users
                | None => false
                end
        then true
        else if userHasPOAAccess now account userId amount then true
        else false
    end.

(** The resolver [canDownloadStatement]; [now1] is the time read by
    [userHasPOAAccess] and [now2] the time read by
    [userHasAccountantAccess]. *)
Definition canDownloadStatement (context_userId : option string)
    (accountId : string) (now1 now2 : Z) : bool :=
  if no_user context_userId then false
  else
    let userId := default "" context_userId in
    match account_findUnique accountId with
    | None => false
    | Some account =>
        if match ownerUser account with
           | Some u => String.eqb (user_id u) userId
           | None => false
           end
        then true
        else if match ownerOrg account with
                | Some org => userHasOrgAccess userId (org_id org)
                | None => false
                end
        then true
        else if match delegates account with
                | Some users => existsb (fun u => String.eqb (user_id u) userId) users
                | None => false
                end
        then true
        else if userHasPOAAccess now1 account userId None then true
        else if userHasAccountantAccess now2 accountId userId then true
        else false
    end.

(** The resolver [canViewTransactions] *)
Definition canViewTransactions (context_userId : option string)
    (accountId : string) (now1 now2 : Z) : bool :=
  if no_user context_userId then false
  else
    let userId := default "" context_userId in
    match account_findUnique accountId with
    | None => false
    | Some account =>
        if match ownerUser account with
           | Some u => String.eqb (user_id u) userId
           | None => false
           end
        then true
        else if match ownerOrg account with
                | Some org => userHasOrgAccess userId (org_id org)
                | None => false
                end
        then true
        else if match delegates account with
                | Some users => existsb (fun u => String.eqb (user_id u) userId) users
                | None => false
                end
        then true
        else if userHasPOAAccess now1 account userId None then true
        else if userHasAccountantAccess now2 accountId userId then true
        else false
    end.

(** The resolver [canAccess] *)
Definition canAccess (context_userId : option string) (accountId : string) : bool :=
  if no_user context_userId then false
  else
    let userId := default "" context_userId in
    match account_findUnique accountId with
    | None => false
    | Some account =>
        if match ownerUser account with
           | Some u => String.eqb (user_id u) userId
           | None => false
           end
        then true
        else if match ownerOrg account with
                | Some org => userHasOrgAccess userId (org_id org)
                | None => false
                end
        then true
        else false
    end.

End Prisma.

End resolvers.

(** ** Vocabulary of the further proofs *)

(** The router returns an error for the request. *)
Definition raises (svc : Service) (request : PermissionRequest) : bool :=
  match failure (CheckPermission svc request) with
  | Some _ => true
  | None => false
  end.

(** The workers that have finished and whose request has the property
    [verdict]. *)
Fixpoint tally (verdict : PermissionRequest -> bool) (ps : list server.phase)
    (requests : list PermissionRequest) : nat :=
  match ps, requests with
  | p :: ps', request :: requests' =>
      (if bool_decide (p = server.Finished) && verdict request then 1 else 0)
      + tally verdict ps' requests'
  | _, _ => 0
  end.

(** The verdict of a benchmark worker on its call: the router returned no
    error and the decision expected. *)
Definition passes (svc : Service) (testCase : benchmark.TestCase.t) : bool :=
  let o := CheckPermission svc (benchmark.permReq testCase) in
  match failure o, response o with
  | None, Some resp =>
      Bool.eqb (HasPermission resp) (benchmark.TestCase.ExpectedResult testCase)
  | _, _ => false
  end.

(** The other verdict: the router returned an error, or a decision that is
    not the one expected. *)
Definition misses (svc : Service) (testCase : benchmark.TestCase.t) : bool :=
  let o := CheckPermission svc (benchmark.permReq testCase) in
  match failure o, response o with
  | Some _, _ => true
  | None, Some resp =>
      negb (Bool.eqb (HasPermission resp) (benchmark.TestCase.ExpectedResult testCase))
  | None, None => false
  end.

(** The workers that have finished and whose index has the property
    [verdict]; [k] is the index of the first worker of [ps]. *)
Fixpoint finished_with (verdict : nat -> bool) (k : nat) (ps : list server.phase)
    : nat :=
  match ps with
  | [] => 0
  | p :: ps' =>
      (if bool_decide (p = server.Finished) && verdict k then 1 else 0)
      + finished_with verdict (S k) ps'
  end.

(** What holds of the memory of a benchmark at every point of every
    execution. *)
Record benchmark_invariant (svc : nat -> Service) (testCase : benchmark.TestCase.t)
    (elapsed : nat -> Z) (n : nat) (st : benchmark.pool) : Prop := {
  bench_phases : length (benchmark.phases st) = n;
  bench_times : length (benchmark.times st) = n;
  bench_slots : forall i,
    benchmark.phases st !! i = Some server.Finished ->
    benchmark.times st !! i = Some (float64 (elapsed i));
  bench_success :
    benchmark.successCount st
    = Z.of_nat (finished_with (fun idx => passes (svc idx) testCase) 0
                  (benchmark.phases st));
  bench_failed :
    benchmark.failedCount st
    = Z.of_nat (finished_with (fun idx => misses (svc idx) testCase) 0
                  (benchmark.phases st))
}.

(** The calls of a benchmark case that pass, and those that miss. *)
Definition passing (svc : nat -> Service) (testCase : benchmark.TestCase.t)
    (n : nat) : list nat :=
  List.filter (fun idx => passes (svc idx) testCase) (seq 0 n).

Definition missing (svc : nat -> Service) (testCase : benchmark.TestCase.t)
    (n : nat) : list nat :=
  List.filter (fun idx => misses (svc idx) testCase) (seq 0 n).

(** A service over the clients of the repository: each field is nil, or
    holds the client of its package with a connection (for Neo4j a client
    with a driver, not a nil pointer to a client). *)
Definition over_the_clients (s : Service) : Prop :=
  (Spice s = None
   \/ exists (Struct : Type) NewStruct remote,
        Spice s = Some (spicedb.CheckPermission Struct NewStruct remote))
  /\ (Neo4j s = None
      \/ exists Run clock ParseFloat responseTime,
           Neo4j s = Some (neo4j.CheckPermission Run clock ParseFloat responseTime))
  /\ (GraphQL s = None
      \/ exists ParseFloat post range responseTime,
           GraphQL s = Some (graphql.CheckPermission ParseFloat post range responseTime)).

(** ** Further samples *)

(** The schedule of three workers that complete in the order 2, 0, 1. *)
Definition sample_schedule : list server.event :=
  [server.Acquire 2; server.Acquire 0; server.Complete 2; server.Acquire 1;
   server.Complete 0; server.Complete 1].

(** A service without any backend, and a batch of requests for single
    backends. *)
Definition bare_service : Service := NewService None None None.

Definition single_batch : BulkPermissionRequest :=
  {| Requests := [hinted "spicedb"; hinted "neo4j"; unhinted];
     MaxConcurrency := 0 |}.

(** A stream on which every send succeeds. *)
Definition sample_Send : nat -> option PermissionResponse -> error :=
  fun _ _ => None.

(** A service that answers every third call without any backend, and a
    service whose GraphQL client returns neither a response nor an error. *)
Definition flaky_service (idx : nat) : Service :=
  if (idx mod 3 =? 2)%nat then bare_service else sample_service.

Definition silent_service : Service :=
  NewService None None (Some (fun _ => (None, None))).

(** Two benchmark cases and a benchmark of ten iterations under a ceiling of
    two. *)
Definition sample_case : benchmark.TestCase.t :=
  {| benchmark.TestCase.Name := "download through GraphQL";
     benchmark.TestCase.Actor := "david";
     benchmark.TestCase.Resource := "acc123";
     benchmark.TestCase.Permission := "can_download_statement";
     benchmark.TestCase.Context := {[ "implementation" := "graphql" ]};
     benchmark.TestCase.ExpectedResult := true |}.

Definition failing_case : benchmark.TestCase.t :=
  {| benchmark.TestCase.Name := "download through SpiceDB";
     benchmark.TestCase.Actor := "david";
     benchmark.TestCase.Resource := "acc123";
     benchmark.TestCase.Permission := "can_download_statement";
     benchmark.TestCase.Context := ∅;
     benchmark.TestCase.ExpectedResult := true |}.

Definition sample_benchmark : benchmark.BenchmarkRequest.t :=
  {| benchmark.BenchmarkRequest.TestCases := [sample_case; failing_case];
     benchmark.BenchmarkRequest.Iterations := 10;
     benchmark.BenchmarkRequest.Concurrency := 2;
     benchmark.BenchmarkRequest.ImplementationTag :=
       Implementation_IMPLEMENTATION_GRAPHQL |}.

(** A SpiceDB that answers CONDITIONAL_PERMISSION to every request, behind
    the client of the service. *)
Definition conditional_spicedb : SpiceDBClient :=
  spicedb.CheckPermission (gmap string string) inl (fun _ => inl 3%Z).

(** A Neo4j that cannot be reached, behind the client of the service, and a
    request for a permission the client has no query for, under the hint
    "both". *)
Definition unreachable_neo4j : Neo4jClient :=
  neo4j.CheckPermission (fun _ _ => neo4j.RunError "connection refused")
    "2024-06-01T12:00:00" (fun _ => None) 5.

Definition view_request : PermissionRequest :=
  {| Actor := "david"; Resource := "acc123"; Permission := "view";
     Context := {[ "implementation" := "both" ]} |}.

(** A GraphQL server that answers [true] to every query, behind the client
    of the service, the entries of a map visited in the order of
    [map_to_list]; and a batch of two requests for it. *)
Definition granting_graphql : GraphQLClient :=
  graphql.CheckPermission (fun _ => None)
    (fun _ _ =>
       graphql.Decoded
         {| graphql.Data := {[ "canAccess" := graphql.Bool true ]};
            graphql.Errors := [] |})
    map_to_list 5.

(** The data of an answer with two booleans and a value that is none, the
    entries of which [map_to_list] and its reverse visit in different
    orders. *)
Definition sample_data : gmap string graphql.value :=
  {[ "canAccess" := graphql.Bool true;
     "canViewTransactions" := graphql.Bool true;
     "extensions" := graphql.Other ]}.

(** The services of the calls of a benchmark case: the even calls meet a
    SpiceDB and a GraphQL client, the odd calls a SpiceDB client and a Neo4j
    client whose server cannot be reached. *)
Definition sample_clients (idx : nat) : Service :=
  if Nat.even idx
  then NewService (Some conditional_spicedb) None (Some granting_graphql)
  else NewService (Some conditional_spicedb) (Some unreachable_neo4j) None.

Definition graphql_batch : BulkPermissionRequest :=
  {| Requests := [hinted "graphql"; hinted "graphql"]; MaxConcurrency := 0 |}.

(** * Properties *)

(** ** Strings *)

Lemma prefix_append (a b : string) : String.prefix a (a +:+ b) = true.
Proof.
  induction a as [|x a IH]; simpl.
  - by destruct b.
  - rewrite IH. by destruct (Ascii.ascii_dec x x).
Qed.

Lemma contains_here (a b : string) : contains a (a +:+ b) = true.
Proof.
  assert (Hc : forall t, String.prefix a t = true -> contains a t = true).
  { intros t Ht. destruct t; cbn [contains]; by rewrite Ht. }
  apply Hc, prefix_append.
Qed.

Lemma contains_itself (a : string) : contains a a = true.
Proof.
  assert (Ha : a +:+ "" = a).
  { induction a as [|x a IH]; [done|]. change (String x (a +:+ "") = String x a). by rewrite IH. }
  rewrite <- Ha at 2. apply contains_here.
Qed.

Lemma contains_later (sub a b : string) :
  contains sub b = true -> contains sub (a +:+ b) = true.
Proof.
  intros Hb. induction a as [|x a IH]; simpl; [done|].
  rewrite IH. apply orb_true_r.
Qed.

Lemma contains_middle (a x b : string) : contains x (a +:+ x +:+ b) = true.
Proof. apply contains_later, contains_here. Qed.

(** ** Router *)

Section Router.

Variable s : Service.
Variable req : PermissionRequest.

Lemma implementation_cases :
  implementation req = Implementation_IMPLEMENTATION_SPICEDB
  \/ implementation req = Implementation_IMPLEMENTATION_NEO4J
  \/ implementation req = Implementation_IMPLEMENTATION_GRAPHQL
  \/ implementation req = Implementation_IMPLEMENTATION_BOTH.
Proof.
  unfold implementation.
  destruct (Context req !! "implementation") as [v|]; [|by left].
  repeat (case_match; [tauto|]). by left.
Qed.

Lemma implementation_unrecognized (v : string) :
  Context req !! "implementation" = Some v ->
  v <> "spicedb" /\ v <> "neo4j" /\ v <> "graphql" /\ v <> "both" ->
  implementation req = Implementation_IMPLEMENTATION_SPICEDB.
Proof.
  intros Hv (H1 & H2 & H3 & H4). unfold implementation. rewrite Hv.
  repeat (case_match; [done || (exfalso;
    match goal with H : String.eqb _ _ = true |- _ => apply String.eqb_eq in H end;
    done)|]).
  done.
Qed.

(** The case of the switch a request with a single-backend hint takes. *)
Lemma CheckPermission_single client :
  selected s req = Some client ->
  exists hint,
    CheckPermission s req = dispatch client (implementation req) hint req
    /\ contains "not available" hint = true
    /\ contains (backend_name (implementation req) +:+ " backend not available") hint = true
    /\ contains "please ensure" hint = true
    /\ contains "is running on localhost:" hint = true.
Proof.
  unfold selected, CheckPermission.
  destruct (implementation req) eqn:E; intros [= <-];
    try (eexists; split; [reflexivity|by vm_compute]).
  destruct implementation_cases as [H|[H|[H|H]]]; congruence.
Qed.

End Router.

(** ** Comparator *)

Lemma probe_fails client unavailable req e :
  fails client unavailable req e ->
  exists r, probe client unavailable req = (r, Some e).
Proof. intros [->|c r e' -> Hc]; simpl; eauto. Qed.

Lemma probe_succeeds client unavailable req r :
  succeeds client req r -> probe client unavailable req = (Some r, None).
Proof. by intros [c r' -> Hc]. Qed.

(** ** The claims on the router *)

(** C1, as the specification states it, does not hold: a request routed to a
    configured Neo4j client whose call returns an error gets that error back
    from the router, with a nil response. *)
Lemma C1_router_surfaces_evaluator_error :
  let s := NewService None (Some unsupported) None in
  let req := hinted "neo4j" in
  selected s req = Some (Some unsupported)
  /\ unsupported req = (None, Some "unsupported permission: can_download_statement")
  /\ ~ (exists resp,
          response (CheckPermission s req) = Some resp
          /\ HasPermission resp = false
          /\ ErrorMessage resp = "unsupported permission: can_download_statement"
          /\ failure (CheckPermission s req) = None).
Proof.
  repeat split; try by vm_compute.
  intros (resp & Hresp & _). by vm_compute in Hresp.
Qed.

(** C1, amended: when the client selected by the hint returns an error, the
    router returns the client's response and error as they are (the error
    reaches the router's caller); the worker of the batch executor is where
    the error becomes a response with decision false and the error text as
    its message. *)
Theorem C1_router_passes_evaluator_error_on s req c r e :
  selected s req = Some (Some c) ->
  c req = (r, Some e) ->
  CheckPermission s req = returns r (Some e) []
  /\ server.slot (CheckPermission s req)
     = Some (diagnostic Implementation_IMPLEMENTATION_UNSPECIFIED e)
  /\ HasPermission (diagnostic Implementation_IMPLEMENTATION_UNSPECIFIED e) = false
  /\ ErrorMessage (diagnostic Implementation_IMPLEMENTATION_UNSPECIFIED e) = e.
Proof.
  intros Hsel Hc.
  destruct (CheckPermission_single s req _ Hsel) as (hint & -> & _).
  unfold dispatch, server.slot. rewrite Hc. done.
Qed.

Lemma C1_router_passes_evaluator_error_on_witness :
  CheckPermission (NewService None (Some unsupported) None) (hinted "neo4j")
  = returns None (Some "unsupported permission: can_download_statement") []
  /\ server.slot (CheckPermission (NewService None (Some unsupported) None) (hinted "neo4j"))
     = Some (diagnostic Implementation_IMPLEMENTATION_UNSPECIFIED
               "unsupported permission: can_download_statement")
  /\ HasPermission (diagnostic Implementation_IMPLEMENTATION_UNSPECIFIED
               "unsupported permission: can_download_statement") = false
  /\ ErrorMessage (diagnostic Implementation_IMPLEMENTATION_UNSPECIFIED
               "unsupported permission: can_download_statement")
     = "unsupported permission: can_download_statement".
Proof.
  apply (C1_router_passes_evaluator_error_on
           (NewService None (Some unsupported) None) (hinted "neo4j") unsupported None);
    reflexivity.
Defined.

(** C7: a request whose hint names a single backend that was not configured
    gets, with no error, a synthesized response: decision false, the tag of
    the requested backend, and a message that names the backend, says it is
    not available and says what to start to provide it. *)
Theorem C7_unconfigured_backend_is_reported s req :
  selected s req = Some None ->
  exists resp,
    CheckPermission s req = returns (Some resp) None []
    /\ HasPermission resp = false
    /\ ImplementationTag resp = implementation req
    /\ contains "not available" (ErrorMessage resp) = true
    /\ contains (backend_name (implementation req) +:+ " backend not available")
         (ErrorMessage resp) = true
    /\ contains "please ensure" (ErrorMessage resp) = true
    /\ contains "is running on localhost:" (ErrorMessage resp) = true.
Proof.
  intros Hsel.
  destruct (CheckPermission_single s req _ Hsel) as (hint & -> & H0 & H1 & H2 & H3).
  by exists (diagnostic (implementation req) hint).
Qed.

Lemma C7_unconfigured_backend_is_reported_witness :
  exists resp,
    CheckPermission (NewService (Some (grants Implementation_IMPLEMENTATION_SPICEDB)) None None)
      (hinted "graphql") = returns (Some resp) None []
    /\ HasPermission resp = false
    /\ ImplementationTag resp = implementation (hinted "graphql")
    /\ contains "not available" (ErrorMessage resp) = true
    /\ contains (backend_name (implementation (hinted "graphql")) +:+ " backend not available")
         (ErrorMessage resp) = true
    /\ contains "please ensure" (ErrorMessage resp) = true
    /\ contains "is running on localhost:" (ErrorMessage resp) = true.
Proof.
  apply (C7_unconfigured_backend_is_reported
           (NewService (Some (grants Implementation_IMPLEMENTATION_SPICEDB)) None None)
           (hinted "graphql")).
  reflexivity.
Defined.

(** C8: when the context has no ["implementation"] key, or has one whose
    value is none of the four selector strings, the request takes the SpiceDB
    case of the switch; and two requests with the same value under that key
    are given the same backend selection, whatever else they hold. *)
Theorem C8_absent_or_unrecognized_hint_defaults_to_spicedb s req :
  (Context req !! "implementation" = None
   \/ exists v, Context req !! "implementation" = Some v
                /\ v <> "spicedb" /\ v <> "neo4j" /\ v <> "graphql" /\ v <> "both") ->
  implementation req = Implementation_IMPLEMENTATION_SPICEDB
  /\ selected s req = Some (Spice s)
  /\ CheckPermission s req
     = dispatch (Spice s) Implementation_IMPLEMENTATION_SPICEDB
         "SpiceDB backend not available - please ensure SpiceDB is running on localhost:50051"
         req
  /\ forall s' req',
       Context req' !! "implementation" = Context req !! "implementation" ->
       implementation req' = implementation req
       /\ selected s' req' = Some (Spice s').
Proof.
  intros Hhint.
  assert (Himpl : implementation req = Implementation_IMPLEMENTATION_SPICEDB).
  { destruct Hhint as [Hnone|(v & Hv & Hnot)].
    - unfold implementation. by rewrite Hnone.
    - by eapply implementation_unrecognized. }
  split; [done|]. unfold selected, CheckPermission. rewrite Himpl.
  repeat split; try done.
  - unfold implementation. by rewrite H.
  - assert (implementation req' = implementation req) as ->
        by (unfold implementation; by rewrite H).
    by rewrite Himpl.
Qed.

Lemma C8_absent_or_unrecognized_hint_defaults_to_spicedb_witness :
  implementation (hinted "SpiceDB") = Implementation_IMPLEMENTATION_SPICEDB
  /\ implementation unhinted = Implementation_IMPLEMENTATION_SPICEDB.
Proof.
  split.
  - refine (proj1 (C8_absent_or_unrecognized_hint_defaults_to_spicedb
                     (NewService None None None) (hinted "SpiceDB") _)).
    right. exists "SpiceDB". repeat split; discriminate.
  - refine (proj1 (C8_absent_or_unrecognized_hint_defaults_to_spicedb
                     (NewService None None None) unhinted _)).
    left. reflexivity.
Defined.

(** The first three scenarios of the specification: SpiceDB alone is
    configured and grants. *)
Example scenario_default_backend :
  CheckPermission (NewService (Some (grants Implementation_IMPLEMENTATION_SPICEDB)) None None)
    unhinted
  = returns (Some (granted Implementation_IMPLEMENTATION_SPICEDB)) None [].
Proof. reflexivity. Qed.

Example scenario_unconfigured_backend :
  CheckPermission (NewService (Some (grants Implementation_IMPLEMENTATION_SPICEDB)) None None)
    (hinted "graphql")
  = returns
      (Some (diagnostic Implementation_IMPLEMENTATION_GRAPHQL
               "GraphQL backend not available - please ensure GraphQL is running on localhost:4000"))
      None [].
Proof. reflexivity. Qed.

Example scenario_both_with_one_backend :
  CheckPermission (NewService (Some (grants Implementation_IMPLEMENTATION_SPICEDB)) None None)
    (hinted "both")
  = returns
      (Some {| HasPermission := true; Permissionship := 2;
               ImplementationTag := Implementation_IMPLEMENTATION_BOTH;
               ResponseTimeMs := float64_zero;
               ErrorMessage := "Neo4j unavailable, using SpiceDB only: " |})
      None
      ["Neo4j error (using SpiceDB only): Neo4j backend not available" +:+ newline].
Proof. reflexivity. Qed.

(** ** The claims on the comparator *)

(** C3: when exactly one of the two evaluations of the dual check fails and
    the other succeeds with a response [r], the comparator returns, with no
    error, a response whose tag is BOTH, whose message is a note that names
    the failing side as unavailable and the other as the only one used,
    followed by the message [r] had, and whose decision, permissionship and
    response time are those of [r]. *)
Theorem C3_one_side_failed_other_side_used s req r e :
  (fails (Spice s) "SpiceDB backend not available" req e /\ succeeds (Neo4j s) req r
   \/ fails (Neo4j s) "Neo4j backend not available" req e /\ succeeds (Spice s) req r) ->
  exists skipped used resp,
    (skipped = "SpiceDB" /\ used = "Neo4j" /\ succeeds (Neo4j s) req r
     \/ skipped = "Neo4j" /\ used = "SpiceDB" /\ succeeds (Spice s) req r)
    /\ response (checkBothImplementations s req) = Some resp
    /\ failure (checkBothImplementations s req) = None
    /\ ImplementationTag resp = Implementation_IMPLEMENTATION_BOTH
    /\ ErrorMessage resp
       = skipped +:+ " unavailable, using " +:+ used +:+ " only: " +:+ ErrorMessage r
    /\ HasPermission resp = HasPermission r
    /\ Permissionship resp = Permissionship r
    /\ ResponseTimeMs resp = ResponseTimeMs r.
Proof.
  intros [[Hf Hs]|[Hf Hs]].
  - exists "SpiceDB", "Neo4j".
    destruct (probe_fails _ _ _ _ Hf) as [r' Hp].
    unfold checkBothImplementations.
    rewrite Hp, (probe_succeeds _ "Neo4j backend not available" _ _ Hs).
    eexists. split; [by left|]. split; [reflexivity|]. by repeat split.
  - exists "Neo4j", "SpiceDB".
    destruct (probe_fails _ _ _ _ Hf) as [r' Hp].
    unfold checkBothImplementations.
    rewrite Hp, (probe_succeeds _ "SpiceDB backend not available" _ _ Hs).
    eexists. split; [by right|]. split; [reflexivity|]. by repeat split.
Qed.

Lemma C3_one_side_failed_other_side_used_witness :
  exists skipped used resp,
    (skipped = "SpiceDB" /\ used = "Neo4j"
     /\ succeeds (Neo4j (NewService (Some unsupported)
                           (Some (grants Implementation_IMPLEMENTATION_NEO4J)) None))
          (hinted "both") (granted Implementation_IMPLEMENTATION_NEO4J)
     \/ skipped = "Neo4j" /\ used = "SpiceDB"
     /\ succeeds (Spice (NewService (Some unsupported)
                           (Some (grants Implementation_IMPLEMENTATION_NEO4J)) None))
          (hinted "both") (granted Implementation_IMPLEMENTATION_NEO4J))
    /\ response (checkBothImplementations
         (NewService (Some unsupported)
            (Some (grants Implementation_IMPLEMENTATION_NEO4J)) None)
         (hinted "both")) = Some resp
    /\ failure (checkBothImplementations
         (NewService (Some unsupported)
            (Some (grants Implementation_IMPLEMENTATION_NEO4J)) None)
         (hinted "both")) = None
    /\ ImplementationTag resp = Implementation_IMPLEMENTATION_BOTH
    /\ ErrorMessage resp
       = skipped +:+ " unavailable, using " +:+ used +:+ " only: "
         +:+ ErrorMessage (granted Implementation_IMPLEMENTATION_NEO4J)
    /\ HasPermission resp = HasPermission (granted Implementation_IMPLEMENTATION_NEO4J)
    /\ Permissionship resp = Permissionship (granted Implementation_IMPLEMENTATION_NEO4J)
    /\ ResponseTimeMs resp = ResponseTimeMs (granted Implementation_IMPLEMENTATION_NEO4J).
Proof.
  apply (C3_one_side_failed_other_side_used
           (NewService (Some unsupported)
              (Some (grants Implementation_IMPLEMENTATION_NEO4J)) None)
           (hinted "both") (granted Implementation_IMPLEMENTATION_NEO4J)
           "unsupported permission: can_download_statement").
  left. split.
  - apply (fails_raised _ _ _ unsupported None); reflexivity.
  - apply (succeeds_with _ _ (grants Implementation_IMPLEMENTATION_NEO4J)); reflexivity.
Defined.

(** C5: when both evaluations of the dual check succeed, the comparator
    returns, with no error, the SpiceDB response with its tag set to BOTH and
    its other four fields as they were, whether the two decisions agree or
    not; the decisions only choose the line that is printed. *)
Theorem C5_both_succeeded_primary_returned s req sr nr :
  succeeds (Spice s) req sr ->
  succeeds (Neo4j s) req nr ->
  exists resp line,
    checkBothImplementations s req = returns (Some resp) None [line]
    /\ resp = set_Implementation Implementation_IMPLEMENTATION_BOTH sr
    /\ ImplementationTag resp = Implementation_IMPLEMENTATION_BOTH
    /\ HasPermission resp = HasPermission sr
    /\ Permissionship resp = Permissionship sr
    /\ ResponseTimeMs resp = ResponseTimeMs sr
    /\ ErrorMessage resp = ErrorMessage sr
    /\ (HasPermission sr <> HasPermission nr -> String.prefix "MISMATCH: " line = true)
    /\ (HasPermission sr = HasPermission nr -> String.prefix "MATCH: " line = true).
Proof.
  intros Hs Hn. unfold checkBothImplementations.
  rewrite (probe_succeeds _ "SpiceDB backend not available" _ _ Hs),
    (probe_succeeds _ "Neo4j backend not available" _ _ Hn).
  eexists _, _. split; [reflexivity|]. simpl.
  repeat split; try done; destruct (HasPermission sr), (HasPermission nr); done.
Qed.

Lemma C5_both_succeeded_primary_returned_witness :
  exists resp line,
    checkBothImplementations
      (NewService (Some (grants Implementation_IMPLEMENTATION_SPICEDB))
                  (Some (denies Implementation_IMPLEMENTATION_NEO4J)) None)
      (hinted "both") = returns (Some resp) None [line]
    /\ resp = set_Implementation Implementation_IMPLEMENTATION_BOTH
                (granted Implementation_IMPLEMENTATION_SPICEDB)
    /\ ImplementationTag resp = Implementation_IMPLEMENTATION_BOTH
    /\ HasPermission resp = HasPermission (granted Implementation_IMPLEMENTATION_SPICEDB)
    /\ Permissionship resp = Permissionship (granted Implementation_IMPLEMENTATION_SPICEDB)
    /\ ResponseTimeMs resp = ResponseTimeMs (granted Implementation_IMPLEMENTATION_SPICEDB)
    /\ ErrorMessage resp = ErrorMessage (granted Implementation_IMPLEMENTATION_SPICEDB)
    /\ (HasPermission (granted Implementation_IMPLEMENTATION_SPICEDB)
        <> HasPermission (denied Implementation_IMPLEMENTATION_NEO4J) ->
        String.prefix "MISMATCH: " line = true)
    /\ (HasPermission (granted Implementation_IMPLEMENTATION_SPICEDB)
        = HasPermission (denied Implementation_IMPLEMENTATION_NEO4J) ->
        String.prefix "MATCH: " line = true).
Proof.
  apply (C5_both_succeeded_primary_returned
           (NewService (Some (grants Implementation_IMPLEMENTATION_SPICEDB))
                       (Some (denies Implementation_IMPLEMENTATION_NEO4J)) None)
           (hinted "both")).
  - apply (succeeds_with _ _ (grants Implementation_IMPLEMENTATION_SPICEDB)); reflexivity.
  - apply (succeeds_with _ _ (denies Implementation_IMPLEMENTATION_NEO4J)); reflexivity.
Defined.

(** C6: when both evaluations of the dual check fail, each because its client
    is not configured or because its call returned an error, the comparator
    returns, with no error, a response with decision false, the tag BOTH and
    a message in which both failure texts stand. *)
Theorem C6_both_failed_combined_diagnostic s req se ne :
  fails (Spice s) "SpiceDB backend not available" req se ->
  fails (Neo4j s) "Neo4j backend not available" req ne ->
  exists resp,
    checkBothImplementations s req = returns (Some resp) None []
    /\ HasPermission resp = false
    /\ ImplementationTag resp = Implementation_IMPLEMENTATION_BOTH
    /\ ErrorMessage resp
       = "Both backends unavailable - SpiceDB: " +:+ se +:+ ", Neo4j: " +:+ ne
    /\ contains se (ErrorMessage resp) = true
    /\ contains ne (ErrorMessage resp) = true.
Proof.
  intros Hs Hn.
  destruct (probe_fails _ _ _ _ Hs) as [rs Hps].
  destruct (probe_fails _ _ _ _ Hn) as [rn Hpn].
  unfold checkBothImplementations. rewrite Hps, Hpn.
  eexists. split; [reflexivity|]. cbn [diagnostic HasPermission ImplementationTag ErrorMessage].
  repeat split.
  - apply contains_middle.
  - apply contains_later, contains_later, contains_later.
    apply contains_itself.
Qed.

Lemma C6_both_failed_combined_diagnostic_witness :
  exists resp,
    checkBothImplementations (NewService None (Some unsupported) None) (hinted "both")
    = returns (Some resp) None []
    /\ HasPermission resp = false
    /\ ImplementationTag resp = Implementation_IMPLEMENTATION_BOTH
    /\ ErrorMessage resp
       = "Both backends unavailable - SpiceDB: " +:+ "SpiceDB backend not available"
         +:+ ", Neo4j: " +:+ "unsupported permission: can_download_statement"
    /\ contains "SpiceDB backend not available" (ErrorMessage resp) = true
    /\ contains "unsupported permission: can_download_statement" (ErrorMessage resp) = true.
Proof.
  apply (C6_both_failed_combined_diagnostic
           (NewService None (Some unsupported) None) (hinted "both")).
  - apply fails_unconfigured. reflexivity.
  - apply (fails_raised _ _ _ unsupported None); reflexivity.
Defined.




(** ** Batch executor *)

Section Batch.

Import server.

Variable svc : Service.
Variable requests : list PermissionRequest.
Variable maxConcurrency : Z.

Lemma finished_le ps : finished ps <= length ps.
Proof. apply length_filter. Qed.

Lemma finished_insert ps i p :
  ps !! i = Some p -> p <> Finished ->
  finished (<[i := Finished]> ps) = S (finished ps).
Proof.
  unfold finished. revert i. induction ps as [|q ps IH]; intros [|i] Hi Hp;
    simpl in *; try done.
  - injection Hi as ->. rewrite !filter_cons. repeat case_decide; simpl; congruence.
  - rewrite !filter_cons. case_decide; simpl; by rewrite IH.
Qed.

Lemma finished_insert_in_flight ps i :
  ps !! i = Some Blocked ->
  finished (<[i := InFlight]> ps) = finished ps.
Proof.
  unfold finished. revert i. induction ps as [|q ps IH]; intros [|i] Hi;
    simpl in *; try done.
  - injection Hi as ->. rewrite !filter_cons. repeat case_decide; simpl; congruence.
  - rewrite !filter_cons. case_decide; simpl; by rewrite IH.
Qed.

Lemma finished_lt ps i p :
  ps !! i = Some p -> p <> Finished -> finished ps < length ps.
Proof.
  intros Hi Hp. pose proof (finished_insert ps i p Hi Hp) as H.
  pose proof (finished_le (<[i := Finished]> ps)) as H'.
  rewrite length_insert in H'. lia.
Qed.

Lemma all_finished ps :
  Forall (fun p => p = Finished) ps -> finished ps = length ps.
Proof.
  unfold finished. induction 1 as [|p ps Hp _ IH]; [done|].
  rewrite filter_cons. case_decide; [|done]. simpl. by rewrite IH.
Qed.

Lemma int32_small z : (0 <= z <= max_int32)%Z -> int32 z = z.
Proof.
  unfold int32, max_int32. intros Hz.
  rewrite Z.mod_small; lia.
Qed.

Lemma invariant_start : invariant svc requests (start (length requests)).
Proof.
  split; simpl; rewrite ?length_replicate; try done.
  - intros i request Hi. apply lookup_replicate in Hi as [? _]. done.
  - unfold finished. induction (length requests) as [|n IH]; [done|].
    simpl. rewrite filter_cons. by case_decide.
Qed.

Lemma invariant_step ev st st' :
  (Z.of_nat (length requests) <= max_int32)%Z ->
  invariant svc requests st ->
  step svc requests maxConcurrency ev st = Some st' ->
  invariant svc requests st'.
Proof.
  intros Hmax [Hp Hr Hs H0 H1 Hc] Hstep. destruct ev as [idx|idx]; simpl in Hstep.
  - destruct (phases st !! idx) as [[]|] eqn:Hidx; try done.
    case_bool_decide; [|done]. simplify_eq. split; simpl; try done.
    + by rewrite length_insert.
    + intros i request Hi Hreq. apply Hs; [|done].
      destruct (decide (i = idx)) as [->|Hne].
      * rewrite list_lookup_insert_eq in Hi; [done|]. by eapply lookup_lt_Some.
      * by rewrite list_lookup_insert_ne in Hi.
    + by rewrite finished_insert_in_flight.
  - destruct (phases st !! idx) as [[]|] eqn:Hidx; try done.
    destruct (requests !! idx) as [request|] eqn:Hreq; [|done].
    pose proof (finished_lt _ _ _ Hidx ltac:(done)) as Hlt.
    simplify_eq. split; simpl.
    + by rewrite length_insert.
    + by rewrite length_insert.
    + intros i request' Hi Hreq'.
      destruct (decide (i = idx)) as [->|Hne].
      * simplify_eq. rewrite list_lookup_insert_eq; [done|].
        rewrite Hr. by eapply lookup_lt_Some.
      * rewrite list_lookup_insert_ne by done.
        rewrite list_lookup_insert_ne in Hi by done. by apply Hs.
    + destruct (failure _); [done|]. rewrite int32_small; lia.
    + destruct (failure _); [|done]. rewrite int32_small; lia.
    + rewrite (finished_insert _ _ _ Hidx) by done.
      destruct (failure _); rewrite int32_small; lia.
Qed.

Lemma invariant_run schedule st st' :
  (Z.of_nat (length requests) <= max_int32)%Z ->
  invariant svc requests st ->
  run svc requests maxConcurrency schedule st = Some st' ->
  invariant svc requests st'.
Proof.
  intros Hmax. revert st. induction schedule as [|ev schedule IH]; intros st Hinv Hrun;
    simpl in Hrun; [by simplify_eq|].
  destruct (step svc requests maxConcurrency ev st) as [st1|] eqn:Hstep; [|done].
  eapply IH; [|done]. by eapply invariant_step.
Qed.

(** At the join every slot holds the answer to the request of its index,
    and the counters add up to the number of requests. *)
Lemma invariant_joined st :
  invariant svc requests st -> joined st = true ->
  responses st = map (fun request => slot (CheckPermission svc request)) requests
  /\ (successCount st + errorCount st)%Z = Z.of_nat (length requests).
Proof.
  intros [Hp Hr Hs H0 H1 Hc] Hj. apply bool_decide_eq_true in Hj. split.
  - apply list_eq. intros i. rewrite list_lookup_fmap.
    destruct (requests !! i) as [request|] eqn:Hreq; simpl.
    + apply Hs; [|done].
      destruct (lookup_lt_is_Some_2 (phases st) i) as [p Hi].
      { rewrite Hp. by eapply lookup_lt_Some. }
      rewrite Hi. f_equal. by eapply (Forall_lookup_1 _ _ _ _ Hj).
    + apply lookup_ge_None. rewrite Hr. by apply lookup_ge_None.
  - rewrite Hc, (all_finished _ Hj). by rewrite Hp.
Qed.

Lemma in_flight_none k m :
  in_flight (replicate k Finished ++ replicate m Blocked) = 0.
Proof.
  unfold in_flight. rewrite filter_app, length_app.
  assert (H : forall n p, p <> InFlight ->
             length (filter (fun q => q = InFlight) (replicate n p)) = 0).
  { intros n p Hp. induction n as [|n IH]; [done|]. simpl.
    rewrite filter_cons. by case_decide. }
  by rewrite !H.
Qed.


End Batch.



(** Three requests under a ceiling of two: the workers complete in the order
    2, 0, 1, and the responses stand in the order of the requests. *)
Example bulk_out_of_order_completion :
  server.CheckBulkPermissions sample_service sample_batch
    [server.Acquire 2; server.Acquire 0; server.Complete 2; server.Acquire 1;
     server.Complete 0; server.Complete 1] 7
  = Some {| Responses :=
              [ Some (diagnostic Implementation_IMPLEMENTATION_UNSPECIFIED
                        "unsupported permission: can_download_statement");
                Some (granted Implementation_IMPLEMENTATION_GRAPHQL);
                Some (set_ErrorMessage "SpiceDB unavailable, using Neo4j only: "
                        (set_Implementation Implementation_IMPLEMENTATION_BOTH
                           (granted Implementation_IMPLEMENTATION_NEO4J))) ];
            TotalTimeMs := float64 7;
            SuccessCount := 2;
            ErrorCount := 1 |}.
Proof. reflexivity. Qed.

(** A third admission is refused while two workers hold the two places. *)
Example bulk_ceiling_blocks_third_worker :
  server.CheckBulkPermissions sample_service sample_batch
    [server.Acquire 2; server.Acquire 0; server.Acquire 1] 7 = None.
Proof. reflexivity. Qed.

(** * Benchmark statistics *)

Local Open Scope Z_scope.

Import server.

(** ** Binary64 arithmetic *)

Lemma digits2_pos_bounds (m : positive) :
  2 ^ (Z.pos (digits2_pos m) - 1) <= Z.pos m < 2 ^ Z.pos (digits2_pos m).
Proof.
  induction m as [m IH|m IH|]; simpl digits2_pos; [| |simpl; lia].
  all: rewrite Pos2Z.inj_succ, <- Z.add_1_r, Z.add_simpl_r.
  all: rewrite Z.pow_add_r by lia.
  all: replace (2 ^ Z.pos (digits2_pos m))
         with (2 * 2 ^ (Z.pos (digits2_pos m) - 1)) in *
         by (rewrite <- Z.pow_succ_r by lia; f_equal; lia).
  all: lia.
Qed.

Lemma digits2_pos_unique (m : positive) (d : Z) :
  2 ^ (d - 1) <= Z.pos m < 2 ^ d -> Z.pos (digits2_pos m) = d.
Proof.
  intros [Hlo Hhi]. pose proof (digits2_pos_bounds m) as [Hlo' Hhi'].
  assert (0 < d).
  { destruct (Z.ltb_spec 0 d); [done|]. 
    destruct (Z.eq_dec d 0) as [->|]; [simpl in Hhi; lia|].
    rewrite Z.pow_neg_r in Hhi by lia. lia. }
  destruct (Z.lt_trichotomy (Z.pos (digits2_pos m)) d) as [Hlt|[Heq|Hgt]]; [|done|].
  - assert (2 ^ Z.pos (digits2_pos m) <= 2 ^ (d - 1)) by (apply Z.pow_le_mono_r; lia). lia.
  - assert (2 ^ d <= 2 ^ (Z.pos (digits2_pos m) - 1)) by (apply Z.pow_le_mono_r; lia). lia.
Qed.

Lemma shr_1_spec (m : Z) (r s : bool) :
  0 <= m ->
  shr_1 {| shr_m := m; shr_r := r; shr_s := s |}
  = {| shr_m := m / 2; shr_r := Z.odd m; shr_s := r || s |}.
Proof.
  intros Hm. rewrite <- Z.div2_div.
  destruct m as [|[p|p|]|]; try done. 
Qed.

Lemma iter_pos_iter {A : Type} (f : A -> A) (n : positive) (x : A) :
  SpecFloat.iter_pos f n x = Pos.iter f x n.
Proof.
  revert x. induction n as [n IH|n IH|]; intros x; simpl; [|by rewrite !IH|done].
  rewrite !IH. by rewrite <- !Pos.iter_swap.
Qed.

(** [n] halvings keep the quotient by [2 ^ n], its lowest discarded bit and
    whether anything was discarded below that bit. *)
Lemma iter_shr_1_spec (m : Z) (n : positive) :
  0 <= m ->
  SpecFloat.iter_pos shr_1 n {| shr_m := m; shr_r := false; shr_s := false |}
  = {| shr_m := m / 2 ^ Z.pos n;
       shr_r := Z.odd (m / 2 ^ (Z.pos n - 1));
       shr_s := negb (m mod 2 ^ (Z.pos n - 1) =? 0) |}.
Proof.
  intros Hm. rewrite iter_pos_iter.
  induction n as [|n IH] using Pos.peano_ind.
  - cbn [Pos.iter]. rewrite shr_1_spec by done. simpl. 
    rewrite Z.div_1_r, Z.mod_1_r. done.
  - rewrite Pos.iter_succ, IH, shr_1_spec by (apply Z.div_pos; lia).
    rewrite Pos2Z.inj_succ. replace (Z.succ (Z.pos n) - 1) with (Z.pos n) by lia.
    f_equal.
    + rewrite Z.pow_succ_r by lia. rewrite Z.div_div by lia. f_equal. lia.
    + set (k := Z.pos n - 1). assert (Hk : 0 <= k) by lia.
      replace (Z.pos n) with (k + 1) by lia. rewrite Z.pow_add_r by lia.
      assert (Hp : 0 < 2 ^ k) by (apply Z.pow_pos_nonneg; lia).
      rewrite Z.rem_mul_r by lia. 
      pose proof (Z.mod_pos_bound m (2 ^ k) Hp).
      pose proof (Z.mod_pos_bound (m / 2 ^ k) 2 ltac:(lia)).
      change (2 ^ 1) with 2. rewrite (Zmod_odd (m / 2 ^ k)).
      set (X := m mod 2 ^ k) in *.
      destruct (Z.odd (m / 2 ^ k)), (Z.eqb_spec X 0), (Z.eqb_spec (X + 2 ^ k * 1) 0),
        (Z.eqb_spec (X + 2 ^ k * 0) 0); simpl; try done; lia.
Qed.

(** *** Results that need no rounding *)

Lemma fexp_normal (e : Z) : -1021 <= e -> fexp prec emax e = e - 53.
Proof. unfold fexp, SpecFloat.emin, prec, emax. lia. Qed.

Lemma pos_iter_xO (m d : positive) : Z.pos (Pos.iter xO m d) = Z.pos m * 2 ^ Z.pos d.
Proof.
  induction d as [|d IH] using Pos.peano_ind.
  - simpl. lia.
  - rewrite Pos.iter_succ, Pos2Z.inj_xO, IH, Pos2Z.inj_succ, Z.pow_succ_r by lia. lia.
Qed.

Lemma shl_align_le (m : positive) (e e' : Z) :
  e <= e' -> shl_align m e e' = (m, e).
Proof. intros He. unfold shl_align. by destruct (e' - e) eqn:E; try lia. Qed.

Lemma shl_align_gt (m : positive) (e e' : Z) :
  e' < e -> exists m', shl_align m e e' = (m', e') /\ Z.pos m' = Z.pos m * 2 ^ (e - e').
Proof.
  intros He. unfold shl_align. destruct (e' - e) as [|p|p] eqn:E; try lia.
  eexists. split; [done|]. rewrite pos_iter_xO. f_equal. f_equal. lia.
Qed.

(** A mantissa of 53 digits in the range of the normal exponents is returned as it is. *)
Lemma binary_round_aux_canonical (s : bool) (m : positive) (e : Z) :
  Z.pos (digits2_pos m) = 53 -> -1074 <= e <= 971 ->
  binary_round_aux prec emax s (Z.pos m) e loc_Exact = S754_finite s m e.
Proof.
  intros Hd He. unfold binary_round_aux, shr_fexp. simpl Zdigits2. rewrite Hd.
  assert (Hz : fexp prec emax (53 + e) - e = 0)
    by (unfold fexp, SpecFloat.emin, prec, emax; lia).
  rewrite Hz. simpl. rewrite Hd, Hz. simpl.
  destruct (Z.leb_spec e (emax - prec)); [done|]. unfold emax, prec in *. lia.
Qed.

(** A mantissa that is a 53-digit mantissa times a power of two loses the
    zeros. *)
Lemma binary_round_aux_exact (s : bool) (M mc : positive) (e n : Z) :
  Z.pos (digits2_pos mc) = 53 -> 0 <= n -> Z.pos M = Z.pos mc * 2 ^ n ->
  -1074 <= e + n <= 971 ->
  binary_round_aux prec emax s (Z.pos M) e loc_Exact = S754_finite s mc (e + n).
Proof.
  intros Hd Hn HM He.
  destruct (Z.eq_dec n 0) as [->|Hn0].
  { rewrite Z.pow_0_r, Z.mul_1_r in HM. injection HM as ->.
    rewrite Z.add_0_r in *. by apply binary_round_aux_canonical. }
  pose proof (digits2_pos_bounds mc) as Hmc. rewrite Hd in Hmc.
  assert (Hp : 0 < 2 ^ n) by (apply Z.pow_pos_nonneg; lia).
  assert (HdM : Z.pos (digits2_pos M) = 53 + n).
  { apply digits2_pos_unique. rewrite HM.
    replace (53 + n - 1) with (52 + n) by lia. rewrite !Z.pow_add_r by lia.
    simpl (53 - 1) in Hmc. nia. }
  unfold binary_round_aux, shr_fexp. simpl Zdigits2. rewrite HdM.
  assert (Hz : fexp prec emax (53 + n + e) - e = n)
    by (unfold fexp, SpecFloat.emin, prec, emax; lia).
  rewrite Hz. unfold shr. destruct n as [|n|n]; try lia.
  cbn [shr_record_of_loc]. rewrite iter_shr_1_spec by lia.
  assert (Hq : Z.pos M / 2 ^ Z.pos n = Z.pos mc)
    by (rewrite HM; apply Z.div_mul; lia).
  assert (Hhalf : Z.pos M = 2 * Z.pos mc * 2 ^ (Z.pos n - 1)).
  { rewrite HM. replace (Z.pos n) with (Z.succ (Z.pos n - 1)) at 1 by lia.
    rewrite Z.pow_succ_r by lia. lia. }
  assert (Hp' : 0 < 2 ^ (Z.pos n - 1)) by (apply Z.pow_pos_nonneg; lia).
  assert (Hodd : Z.odd (Z.pos M / 2 ^ (Z.pos n - 1)) = false).
  { rewrite Hhalf, Z.div_mul by lia. rewrite Z.odd_mul. done. }
  assert (Hmod : Z.pos M mod 2 ^ (Z.pos n - 1) = 0).
  { rewrite Hhalf. apply Z.mod_mul. lia. }
  rewrite Hq, Hodd, Hmod.
  cbn [Z.odd negb Z.eqb andb loc_of_shr_record round_nearest_even shr_m].
  simpl Zdigits2. rewrite Hd.
  assert (Hz' : fexp prec emax (53 + (e + Z.pos n)) - (e + Z.pos n) = 0)
    by (unfold fexp, SpecFloat.emin, prec, emax; lia).
  rewrite Hz'. cbn.
  destruct (Z.leb_spec (e + Z.pos n) (emax - prec)); [done|]. unfold emax, prec in *. lia.
Qed.

Lemma canonical_digits (c d : Z) :
  2 ^ (d - 1) <= c < 2 ^ d -> 0 < d <= 53 ->
  Z.pos (Z.to_pos (c * 2 ^ (53 - d))) = c * 2 ^ (53 - d)
  /\ Z.pos (digits2_pos (Z.to_pos (c * 2 ^ (53 - d)))) = 53.
Proof.
  intros Hc Hd.
  assert (Hp : 0 < 2 ^ (53 - d)) by (apply Z.pow_pos_nonneg; lia).
  assert (Hp' : 0 < 2 ^ (d - 1)) by (apply Z.pow_pos_nonneg; lia).
  assert (Hid : Z.pos (Z.to_pos (c * 2 ^ (53 - d))) = c * 2 ^ (53 - d))
    by (apply Z2Pos.id; nia).
  split; [done|]. apply digits2_pos_unique. rewrite Hid.
  replace (2 ^ (53 - 1)) with (2 ^ (d - 1) * 2 ^ (53 - d))
    by (rewrite <- Z.pow_add_r by lia; f_equal; lia).
  replace (2 ^ 53) with (2 ^ d * 2 ^ (53 - d))
    by (rewrite <- Z.pow_add_r by lia; f_equal; lia).
  nia.
Qed.

(** Rounding a mantissa and exponent that stand for the integer [c]. *)
Lemma binary_round_integer (M : positive) (e c d : Z) :
  2 ^ (d - 1) <= c < 2 ^ d -> 0 < d <= 53 -> -1000 <= e <= 0 ->
  Z.pos M = c * 2 ^ (- e) ->
  binary_round prec emax false M e = canonical c d.
Proof.
  intros Hc Hd He HM.
  destruct (canonical_digits c d Hc Hd) as [Hid Hdig].
  assert (Hp : 0 < 2 ^ (- e)) by (apply Z.pow_pos_nonneg; lia).
  assert (HdM : Z.pos (digits2_pos M) = d - e).
  { apply digits2_pos_unique. rewrite HM.
    replace (d - e - 1) with ((d - 1) + - e) by lia.
    replace (d - e) with (d + - e) by lia.
    rewrite !Z.pow_add_r by lia. nia. }
  unfold binary_round. rewrite HdM.
  replace (d - e + e) with d by lia. rewrite fexp_normal by lia.
  destruct (Z.le_gt_cases e (d - 53)) as [Hle|Hgt].
  - rewrite shl_align_le by done.
    rewrite (binary_round_aux_exact false M (Z.to_pos (c * 2 ^ (53 - d))) e (d - 53 - e));
      try done; try lia.
    + unfold canonical. f_equal. lia.
    + rewrite Hid, HM, <- Z.mul_assoc, <- Z.pow_add_r by lia. f_equal. f_equal. lia.
  - destruct (shl_align_gt M e (d - 53) Hgt) as (M' & -> & HM').
    assert (M' = Z.to_pos (c * 2 ^ (53 - d))) as ->.
    { apply Pos2Z.inj. rewrite HM', Hid, HM, <- Z.mul_assoc, <- Z.pow_add_r by lia.
      f_equal. f_equal. lia. }
    rewrite binary_round_aux_canonical; try done; lia.
Qed.

Lemma float64_canonical (c d : Z) :
  2 ^ (d - 1) <= c < 2 ^ d -> 0 < d <= 53 -> float64 c = canonical c d.
Proof.
  intros Hc Hd. unfold float64.
  assert (Hp' : 0 < 2 ^ (d - 1)) by (apply Z.pow_pos_nonneg; lia).
  destruct c as [|c|c]; try lia.
  unfold binary_normalize. apply binary_round_integer; try done; try lia.
Qed.

(** *** Integers as binary64 values *)

(** The number of binary digits of a positive integer. *)
Lemma Zdigits2_bounds (c : Z) :
  0 < c -> 0 < Zdigits2 c /\ 2 ^ (Zdigits2 c - 1) <= c < 2 ^ Zdigits2 c.
Proof.
  destruct c as [|c|c]; try lia. intros _. split; [simpl; lia|].
  apply digits2_pos_bounds.
Qed.

Lemma Zdigits2_le (c : Z) (k : Z) : 0 < c < 2 ^ k -> 0 <= k -> Zdigits2 c <= k.
Proof.
  intros [H0 Hc] Hk. destruct (Zdigits2_bounds c H0) as (Hd & Hlo & _).
  destruct (Z.le_gt_cases (Zdigits2 c) k) as [|Hgt]; [done|].
  assert (2 ^ k <= 2 ^ (Zdigits2 c - 1)) by (apply Z.pow_le_mono_r; lia). lia.
Qed.

Lemma float64_positive (c : Z) :
  0 < c < 2 ^ 53 -> float64 c = canonical c (Zdigits2 c).
Proof.
  intros Hc. destruct (Zdigits2_bounds c) as [Hd Hb]; [lia|].
  apply float64_canonical; [done|]. split; [done|]. apply Zdigits2_le; lia.
Qed.

Lemma shl_align_fst (m : positive) (e e' : Z) :
  e' <= e -> Z.pos (fst (shl_align m e e')) = Z.pos m * 2 ^ (e - e').
Proof.
  intros He. destruct (Z.eq_dec e e') as [->|Hne].
  - rewrite shl_align_le by lia. rewrite Z.sub_diag. simpl. lia.
  - destruct (shl_align_gt m e e') as (m' & -> & Hm'); [lia|]. done.
Qed.

(** Additions of integers whose sum is below [2 ^ 53] are exact. *)
Lemma float64_add_exact (a b : Z) :
  0 <= a -> 0 <= b -> a + b < 2 ^ 53 ->
  float64_add (float64 a) (float64 b) = float64 (a + b).
Proof.
  intros Ha Hb Hab.
  destruct (Z.eq_dec a 0) as [->|Ha0].
  { rewrite Z.add_0_l. destruct (Z.eq_dec b 0) as [->|Hb0]; [reflexivity|].
    rewrite (float64_positive b) by lia. reflexivity. }
  destruct (Z.eq_dec b 0) as [->|Hb0].
  { rewrite Z.add_0_r. rewrite (float64_positive a) by lia. reflexivity. }
  rewrite (float64_positive a), (float64_positive b), (float64_positive (a + b)) by lia.
  destruct (Zdigits2_bounds a) as [Hda Hba]; [lia|].
  destruct (Zdigits2_bounds b) as [Hdb Hbb]; [lia|].
  destruct (Zdigits2_bounds (a + b)) as [Hdc Hbc]; [lia|].
  pose proof (Zdigits2_le a 53 ltac:(lia) ltac:(lia)) as Hda'.
  pose proof (Zdigits2_le b 53 ltac:(lia) ltac:(lia)) as Hdb'.
  pose proof (Zdigits2_le (a + b) 53 ltac:(lia) ltac:(lia)) as Hdc'.
  set (da := Zdigits2 a) in *. set (db := Zdigits2 b) in *.
  destruct (canonical_digits a da Hba ltac:(lia)) as [Hida _].
  destruct (canonical_digits b db Hbb ltac:(lia)) as [Hidb _].
  unfold float64_add, canonical at 1 2, SFadd, cond_Zopp.
  set (ez := Z.min (da - 53) (db - 53)).
  set (x := fst (shl_align _ (da - 53) ez)). set (y := fst (shl_align _ (db - 53) ez)).
  change (Z.pos x + Z.pos y) with (Z.pos (x + y)). unfold binary_normalize.
  apply binary_round_integer; try done; try lia.
  rewrite Pos2Z.inj_add. subst x y. rewrite !shl_align_fst by lia.
  rewrite Hida, Hidb, <- !Z.mul_assoc, <- !Z.pow_add_r by lia.
  replace (53 - da + (da - 53 - ez)) with (- ez) by lia.
  replace (53 - db + (db - 53 - ez)) with (- ez) by lia. lia.
Qed.

Lemma float64_compare (a b : Z) :
  0 <= a < 2 ^ 53 -> 0 <= b < 2 ^ 53 ->
  SFcompare (float64 a) (float64 b) = Some (a ?= b).
Proof.
  intros Ha Hb.
  destruct (Z.eq_dec a 0) as [->|Ha0].
  { destruct (Z.eq_dec b 0) as [->|Hb0]; [reflexivity|].
    rewrite (float64_positive b) by lia. change (float64 0) with (S754_zero false).
    unfold canonical. cbn [SFcompare]. f_equal. symmetry. apply Z.compare_lt_iff. lia. }
  destruct (Z.eq_dec b 0) as [->|Hb0].
  { rewrite (float64_positive a) by lia. change (float64 0) with (S754_zero false).
    unfold canonical. cbn [SFcompare]. f_equal. symmetry. apply Z.compare_gt_iff. lia. }
  rewrite (float64_positive a), (float64_positive b) by lia.
  destruct (Zdigits2_bounds a) as [Hda Hba]; [lia|].
  destruct (Zdigits2_bounds b) as [Hdb Hbb]; [lia|].
  pose proof (Zdigits2_le a 53 ltac:(lia) ltac:(lia)) as Hda'.
  pose proof (Zdigits2_le b 53 ltac:(lia) ltac:(lia)) as Hdb'.
  set (da := Zdigits2 a) in *. set (db := Zdigits2 b) in *.
  destruct (canonical_digits a da Hba ltac:(lia)) as [Hida _].
  destruct (canonical_digits b db Hbb ltac:(lia)) as [Hidb _].
  unfold canonical. cbn [SFcompare]. f_equal.
  destruct (Z.compare_spec (da - 53) (db - 53)) as [Heq|Hlt|Hgt].
  - assert (da = db) as Hdd by lia. change (Pos.compare_cont Eq ?p ?q) with (Pos.compare p q).
    rewrite Pos2Z.inj_compare, Hida, Hidb, Hdd.
    assert (0 < 2 ^ (53 - db)) by (apply Z.pow_pos_nonneg; lia).
    destruct (Z.compare_spec a b);
      [apply Z.compare_eq_iff|apply Z.compare_lt_iff|apply Z.compare_gt_iff]; nia.
  - symmetry. apply Z.compare_lt_iff.
    assert (2 ^ da <= 2 ^ (db - 1)) by (apply Z.pow_le_mono_r; lia). lia.
  - symmetry. apply Z.compare_gt_iff.
    assert (2 ^ db <= 2 ^ (da - 1)) by (apply Z.pow_le_mono_r; lia). lia.
Qed.

Lemma float64_not_NaN (a : Z) : 0 <= a < 2 ^ 53 -> isNaN (float64 a) = false.
Proof.
  intros Ha. destruct (Z.eq_dec a 0) as [->|Ha0]; [reflexivity|].
  by rewrite float64_positive by lia.
Qed.

Lemma float64_Less (a b : Z) :
  0 <= a < 2 ^ 53 -> 0 <= b < 2 ^ 53 -> Less (float64 a) (float64 b) = (a <? b).
Proof.
  intros Ha Hb. unfold Less, float64_lt, SFltb.
  rewrite float64_compare, float64_not_NaN by done.
  unfold Z.ltb. by destruct (a ?= b).
Qed.

Lemma float64_le_integers (a b : Z) :
  0 <= a < 2 ^ 53 -> 0 <= b < 2 ^ 53 -> float64_le (float64 a) (float64 b) = (a <=? b).
Proof.
  intros Ha Hb. unfold float64_le, SFleb. rewrite float64_compare by done.
  unfold Z.leb. by destruct (a ?= b).
Qed.

(** *** Rounding after a shift, and the percentile indices *)

Lemma int_negative_exponent (m : positive) (e : Z) :
  e < 0 -> int (S754_finite false m e) = Z.pos m / 2 ^ (- e).
Proof. intros He. destruct e; try lia. done. Qed.

(** Rounding to nearest, ties to even, after [n] digits are shifted out: the
    mantissa kept is within half a unit of the exact quotient. *)
Lemma round_nearest_even_shifted (M : Z) (n : positive) :
  0 <= M ->
  let mrs := SpecFloat.iter_pos shr_1 n (shr_record_of_loc M loc_Exact) in
  let m2 := round_nearest_even (shr_m mrs) (loc_of_shr_record mrs) in
  M / 2 ^ Z.pos n <= m2 <= M / 2 ^ Z.pos n + 1
  /\ 2 ^ Z.pos n * (2 * m2 - 1) <= 2 * M <= 2 ^ Z.pos n * (2 * m2 + 1).
Proof.
  intros HM. cbn [shr_record_of_loc]. rewrite iter_shr_1_spec by done.
  cbn [shr_m loc_of_shr_record].
  set (h := 2 ^ (Z.pos n - 1)).
  assert (Hh : 0 < h) by (apply Z.pow_pos_nonneg; lia).
  assert (H2h : 2 ^ Z.pos n = 2 * h).
  { subst h. rewrite <- Z.pow_succ_r by lia. f_equal. lia. }
  rewrite H2h.
  pose proof (Z.div_mod M h ltac:(lia)) as HMh.
  pose proof (Z.mod_pos_bound M h Hh) as Hrem.
  assert (Hq : M / (2 * h) = M / h / 2) by (rewrite Z.mul_comm, Z.div_div by lia; f_equal; lia).
  pose proof (Z.div_mod (M / h) 2 ltac:(lia)) as Hqh. rewrite (Zmod_odd (M / h)) in Hqh.
  rewrite Hq. set (q := M / h / 2) in *. set (t := M / h) in *. set (rho := M mod h) in *.
  destruct (Z.odd t), (Z.eqb_spec rho 0) as [H0|H0]; cbn [negb round_nearest_even].
  - destruct (Z.even q); nia.
  - nia.
  - nia.
  - nia.
Qed.

Lemma renormalize (s : bool) (m2 e' : Z) :
  2 ^ 52 <= m2 <= 2 ^ 53 -> -1074 <= e' <= 970 ->
  (let '(mrs'', e'') := shr_fexp prec emax m2 e' loc_Exact in
   match shr_m mrs'' with
   | Z0 => S754_zero s
   | Zpos m => if e'' <=? emax - prec then S754_finite s m e'' else S754_infinity s
   | _ => S754_nan
   end) = renormalized s m2 e'.
Proof.
  intros Hm He. unfold renormalized.
  destruct m2 as [|m|m]; try lia.
  destruct (Z.ltb_spec (Z.pos m) (2 ^ 53)) as [Hlt|Hge].
  - assert (Hd : Z.pos (digits2_pos m) = 53) by (apply digits2_pos_unique; simpl (53 - 1); lia).
    unfold shr_fexp. simpl Zdigits2. rewrite Hd.
    assert (Hz : fexp prec emax (53 + e') - e' = 0)
      by (unfold fexp, SpecFloat.emin, prec, emax; lia).
    rewrite Hz. cbn.
    destruct (Z.leb_spec e' (emax - prec)); [done|]. unfold emax, prec in *. lia.
  - assert (Hm53 : Z.pos m = 2 ^ 53) by lia.
    assert (m = Z.to_pos (2 ^ 53)) as -> by (apply Pos2Z.inj; rewrite Hm53; done).
    unfold shr_fexp.
    assert (Hz : fexp prec emax (Zdigits2 (Z.pos (Z.to_pos (2 ^ 53))) + e') - e' = 1).
    { change (Zdigits2 (Z.pos (Z.to_pos (2 ^ 53)))) with 54.
      unfold fexp, SpecFloat.emin, prec, emax; lia. }
    rewrite Hz. cbn.
    destruct (Z.leb_spec (e' + 1) (emax - prec)); [done|]. unfold emax, prec in *. lia.
Qed.

Lemma binary_round_aux_unfold (s : bool) (mx ex : Z) (lx : location) :
  binary_round_aux prec emax s mx ex lx =
  let '(mrs', e') := shr_fexp prec emax mx ex lx in
  let '(mrs'', e'') :=
    shr_fexp prec emax (round_nearest_even (shr_m mrs') (loc_of_shr_record mrs')) e' loc_Exact in
  match shr_m mrs'' with
  | Z0 => S754_zero s
  | Zpos m => if e'' <=? emax - prec then S754_finite s m e'' else S754_infinity s
  | _ => S754_nan
  end.
Proof. reflexivity. Qed.

(** Rounding a mantissa of [53 + n] digits. *)
Lemma binary_round_aux_shift (s : bool) (M : positive) (e : Z) (n : positive) :
  Z.pos (digits2_pos M) = 53 + Z.pos n -> -1074 <= e + Z.pos n <= 970 ->
  exists m2 : Z,
    2 ^ 52 <= m2 <= 2 ^ 53
    /\ 2 ^ Z.pos n * (2 * m2 - 1) <= 2 * Z.pos M <= 2 ^ Z.pos n * (2 * m2 + 1)
    /\ binary_round_aux prec emax s (Z.pos M) e loc_Exact
       = renormalized s m2 (e + Z.pos n).
Proof.
  intros Hd He.
  pose proof (round_nearest_even_shifted (Z.pos M) n ltac:(lia)) as Hr.
  cbv zeta in Hr.
  set (mrs := SpecFloat.iter_pos shr_1 n (shr_record_of_loc (Z.pos M) loc_Exact)) in *.
  set (m2 := round_nearest_even (shr_m mrs) (loc_of_shr_record mrs)) in *.
  destruct Hr as [Hq Hb].
  pose proof (digits2_pos_bounds M) as HM. rewrite Hd in HM.
  assert (Hp : 0 < 2 ^ Z.pos n) by (apply Z.pow_pos_nonneg; lia).
  replace (53 + Z.pos n - 1) with (52 + Z.pos n) in HM by lia.
  rewrite !Z.pow_add_r in HM by lia.
  assert (Hq' : 2 ^ 52 <= Z.pos M / 2 ^ Z.pos n < 2 ^ 53).
  { split; [apply Z.div_le_lower_bound; lia|apply Z.div_lt_upper_bound; lia]. }
  exists m2. split; [lia|]. split; [done|].
  rewrite binary_round_aux_unfold. unfold shr_fexp at 1. simpl Zdigits2. rewrite Hd.
  assert (Hz : fexp prec emax (53 + Z.pos n + e) - e = Z.pos n)
    by (unfold fexp, SpecFloat.emin, prec, emax; lia).
  rewrite Hz. unfold shr. fold mrs. fold m2.
  apply renormalize; lia.
Qed.

(** The arithmetic behind the percentile index: a mantissa [m2] within half a
    unit [A] of the product [N * B * m] truncates, at the scale [T], to the
    quotient of [p * N] by [q]. *)
Lemma index_arithmetic (N B A T m m2 p q K rho : Z) :
  0 < A <= 2 ^ 53 -> 0 < T -> T * A = 2 ^ 53 * B -> 2 ^ 22 <= B ->
  1 <= N < 2 ^ 31 ->
  N * B * m < 2 ^ 53 * A ->
  A * (2 * m2 - 1) <= 2 * (N * B * m) <= A * (2 * m2 + 1) ->
  q * m = p * 2 ^ 53 - 8 -> 2 ^ 57 <= q * m -> 0 < q <= 100 ->
  p * N = q * K + rho -> 0 <= rho < q ->
  T * K <= m2 < T * K + T.
Proof.
  intros HA HT HTA HB HN HAM [Hlo Hhi] Hm Hqm Hq Hdiv Hrho.
  assert (HW : 0 < N * B) by (apply Z.mul_pos_pos; lia).
  assert (Hstar : q * (N * B * m) = 2 ^ 53 * B * (q * K) + 2 ^ 53 * B * rho - 8 * (N * B)).
  { replace (q * (N * B * m)) with (N * B * (q * m)) by ring.
    rewrite Hm.
    replace (N * B * (p * 2 ^ 53 - 8)) with (2 ^ 53 * B * (p * N) - 8 * (N * B)) by ring.
    rewrite Hdiv. ring. }
  assert (H8 : 8 * (N * B) < 2 ^ 53 * B).
  { replace (8 * (N * B)) with (8 * N * B) by ring. apply Z.mul_lt_mono_pos_r; lia. }
  split.
  - destruct (Z.le_gt_cases (T * K) m2) as [|Hlt]; [done|exfalso].
    assert (H1 : A * (2 * m2 + 1) <= A * (2 * (T * K) - 1))
      by (apply Z.mul_le_mono_nonneg_l; lia).
    replace (A * (2 * (T * K) - 1)) with (2 * (T * A) * K - A) in H1 by ring.
    rewrite HTA in H1.
    assert (H2 : q * (2 * (N * B * m)) <= q * (2 * (2 ^ 53 * B) * K - A))
      by (apply Z.mul_le_mono_nonneg_l; lia).
    replace (q * (2 * (N * B * m))) with (2 * (q * (N * B * m))) in H2 by ring.
    rewrite Hstar in H2.
    replace (q * (2 * (2 ^ 53 * B) * K - A))
      with (2 * (2 ^ 53 * B * (q * K)) - q * A) in H2 by ring.
    assert (H3 : 2 * (2 ^ 53 * B * rho) + q * A <= 16 * (N * B)) by lia.
    destruct (Z.eq_dec rho 0) as [H0|H0].
    + rewrite H0, Z.mul_0_r in H3.
      assert (H4 : q * (N * B * m) < q * (2 ^ 53 * A))
        by (apply Z.mul_lt_mono_pos_l; lia).
      assert (H5 : 2 ^ 57 * (N * B) <= q * m * (N * B))
        by (apply Z.mul_le_mono_nonneg_r; lia).
      replace (q * m * (N * B)) with (q * (N * B * m)) in H5 by ring.
      replace (q * (2 ^ 53 * A)) with (2 ^ 53 * (q * A)) in H4 by ring.
      lia.
    + assert (H4 : 2 ^ 53 * B * 1 <= 2 ^ 53 * B * rho)
        by (apply Z.mul_le_mono_nonneg_l; lia).
      lia.
  - destruct (Z.le_gt_cases (T * K + T) m2) as [Hge|]; [exfalso|done].
    assert (H1 : A * (2 * (T * K + T) - 1) <= A * (2 * m2 - 1))
      by (apply Z.mul_le_mono_nonneg_l; lia).
    replace (A * (2 * (T * K + T) - 1)) with (2 * (T * A) * K + 2 * (T * A) - A) in H1 by ring.
    rewrite HTA in H1.
    assert (H2 : q * (2 * (2 ^ 53 * B) * K + 2 * (2 ^ 53 * B) - A) <= q * (2 * (N * B * m)))
      by (apply Z.mul_le_mono_nonneg_l; lia).
    replace (q * (2 * (N * B * m))) with (2 * (q * (N * B * m))) in H2 by ring.
    rewrite Hstar in H2.
    replace (q * (2 * (2 ^ 53 * B) * K + 2 * (2 ^ 53 * B) - A))
      with (2 * (2 ^ 53 * B * (q * K)) + 2 * (2 ^ 53 * B * q) - q * A) in H2 by ring.
    assert (H4 : 2 ^ 53 * B * (rho + 1) <= 2 ^ 53 * B * q)
      by (apply Z.mul_le_mono_nonneg_l; lia).
    replace (2 ^ 53 * B * (rho + 1)) with (2 ^ 53 * B * rho + 2 ^ 53 * B) in H4 by ring.
    assert (H5 : q * A <= 100 * 2 ^ 53).
    { transitivity (100 * A); [apply Z.mul_le_mono_nonneg_r; lia|lia]. }
    lia.
Qed.

Lemma int_renormalized (m2 e' : Z) :
  2 ^ 52 <= m2 <= 2 ^ 53 -> e' < 0 ->
  int (renormalized false m2 e') = m2 / 2 ^ (- e').
Proof.
  intros Hm He. unfold renormalized.
  destruct (Z.ltb_spec m2 (2 ^ 53)) as [Hlt|Hge].
  - rewrite int_negative_exponent by done. rewrite Z2Pos.id by lia. done.
  - assert (m2 = 2 ^ 53) as -> by lia.
    destruct (Z.eq_dec e' (-1)) as [->|Hne]; [reflexivity|].
    rewrite int_negative_exponent by lia. rewrite Z2Pos.id by lia.
    replace (- e') with (Z.succ (- (e' + 1))) by lia.
    rewrite Z.pow_succ_r by lia.
    change (2 ^ 53) with (2 * 2 ^ 52).
    rewrite Z.div_mul_cancel_l; [done| |lia].
    apply Z.pow_nonzero; lia.
Qed.

(** The index [int(float64(N) * c)] for a constant [c] with mantissa [m] and
    exponent [-53] that is the binary64 value next below [p / q]. *)
Lemma percentile_index (m : positive) (p q N : Z) :
  q * Z.pos m = p * 2 ^ 53 - 8 -> 0 < p < q -> q <= 100 ->
  2 ^ 52 <= Z.pos m -> 2 ^ 57 <= q * Z.pos m ->
  1 <= N < 2 ^ 31 ->
  int (float64_mul (float64 N) (S754_finite false m (-53))) = p * N / q.
Proof.
  intros Hm Hp Hq Hm52 Hqm HN.
  assert (Hm53 : Z.pos m < 2 ^ 53).
  { destruct (Z.lt_ge_cases (Z.pos m) (2 ^ 53)) as [|Hge]; [done|].
    assert (q * 2 ^ 53 <= q * Z.pos m) by (apply Z.mul_le_mono_nonneg_l; lia).
    assert (p * 2 ^ 53 < q * 2 ^ 53) by (apply Z.mul_lt_mono_pos_r; lia). lia. }
  rewrite float64_positive by lia.
  destruct (Zdigits2_bounds N) as [Hd HdN]; [lia|].
  pose proof (Zdigits2_le N 31 ltac:(lia) ltac:(lia)) as Hd31.
  set (d := Zdigits2 N) in *.
  destruct (canonical_digits N d HdN ltac:(lia)) as [Hid Hdig].
  unfold canonical, float64_mul, SFmul. cbn [xorb].
  set (mN := Z.to_pos (N * 2 ^ (53 - d))) in *.
  set (B := 2 ^ (53 - d)) in *.
  assert (HB : 2 ^ 22 <= B) by (apply Z.pow_le_mono_r; lia).
  assert (HNB : 2 ^ 52 <= N * B < 2 ^ 53).
  { pose proof (digits2_pos_bounds mN) as H. rewrite Hdig, Hid in H. simpl (53 - 1) in H. lia. }
  (* the product has 105 or 106 digits *)
  assert (HM : 2 ^ 104 <= N * B * Z.pos m < 2 ^ 106).
  { change (2 ^ 104) with (2 ^ 52 * 2 ^ 52). change (2 ^ 106) with (2 ^ 53 * 2 ^ 53).
    split.
    - apply Z.mul_le_mono_nonneg; lia.
    - apply Z.mul_lt_mono_nonneg; lia. }
  pose proof (digits2_pos_bounds (mN * m)) as HdM.
  rewrite Pos2Z.inj_mul, Hid in HdM.
  set (dM := Z.pos (digits2_pos (mN * m))) in *.
  assert (HdM' : 105 <= dM <= 106).
  { split.
    - destruct (Z.le_gt_cases 105 dM); [done|].
      assert (2 ^ dM <= 2 ^ 104) by (apply Z.pow_le_mono_r; lia). lia.
    - destruct (Z.le_gt_cases dM 106); [done|].
      assert (2 ^ 106 <= 2 ^ (dM - 1)) by (apply Z.pow_le_mono_r; lia). lia. }
  destruct (dM - 53) as [|n|n] eqn:Hn; try lia.
  destruct (binary_round_aux_shift false (mN * m) (d - 53 + -53) n) as (m2 & Hm2 & Hb & ->).
  { fold dM. lia. }
  { lia. }
  rewrite int_renormalized by lia.
  rewrite Pos2Z.inj_mul, Hid in Hb.
  pose proof (Z.div_mod (p * N) q ltac:(lia)) as Hdiv.
  pose proof (Z.mod_pos_bound (p * N) q ltac:(lia)) as Hrho.
  set (K := p * N / q) in *. set (rho := (p * N) mod q) in *.
  set (T := 2 ^ (- (d - 53 + -53 + Z.pos n))).
  assert (HT : 0 < T) by (apply Z.pow_pos_nonneg; lia).
  assert (Hgoal : T * K <= m2 < T * K + T).
  { apply (index_arithmetic N B (2 ^ Z.pos n) T (Z.pos m) m2 p q K rho); try done; try lia.
    - split; [apply Z.pow_pos_nonneg; lia|apply Z.pow_le_mono_r; lia].
    - subst T B. rewrite <- !Z.pow_add_r by lia. f_equal. lia.
    - rewrite <- Z.pow_add_r by lia. replace (53 + Z.pos n) with dM by lia. lia. }
  symmetry. apply Z.div_unique with (r := m2 - T * K); lia.
Qed.

Lemma p95Index_exact (N : Z) : 1 <= N < 2 ^ 31 -> server.p95Index N = 19 * N / 20.
Proof. intros HN. unfold server.p95Index, const_0_95. by apply percentile_index. Qed.

Lemma p99Index_exact (N : Z) : 1 <= N < 2 ^ 31 -> server.p99Index N = 99 * N / 100.
Proof. intros HN. unfold server.p99Index, const_0_99. by apply percentile_index. Qed.

(** *** Division *)

Lemma SFleb_finite (m1 m2 : positive) (e1 e2 : Z) :
  e1 < e2 \/ (e1 = e2 /\ Z.pos m1 <= Z.pos m2) ->
  SFleb (S754_finite false m1 e1) (S754_finite false m2 e2) = true.
Proof.
  intros H. unfold SFleb. cbn [SFcompare].
  destruct (Z.compare_spec e1 e2) as [Heq|Hlt|Hgt]; [|done|lia].
  change (Pos.compare_cont Eq m1 m2) with (Pos.compare m1 m2).
  rewrite Pos2Z.inj_compare.
  destruct (Z.compare_spec (Z.pos m1) (Z.pos m2)); try done. lia.
Qed.

Lemma round_nearest_even_range (m : Z) (l : location) :
  m <= round_nearest_even m l <= m + 1.
Proof. destruct l as [|[]]; simpl; try lia. destruct (Z.even m); lia. Qed.

Lemma new_location_exact (nb_steps : Z) : new_location nb_steps 0 = loc_Exact.
Proof. unfold new_location. by destruct (Z.even nb_steps). Qed.

Lemma loc_of_shr_record_of_loc (m : Z) (l : location) :
  loc_of_shr_record (shr_record_of_loc m l) = l.
Proof. by destruct l as [|[]]. Qed.

Lemma shr_m_record_of_loc (m : Z) (l : location) : shr_m (shr_record_of_loc m l) = m.
Proof. by destruct l as [|[]]. Qed.

Lemma SFdiv_core_binary_normal (m1 m2 : positive) (e1 e2 : Z) :
  Z.pos (digits2_pos m1) = 53 -> Z.pos (digits2_pos m2) = 53 ->
  -1021 <= e1 - e2 ->
  SFdiv_core_binary prec emax (Z.pos m1) e1 (Z.pos m2) e2
  = ((Z.pos m1 * 2 ^ 53) / Z.pos m2, e1 - e2 - 53,
     new_location (Z.pos m2) ((Z.pos m1 * 2 ^ 53) mod Z.pos m2)).
Proof.
  intros H1 H2 He. unfold SFdiv_core_binary. simpl Zdigits2. rewrite H1, H2.
  replace (53 + e1 - (53 + e2)) with (e1 - e2) by lia.
  rewrite fexp_normal by done.
  rewrite Z.min_l by lia.
  replace (e1 - e2 - (e1 - e2 - 53)) with 53 by lia.
  cbv iota beta. rewrite Z.shiftl_mul_pow2 by lia.
  unfold Z.div, Z.modulo.
  by destruct (Z.div_eucl (Z.pos m1 * 2 ^ 53) (Z.pos m2)).
Qed.

(** The quotient of two canonical mantissas, rounded: the kept mantissa is the
    floor of the exact quotient at the scale of the result, or the next one
    up, and it is the floor when the division is exact. *)
Lemma binary_round_aux_quotient (X D0 : Z) (e' : Z) (l : location) :
  0 < D0 -> 2 ^ 52 * D0 <= X < 2 ^ 54 * D0 -> -1074 <= e' <= 968 ->
  (X mod D0 = 0 -> l = loc_Exact) ->
  exists (j m2 : Z),
    (j = 0 \/ j = 1)
    /\ 2 ^ 52 <= X / (D0 * 2 ^ j) < 2 ^ 53
    /\ X / (D0 * 2 ^ j) <= m2 <= X / (D0 * 2 ^ j) + 1
    /\ (X mod (D0 * 2 ^ j) = 0 -> m2 = X / (D0 * 2 ^ j))
    /\ binary_round_aux prec emax false (X / D0) e' l = renormalized false m2 (e' + j).
Proof.
  intros HD HX He Hl.
  assert (Hq : 2 ^ 52 <= X / D0 < 2 ^ 54).
  { split; [apply Z.div_le_lower_bound; lia|apply Z.div_lt_upper_bound; lia]. }
  set (q := X / D0) in *.
  rewrite binary_round_aux_unfold.
  destruct q as [|qp|qp] eqn:Eq; try lia.
  destruct (Z.lt_ge_cases (Z.pos qp) (2 ^ 53)) as [Hlt|Hge].
  - (* no digit is shifted out *)
    exists 0, (round_nearest_even (Z.pos qp) l).
    rewrite Z.pow_0_r, Z.mul_1_r, Z.add_0_r. fold q. rewrite Eq.
    pose proof (round_nearest_even_range (Z.pos qp) l).
    split; [by left|]. split; [lia|]. split; [lia|]. split.
    + intros H0. rewrite (Hl H0). done.
    + assert (Hd : Z.pos (digits2_pos qp) = 53)
        by (apply digits2_pos_unique; simpl (53 - 1); lia).
      unfold shr_fexp at 1. simpl Zdigits2. rewrite Hd.
      assert (Hz : fexp prec emax (53 + e') - e' = 0)
        by (unfold fexp, SpecFloat.emin, prec, emax; lia).
      rewrite Hz. cbn [shr].
      rewrite loc_of_shr_record_of_loc, shr_m_record_of_loc.
      apply renormalize; lia.
  - (* one digit is shifted out *)
    assert (Hd : Z.pos (digits2_pos qp) = 54)
      by (apply digits2_pos_unique; simpl (54 - 1); lia).
    assert (Hq2 : X / (D0 * 2 ^ 1) = Z.pos qp / 2).
    { rewrite <- Eq. subst q. rewrite Z.div_div by lia. done. }
    set (mrs := shr_1 (shr_record_of_loc (Z.pos qp) l)).
    exists 1, (round_nearest_even (shr_m mrs) (loc_of_shr_record mrs)).
    assert (Hmrs : shr_m mrs = Z.pos qp / 2).
    { subst mrs. destruct l as [|[]]; cbn [shr_record_of_loc]; by rewrite shr_1_spec. }
    pose proof (round_nearest_even_range (shr_m mrs) (loc_of_shr_record mrs)) as Hr.
    rewrite Hq2.
    assert (Hhalf : 2 ^ 52 <= Z.pos qp / 2 < 2 ^ 53).
    { split; [apply Z.div_le_lower_bound; lia|apply Z.div_lt_upper_bound; lia]. }
    split; [by right|]. split; [lia|]. split; [lia|]. split.
    + intros H0.
      assert (HX2 : X = D0 * 2 ^ 1 * (X / (D0 * 2 ^ 1))).
      { pose proof (Z.div_mod X (D0 * 2 ^ 1) ltac:(lia)). lia. }
      rewrite Hq2 in HX2.
      assert (Hqeq : Z.pos qp = 2 * (Z.pos qp / 2)).
      { rewrite <- Eq at 1. subst q. rewrite HX2 at 1.
        replace (D0 * 2 ^ 1 * (Z.pos qp / 2)) with (2 * (Z.pos qp / 2) * D0) by ring.
        apply Z.div_mul. lia. }
      assert (HX0 : X mod D0 = 0).
      { rewrite HX2. replace (D0 * 2 ^ 1 * (Z.pos qp / 2)) with (2 * (Z.pos qp / 2) * D0) by ring.
        apply Z.mod_mul. lia. }
      subst mrs. rewrite (Hl HX0). cbn [shr_record_of_loc]. rewrite shr_1_spec by lia.
      assert (Hodd : Z.odd (Z.pos qp) = false).
      { rewrite Hqeq, Z.odd_mul. done. }
      rewrite Hodd. done.
    + unfold shr_fexp at 1. simpl Zdigits2. rewrite Hd.
      assert (Hz : fexp prec emax (54 + e') - e' = 1)
        by (unfold fexp, SpecFloat.emin, prec, emax; lia).
      rewrite Hz. cbn [shr SpecFloat.iter_pos]. fold mrs.
      apply renormalize; lia.
Qed.

Lemma SFleb_renormalized_r (mt : positive) (et m2 e2 : Z) :
  2 ^ 52 <= m2 <= 2 ^ 53 ->
  et < e2 \/ (et = e2 /\ Z.pos mt <= m2) ->
  SFleb (S754_finite false mt et) (renormalized false m2 e2) = true.
Proof.
  intros Hm2 H. unfold renormalized.
  destruct (Z.ltb_spec m2 (2 ^ 53)); apply SFleb_finite.
  - rewrite Z2Pos.id by lia. lia.
  - lia.
Qed.

Lemma SFleb_renormalized_l (mt : positive) (et m2 e2 : Z) :
  2 ^ 52 <= m2 <= 2 ^ 53 -> 2 ^ 52 <= Z.pos mt < 2 ^ 53 ->
  e2 < et \/ (e2 = et /\ m2 <= Z.pos mt) ->
  SFleb (renormalized false m2 e2) (S754_finite false mt et) = true.
Proof.
  intros Hm2 Hmt H. unfold renormalized.
  destruct (Z.ltb_spec m2 (2 ^ 53)); apply SFleb_finite.
  - rewrite Z2Pos.id by lia. lia.
  - rewrite Z2Pos.id by lia. 
    destruct H as [H|[-> H]]; [|lia].
    destruct (Z.eq_dec (e2 + 1) et); [right|left]; lia.
Qed.

(** A mantissa [mt] at an exponent [delta] above that of the quotient [X / D]
    that is not above the exact quotient is not above its floor. *)
Lemma below_quotient (mt D X m1 delta : Z) :
  0 < D -> 2 ^ 52 <= mt -> m1 = X / D -> m1 < 2 ^ 53 -> 0 <= delta ->
  mt * D * 2 ^ delta <= X ->
  delta = 0 /\ mt <= m1.
Proof.
  intros HD Hmt -> Hm1 Hdelta Hle.
  assert (Hp : 0 < 2 ^ delta) by (apply Z.pow_pos_nonneg; lia).
  assert (Hq : mt * 2 ^ delta <= X / D).
  { apply Z.div_le_lower_bound; [done|]. 
    replace (D * (mt * 2 ^ delta)) with (mt * D * 2 ^ delta) by ring. done. }
  destruct (Z.eq_dec delta 0) as [->|Hne].
  - rewrite Z.pow_0_r, Z.mul_1_r in Hq. done.
  - exfalso. assert (2 ^ 1 <= 2 ^ delta) by (apply Z.pow_le_mono_r; lia).
    assert (2 ^ 52 * 2 ^ 1 <= mt * 2 ^ delta) by (apply Z.mul_le_mono_nonneg; lia).
    lia.
Qed.

(** A mantissa [mt] at an exponent [delta] below that of the quotient [X / D]
    that is not below the exact quotient is not below the rounded one. *)
Lemma above_quotient (mt D X m1 m2 delta : Z) :
  0 < D -> mt < 2 ^ 53 -> m1 = X / D -> 2 ^ 52 <= m1 -> m1 <= m2 <= m1 + 1 ->
  (X mod D = 0 -> m2 = m1) -> 0 <= delta ->
  X * 2 ^ delta <= mt * D ->
  delta = 0 /\ m2 <= mt.
Proof.
  intros HD Hmt Hm1 Hm52 Hm2 Hexact Hdelta Hle.
  assert (Hp : 0 < 2 ^ delta) by (apply Z.pow_pos_nonneg; lia).
  pose proof (Z.div_mod X D ltac:(lia)) as HX.
  pose proof (Z.mod_pos_bound X D HD) as Hr.
  rewrite <- Hm1 in HX.
  assert (HmD : 2 ^ 52 * D <= D * m1).
  { rewrite (Z.mul_comm D m1). apply Z.mul_le_mono_nonneg_r; lia. }
  destruct (Z.eq_dec delta 0) as [->|Hne].
  - split; [done|]. rewrite Z.pow_0_r, Z.mul_1_r in Hle.
    destruct (Z.eq_dec (X mod D) 0) as [H0|H0].
    + rewrite (Hexact H0). rewrite H0, Z.add_0_r in HX. rewrite HX in Hle.
      apply (Z.mul_le_mono_pos_l _ _ D); [done|]. lia.
    + assert (D * m1 < D * mt) by lia.
      assert (m1 < mt) by (apply (Z.mul_lt_mono_pos_l D); done). lia.
  - exfalso. assert (2 ^ 1 <= 2 ^ delta) by (apply Z.pow_le_mono_r; lia).
    assert (2 ^ 52 * D * 2 ^ 1 <= X * 2 ^ delta) by (apply Z.mul_le_mono_nonneg; lia).
    assert (mt * D < 2 ^ 53 * D) by (apply Z.mul_lt_mono_pos_r; lia).
    lia.
Qed.

(** The quotient of two positive integers below [2 ^ 53], rounded to
    binary64, lies on the same side of an integer as the exact quotient. *)
Lemma float64_div_bounds (S n t : Z) :
  0 < S < 2 ^ 53 -> 0 < n < 2 ^ 53 -> 0 < t < 2 ^ 53 ->
  float64_le (float64 0) (float64_div (float64 S) (float64 n)) = true
  /\ (t * n <= S ->
      float64_le (float64 t) (float64_div (float64 S) (float64 n)) = true)
  /\ (S <= t * n ->
      float64_le (float64_div (float64 S) (float64 n)) (float64 t) = true).
Proof.
  intros HS Hn Ht.
  rewrite (float64_positive S), (float64_positive n), (float64_positive t) by done.
  destruct (Zdigits2_bounds S) as [HdS HbS]; [lia|].
  destruct (Zdigits2_bounds n) as [Hdn Hbn]; [lia|].
  destruct (Zdigits2_bounds t) as [Hdt Hbt]; [lia|].
  pose proof (Zdigits2_le S 53 ltac:(lia) ltac:(lia)) as HdS'.
  pose proof (Zdigits2_le n 53 ltac:(lia) ltac:(lia)) as Hdn'.
  pose proof (Zdigits2_le t 53 ltac:(lia) ltac:(lia)) as Hdt'.
  set (dS := Zdigits2 S) in *. set (dn := Zdigits2 n) in *. set (dt := Zdigits2 t) in *.
  destruct (canonical_digits S dS HbS ltac:(lia)) as [HidS HdigS].
  destruct (canonical_digits n dn Hbn ltac:(lia)) as [Hidn Hdign].
  destruct (canonical_digits t dt Hbt ltac:(lia)) as [Hidt Hdigt].
  unfold canonical, float64_div, float64_le, SFdiv. cbn [xorb].
  set (mS := Z.to_pos (S * 2 ^ (53 - dS))) in *.
  set (mn := Z.to_pos (n * 2 ^ (53 - dn))) in *.
  set (mt := Z.to_pos (t * 2 ^ (53 - dt))) in *.
  pose proof (digits2_pos_bounds mS) as HmS. rewrite HdigS in HmS. simpl (53 - 1) in HmS.
  pose proof (digits2_pos_bounds mn) as Hmn. rewrite Hdign in Hmn. simpl (53 - 1) in Hmn.
  pose proof (digits2_pos_bounds mt) as Hmt. rewrite Hdigt in Hmt. simpl (53 - 1) in Hmt.
  rewrite SFdiv_core_binary_normal by (try done; lia).
  cbv iota beta.
  set (X := Z.pos mS * 2 ^ 53). set (e' := dS - 53 - (dn - 53) - 53).
  destruct (binary_round_aux_quotient X (Z.pos mn) e' (new_location (Z.pos mn) (X mod Z.pos mn)))
    as (j & m2 & Hj & Hm1 & Hm2 & Hexact & ->).
  { lia. }
  { subst X. split.
    - transitivity (2 ^ 52 * 2 ^ 53); [apply Z.mul_le_mono_nonneg_l; lia|].
      apply Z.mul_le_mono_nonneg_r; lia.
    - apply Z.lt_le_trans with (2 ^ 53 * 2 ^ 53); [apply Z.mul_lt_mono_pos_r; lia|].
      change (2 ^ 53 * 2 ^ 53) with (2 ^ 54 * 2 ^ 52).
      apply Z.mul_le_mono_nonneg_l; lia. }
  { lia. }
  { intros ->. apply new_location_exact. }
  set (D := Z.pos mn * 2 ^ j) in *.
  assert (H2j : 0 < 2 ^ j) by (apply Z.pow_pos_nonneg; lia).
  assert (HD : 0 < D) by (apply Z.mul_pos_pos; lia).
  assert (HXS : X = S * 2 ^ (106 - dS)).
  { subst X. rewrite HidS, <- Z.mul_assoc, <- Z.pow_add_r by lia. f_equal. f_equal. lia. }
  assert (HmtD : Z.pos mt * D = t * n * 2 ^ (106 - dt - dn + j)).
  { subst D. rewrite Hidt, Hidn.
    replace (t * 2 ^ (53 - dt) * (n * 2 ^ (53 - dn) * 2 ^ j))
      with (t * n * (2 ^ (53 - dt) * 2 ^ (53 - dn) * 2 ^ j)) by ring.
    rewrite <- !Z.pow_add_r by lia. f_equal. f_equal. lia. }
  set (delta := dt - dS + dn - j).
  split; [unfold renormalized; by destruct (m2 <? 2 ^ 53)|].
  split; intros Hle.
  - apply SFleb_renormalized_r; [lia|].
    destruct (Z.lt_ge_cases delta 0) as [Hneg|Hpos]; [left; lia|right].
    destruct (below_quotient (Z.pos mt) D X (X / D) delta) as [H0 Hm]; try done; try lia.
    { rewrite HmtD, HXS, <- Z.mul_assoc, <- Z.pow_add_r by lia.
      replace (106 - dt - dn + j + delta) with (106 - dS) by lia.
      apply Z.mul_le_mono_nonneg_r; [|done]. apply Z.pow_nonneg. lia. }
  - apply SFleb_renormalized_l; [lia|lia|].
    destruct (Z.lt_ge_cases 0 delta) as [Hpos|Hneg]; [left; lia|right].
    destruct (above_quotient (Z.pos mt) D X (X / D) m2 (- delta)) as [H0 Hm];
      try done; try lia.
    { rewrite HmtD, HXS, <- Z.mul_assoc, <- Z.pow_add_r by lia.
      replace (106 - dS + - delta) with (106 - dt - dn + j) by lia.
      apply Z.mul_le_mono_nonneg_r; [|done]. apply Z.pow_nonneg. lia. }
Qed.

(** ** Sorting *)

Section Sorting.

Context {A : Type} (lt : A -> A -> bool).

Lemma insert_by_Permutation (x : A) (l : list A) : insert_by lt x l ≡ₚ x :: l.
Proof.
  induction l as [|y l IH]; simpl; [done|].
  destruct (lt x y); [done|]. rewrite IH. apply Permutation_swap.
Qed.

Lemma sort_by_Permutation (l : list A) : sort_by lt l ≡ₚ l.
Proof.
  unfold sort_by. induction l as [|x l IH]; simpl; [done|].
  rewrite insert_by_Permutation. by rewrite IH.
Qed.

Lemma sort_by_length (l : list A) : length (sort_by lt l) = length l.
Proof. apply Permutation_length, sort_by_Permutation. Qed.

Context {B : Type} (lt' : B -> B -> bool) (f : A -> B).

Lemma insert_by_map (x : A) (l : list A) :
  (forall y, y ∈ l -> lt' (f x) (f y) = lt x y) ->
  insert_by lt' (f x) (map f l) = map f (insert_by lt x l).
Proof.
  induction l as [|y l IH]; intros H; simpl; [done|].
  rewrite H by set_solver. destruct (lt x y); [done|].
  simpl. rewrite IH; [done|]. intros z Hz. apply H. set_solver.
Qed.

Lemma sort_by_map (l : list A) :
  (forall x y, x ∈ l -> y ∈ l -> lt' (f x) (f y) = lt x y) ->
  sort_by lt' (map f l) = map f (sort_by lt l).
Proof.
  unfold sort_by. induction l as [|x l IH]; intros H; simpl; [done|].
  rewrite IH by (intros; apply H; set_solver).
  apply insert_by_map. intros y Hy. apply H; [set_solver|].
  apply elem_of_cons. right. by rewrite <- (sort_by_Permutation l).
Qed.

End Sorting.

Lemma insert_by_sorted (x : Z) (l : list Z) :
  StronglySorted Z.le l -> StronglySorted Z.le (insert_by Z.ltb x l).
Proof.
  induction 1 as [|y l Hl IH Hy]; simpl; [repeat constructor|].
  destruct (Z.ltb_spec x y) as [Hlt|Hge].
  - constructor; [by constructor|]. constructor; [lia|].
    eapply Forall_impl; [done|]. simpl. intros. lia.
  - constructor; [done|]. rewrite insert_by_Permutation. constructor; [lia|done].
Qed.

Lemma sort_by_sorted (l : list Z) : StronglySorted Z.le (sort_by Z.ltb l).
Proof.
  unfold sort_by. induction l as [|x l IH]; simpl; [constructor|].
  by apply insert_by_sorted.
Qed.

Lemma StronglySorted_lookup_le (l : list Z) (i j : nat) (a b : Z) :
  StronglySorted Z.le l -> (i <= j)%nat -> l !! i = Some a -> l !! j = Some b -> a <= b.
Proof.
  intros Hl. revert i j. induction Hl as [|x l Hl IH Hx]; intros i j Hij Hi Hj; [done|].
  destruct i as [|i], j as [|j]; simpl in *; simplify_eq; try lia.
  - eapply (Forall_lookup_1 _ _ _ _ Hx Hj).
  - eapply (IH i j); [lia|done|done].
Qed.

Lemma total_Permutation (l l' : list Z) : l ≡ₚ l' -> total l = total l'.
Proof. unfold total. induction 1; simpl; lia. Qed.

Lemma total_bounds (l : list Z) (lo hi : Z) :
  Forall (fun x => lo <= x <= hi) l ->
  lo * Z.of_nat (length l) <= total l <= hi * Z.of_nat (length l).
Proof.
  unfold total. induction 1 as [|x l Hx _ IH]; simpl length; simpl foldr; [lia|].
  rewrite Nat2Z.inj_succ. lia.
Qed.

Lemma total_nonneg (l : list Z) : Forall (fun x => 0 <= x) l -> 0 <= total l.
Proof. unfold total. induction 1; simpl; lia. Qed.

Lemma total_elem_le (l : list Z) (x : Z) :
  Forall (fun x => 0 <= x) l -> x ∈ l -> x <= total l.
Proof.
  unfold total. induction 1 as [|y l Hy Hl IH]; intros Hx; [by apply elem_of_nil in Hx|].
  pose proof (total_nonneg l Hl) as H0. unfold total in H0.
  apply elem_of_cons in Hx as [->|Hx]; simpl; [lia|]. specialize (IH Hx). lia.
Qed.

(** The running sum of the loop over [times] is exact. *)
Lemma foldl_float64_add (l : list Z) (acc : Z) :
  0 <= acc -> Forall (fun x => 0 <= x) l -> acc + total l < 2 ^ 53 ->
  foldl float64_add (float64 acc) (map float64 l) = float64 (acc + total l).
Proof.
  intros Hacc Hl. revert acc Hacc. unfold total.
  induction Hl as [|x l Hx Hl IH]; intros acc Hacc Hsum; simpl in *.
  - by rewrite Z.add_0_r.
  - pose proof (total_nonneg l Hl) as H0. unfold total in H0.
    rewrite float64_add_exact by lia. rewrite IH by lia. f_equal. lia.
Qed.

(** ** Statistics of whole milliseconds *)

Lemma at_index_fmap (l : list Z) (i : Z) (x : Z) :
  0 <= i -> l !! Z.to_nat i = Some x ->
  at_index (map float64 l) i = Some (float64 x).
Proof.
  intros Hi Hx. unfold at_index. destruct (Z.ltb_spec i 0); [lia|].
  by rewrite list_lookup_fmap, Hx.
Qed.

Lemma percentile_indices (n : Z) :
  1 <= n < 2 ^ 31 ->
  p95Index n = 95 * n / 100 /\ p99Index n = 99 * n / 100
  /\ 0 <= p95Index n <= p99Index n /\ p99Index n < n.
Proof.
  intros Hn. rewrite p95Index_exact, p99Index_exact by done.
  assert (H95 : 95 * n / 100 = 19 * n / 20).
  { replace (95 * n) with (5 * (19 * n)) by ring. change 100 with (5 * 20).
    apply Z.div_mul_cancel_l; lia. }
  rewrite <- H95. repeat split; try done.
  - apply Z.div_pos; lia.
  - apply Z.div_le_mono; lia.
  - apply Z.div_lt_upper_bound; lia.
Qed.

(** The statistics of a slice of non-negative whole milliseconds whose sum is
    below [2 ^ 53]. *)
Lemma statistics_integers (l : list Z) :
  (0 < length l)%nat -> Z.of_nat (length l) < 2 ^ 31 ->
  Forall (fun x => 0 <= x) l -> total l < 2 ^ 53 ->
  exists tmin t95 t99 tmax,
    sort_by Z.ltb l !! 0%nat = Some tmin
    /\ sort_by Z.ltb l !! Z.to_nat (95 * Z.of_nat (length l) / 100) = Some t95
    /\ sort_by Z.ltb l !! Z.to_nat (99 * Z.of_nat (length l) / 100) = Some t99
    /\ sort_by Z.ltb l !! (length l - 1)%nat = Some tmax
    /\ statistics (map float64 l)
       = Some {| minTime := float64 tmin; maxTime := float64 tmax;
                 avgTime := float64_div (float64 (total l)) (float64 (Z.of_nat (length l)));
                 p95Time := float64 t95; p99Time := float64 t99 |}
    /\ tmin <= t95 <= t99 /\ t99 <= tmax
    /\ tmin * Z.of_nat (length l) <= total l <= tmax * Z.of_nat (length l)
    /\ 0 <= tmin /\ tmax < 2 ^ 53.
Proof.
  intros Hlen Hn Hl Htotal.
  remember (Z.of_nat (length l)) as n eqn:Hndef.
  set (sorted := sort_by Z.ltb l).
  assert (Hperm : sorted ≡ₚ l) by apply sort_by_Permutation.
  assert (Hslen : length sorted = length l) by apply sort_by_length.
  assert (Hsorted : StronglySorted Z.le sorted) by apply sort_by_sorted.
  assert (Hrange : Forall (fun x => 0 <= x < 2 ^ 53) l).
  { apply Forall_forall. intros x Hx. split.
    - by eapply (proj1 (Forall_forall _ _) Hl).
    - pose proof (total_elem_le l x Hl Hx). lia. }
  assert (HF : Float64s (map float64 l) = map float64 sorted).
  { apply sort_by_map. intros x y Hx Hy. apply float64_Less.
    - by eapply (proj1 (Forall_forall _ _) Hrange).
    - by eapply (proj1 (Forall_forall _ _) Hrange). }
  destruct (percentile_indices n ltac:(lia)) as (H95 & H99 & Hi95 & Hi99).
  rewrite H95, H99 in *.
  destruct (lookup_lt_is_Some_2 sorted 0) as [tmin Hmin]; [lia|].
  destruct (lookup_lt_is_Some_2 sorted (Z.to_nat (95 * n / 100))) as [t95 Ht95]; [lia|].
  destruct (lookup_lt_is_Some_2 sorted (Z.to_nat (99 * n / 100))) as [t99 Ht99]; [lia|].
  destruct (lookup_lt_is_Some_2 sorted (length l - 1)) as [tmax Hmax]; [lia|].
  exists tmin, t95, t99, tmax. repeat (split; [done|]).
  assert (Hsum : foldl float64_add float64_zero (map float64 sorted) = float64 (total l)).
  { change float64_zero with (float64 0).
    rewrite foldl_float64_add; rewrite ?(total_Permutation _ _ Hperm); try done.
    by rewrite Hperm. }
  split.
  { unfold statistics. rewrite HF. cbv zeta.
    rewrite length_map, Hslen, <- Hndef, H95, H99.
    rewrite (at_index_fmap sorted 0 tmin) by done.
    rewrite (at_index_fmap sorted (n - 1) tmax)
      by (try lia; replace (Z.to_nat (n - 1)) with (length l - 1)%nat by lia; done).
    rewrite (at_index_fmap sorted (95 * n / 100) t95 ltac:(lia) Ht95).
    rewrite (at_index_fmap sorted (99 * n / 100) t99 ltac:(lia) Ht99).
    rewrite Hsum. done. }
  assert (Hbounds : Forall (fun x => tmin <= x <= tmax) sorted).
  { apply Forall_lookup. intros i x Hi. pose proof (lookup_lt_Some _ _ _ Hi). split.
    - eapply (StronglySorted_lookup_le sorted 0 i); [done|lia|done|done].
    - eapply (StronglySorted_lookup_le sorted i (length l - 1)); [done|lia|done|done]. }
  pose proof (total_bounds sorted tmin tmax Hbounds) as Ht.
  rewrite (total_Permutation _ _ Hperm), Hslen, <- Hndef in Ht.
  assert (Hin : forall i x, sorted !! i = Some x -> 0 <= x < 2 ^ 53).
  { intros i x Hi. apply (proj1 (Forall_forall _ _) Hrange).
    rewrite <- Hperm. by eapply list_elem_of_lookup_2. }
  split; [split|].
  - eapply (StronglySorted_lookup_le sorted 0 _); [done|lia|done|done].
  - eapply (StronglySorted_lookup_le sorted); [done| |done|done]. lia.
  - split.
    + eapply (StronglySorted_lookup_le sorted); [done| |done|done]. lia.
    + split; [done|]. split; [by eapply Hin|]. by eapply Hin.
Qed.

Lemma latencies_range (l : list Z) :
  Forall (fun x => 0 <= x) l -> total l < 2 ^ 53 ->
  Forall (fun x => 0 <= x < 2 ^ 53) l.
Proof.
  intros Hl Htotal. apply Forall_forall. intros x Hx. split.
  - by eapply (proj1 (Forall_forall _ _) Hl).
  - pose proof (total_elem_le l x Hl Hx). lia.
Qed.

Lemma Float64s_integers (l : list Z) :
  Forall (fun x => 0 <= x < 2 ^ 53) l ->
  Float64s (map float64 l) = map float64 (sort_by Z.ltb l).
Proof.
  intros Hrange. apply sort_by_map. intros x y Hx Hy. apply float64_Less.
  - by eapply (proj1 (Forall_forall _ _) Hrange).
  - by eapply (proj1 (Forall_forall _ _) Hrange).
Qed.

Lemma float64_div_zero (n : Z) :
  0 < n < 2 ^ 53 -> float64_div (float64 0) (float64 n) = float64 0.
Proof. intros Hn. by rewrite (float64_positive n). Qed.

(** The mean of integers between [tmin] and [tmax] lies between them, also
    after the rounding of the division. *)
Lemma mean_between (S n tmin tmax : Z) :
  0 <= S < 2 ^ 53 -> 0 < n < 2 ^ 53 -> 0 <= tmin -> tmax < 2 ^ 53 ->
  tmin * n <= S <= tmax * n ->
  float64_le (float64 tmin) (float64_div (float64 S) (float64 n)) = true
  /\ float64_le (float64_div (float64 S) (float64 n)) (float64 tmax) = true.
Proof.
  intros HS Hn Hmin Hmax [Hlo Hhi].
  assert (Htmax : 0 <= tmax).
  { destruct (Z.le_gt_cases 0 tmax) as [|Hneg]; [done|].
    assert (tmax * n < 0) by (apply Z.mul_neg_pos; lia). lia. }
  assert (Htmin : tmin <= tmax).
  { destruct (Z.le_gt_cases tmin tmax) as [|Hgt]; [done|].
    assert (tmax * n < tmin * n) by (apply Z.mul_lt_mono_pos_r; lia). lia. }
  destruct (Z.eq_dec S 0) as [->|HS0].
  - rewrite float64_div_zero by done.
    assert (tmin = 0) as ->.
    { destruct (Z.eq_dec tmin 0); [done|].
      assert (0 < tmin * n) by (apply Z.mul_pos_pos; lia). lia. }
    rewrite !float64_le_integers by lia. split; apply Z.leb_le; lia.
  - assert (Htmax' : 0 < tmax).
    { destruct (Z.eq_dec tmax 0) as [->|]; lia. }
    split.
    + destruct (Z.eq_dec tmin 0) as [->|Hne].
      * apply (float64_div_bounds S n tmax); lia.
      * apply (float64_div_bounds S n tmin); lia.
    + apply (float64_div_bounds S n tmax); lia.
Qed.

(** ** The claims on the benchmark statistics *)

(** C10: for every iteration count [n] of the [int32] parameter, from 1 up,
    the two percentile indices [int(float64(n) * 0.95)] and
    [int(float64(n) * 0.99)] are at least 0 and below [n], so the two lookups
    in a slice of [n] latencies are within range, with no bounds check. *)
Theorem C10_percentile_indices_within_bounds (n : Z) :
  1 <= n <= max_int32 ->
  0 <= p95Index n < n
  /\ 0 <= p99Index n < n
  /\ forall times : list spec_float,
       Z.of_nat (length times) = n ->
       is_Some (at_index times (p95Index n))
       /\ is_Some (at_index times (p99Index n)).
Proof.
  intros Hn. unfold max_int32 in Hn.
  destruct (percentile_indices n ltac:(lia)) as (_ & _ & H95 & H99).
  split; [lia|]. split; [lia|].
  intros times Hlen. unfold at_index.
  destruct (Z.ltb_spec (p95Index n) 0), (Z.ltb_spec (p99Index n) 0); try lia.
  split; apply lookup_lt_is_Some_2; lia.
Qed.

Lemma C10_percentile_indices_within_bounds_witness :
  0 <= p95Index 2 < 2
  /\ 0 <= p99Index 2 < 2
  /\ forall times : list spec_float,
       Z.of_nat (length times) = 2 ->
       is_Some (at_index times (p95Index 2))
       /\ is_Some (at_index times (p99Index 2)).
Proof.
  apply (C10_percentile_indices_within_bounds 2). vm_compute. split; discriminate.
Defined.

(** The smallest counts: one latency is its own percentiles, and of two the
    larger one is both. *)
Example percentile_indices_of_small_counts :
  p95Index 1 = 0 /\ p99Index 1 = 0 /\ p95Index 2 = 1 /\ p99Index 2 = 1
  /\ p95Index 20 = 19 /\ p99Index 100 = 99.
Proof. repeat split; reflexivity. Qed.

(** C9: for a benchmark case of at least one iteration, the statistics are
    computed (no lookup is out of range) and are ordered:
    min <= avg <= max and min <= p95 <= p99 <= max, where min and max are the
    first and the last element of the latencies sorted in increasing order,
    avg is the binary64 quotient of their sum by their count, and p95 and p99
    are the elements of the sorted latencies at the indices
    floor(count * 95 / 100) and floor(count * 99 / 100).  The latencies are
    what the workers record: whole non-negative milliseconds, adding up to
    less than [2 ^ 53], for an iteration count within [int32]. *)
Theorem C9_benchmark_statistics_ordered (iterations : nat) (elapsed : nat -> Z) :
  (1 <= iterations)%nat ->
  Z.of_nat iterations <= max_int32 ->
  (forall idx, (idx < iterations)%nat -> 0 <= elapsed idx) ->
  total (map elapsed (seq 0 iterations)) < 2 ^ 53 ->
  exists st,
    statistics (recorded iterations elapsed) = Some st
    /\ Float64s (recorded iterations elapsed) ≡ₚ recorded iterations elapsed
    /\ (forall i j a b, (i <= j)%nat ->
          Float64s (recorded iterations elapsed) !! i = Some a ->
          Float64s (recorded iterations elapsed) !! j = Some b ->
          float64_le a b = true)
    /\ Float64s (recorded iterations elapsed) !! 0%nat = Some (minTime st)
    /\ Float64s (recorded iterations elapsed) !! (iterations - 1)%nat = Some (maxTime st)
    /\ avgTime st
       = float64_div (float64 (total (map elapsed (seq 0 iterations))))
           (float64 (Z.of_nat iterations))
    /\ Float64s (recorded iterations elapsed)
         !! Z.to_nat (95 * Z.of_nat iterations / 100) = Some (p95Time st)
    /\ Float64s (recorded iterations elapsed)
         !! Z.to_nat (99 * Z.of_nat iterations / 100) = Some (p99Time st)
    /\ float64_le (minTime st) (avgTime st) = true
    /\ float64_le (avgTime st) (maxTime st) = true
    /\ float64_le (minTime st) (p95Time st) = true
    /\ float64_le (p95Time st) (p99Time st) = true
    /\ float64_le (p99Time st) (maxTime st) = true.
Proof.
  intros Hone Hmax Hnonneg Htotal. unfold max_int32 in Hmax.
  set (l := map elapsed (seq 0 iterations)) in *.
  assert (Hrec : recorded iterations elapsed = map float64 l).
  { unfold recorded, l. by rewrite map_map. }
  assert (Hlen : length l = iterations) by (unfold l; by rewrite length_map, length_seq).
  assert (Hl : Forall (fun x => 0 <= x) l).
  { apply Forall_forall. intros x Hx. unfold l in Hx.
    apply list_elem_of_fmap in Hx as (idx & -> & Hidx).
    apply elem_of_seq in Hidx. apply Hnonneg. lia. }
  pose proof (latencies_range l Hl Htotal) as Hrange.
  pose proof (Float64s_integers l Hrange) as HF.
  assert (Hsrange : Forall (fun x => 0 <= x < 2 ^ 53) (sort_by Z.ltb l))
    by (by rewrite sort_by_Permutation).
  destruct (statistics_integers l) as
    (tmin & t95 & t99 & tmax & Hmin & H95 & H99 & Hlast & Hst & [Ha Hb] & Hc & Hd & He & Hf);
    [lia|lia|done|done|].
  rewrite Hlen in *. rewrite Hrec, HF.
  eexists. split; [exact Hst|]. cbn [minTime maxTime avgTime p95Time p99Time].
  split; [rewrite <- HF; apply sort_by_Permutation|].
  split.
  { intros i j a b Hij Hi Hj. rewrite list_lookup_fmap in Hi, Hj.
    destruct (sort_by Z.ltb l !! i) as [x|] eqn:Hx; [|done].
    destruct (sort_by Z.ltb l !! j) as [y|] eqn:Hy; [|done].
    simpl in Hi, Hj. injection Hi as <-. injection Hj as <-.
    rewrite float64_le_integers.
    - apply Z.leb_le. by eapply (StronglySorted_lookup_le _ i j); [apply sort_by_sorted|..].
    - by eapply (Forall_lookup_1 _ _ _ _ Hsrange).
    - by eapply (Forall_lookup_1 _ _ _ _ Hsrange). }
  rewrite !list_lookup_fmap, Hmin, Hlast, H95, H99.
  repeat (split; [done|]).
  pose proof (total_nonneg l Hl) as Hsum.
  destruct (mean_between (total l) (Z.of_nat iterations) tmin tmax) as [Hlo Hhi];
    [lia..|].
  split; [done|]. split; [done|].
  rewrite !float64_le_integers by lia.
  repeat split; apply Z.leb_le; lia.
Qed.

Lemma C9_benchmark_statistics_ordered_witness :
  exists st,
    statistics (recorded 10 sample_elapsed) = Some st
    /\ Float64s (recorded 10 sample_elapsed) ≡ₚ recorded 10 sample_elapsed
    /\ (forall i j a b, (i <= j)%nat ->
          Float64s (recorded 10 sample_elapsed) !! i = Some a ->
          Float64s (recorded 10 sample_elapsed) !! j = Some b ->
          float64_le a b = true)
    /\ Float64s (recorded 10 sample_elapsed) !! 0%nat = Some (minTime st)
    /\ Float64s (recorded 10 sample_elapsed) !! (10 - 1)%nat = Some (maxTime st)
    /\ avgTime st
       = float64_div (float64 (total (map sample_elapsed (seq 0 10))))
           (float64 (Z.of_nat 10))
    /\ Float64s (recorded 10 sample_elapsed)
         !! Z.to_nat (95 * Z.of_nat 10 / 100) = Some (p95Time st)
    /\ Float64s (recorded 10 sample_elapsed)
         !! Z.to_nat (99 * Z.of_nat 10 / 100) = Some (p99Time st)
    /\ float64_le (minTime st) (avgTime st) = true
    /\ float64_le (avgTime st) (maxTime st) = true
    /\ float64_le (minTime st) (p95Time st) = true
    /\ float64_le (p95Time st) (p99Time st) = true
    /\ float64_le (p99Time st) (maxTime st) = true.
Proof.
  apply (C9_benchmark_statistics_ordered 10 sample_elapsed).
  - lia.
  - vm_compute. discriminate.
  - intros idx _. unfold sample_elapsed. lia.
  - vm_compute. reflexivity.
Defined.

(** Ten iterations with the latencies 3, 0, 7, 4, 1, 8, 5, 2, 9, 6 ms. *)
Example statistics_of_ten_iterations :
  statistics (recorded 10 sample_elapsed)
  = Some {| minTime := float64 0; maxTime := float64 9;
            avgTime := float64_div (float64 45) (float64 10);
            p95Time := float64 9; p99Time := float64 9 |}.
Proof. reflexivity. Qed.

(** * Further properties of the service *)

(** ** The dual check and the router *)

(** A backend is silent on a request when its client is configured and
    returns neither a response nor an error. *)
Lemma probe_silent client unavailable req :
  probe client unavailable req = (None, None)
  <-> exists c, client = Some c /\ c req = (None, None).
Proof.
  destruct client as [c|]; simpl; split.
  - intros H. by exists c.
  - by intros (c' & [= <-] & H).
  - done.
  - by intros (c' & [=] & _).
Qed.

(** X1: the dual check returns either a response marked BOTH and no error, or
    no response and the error "unexpected state in both implementations
    check"; the second happens exactly when one of the two backends is
    configured and returns neither a response nor an error.  The error of a
    backend is never the error of the dual check. *)
Theorem dual_check_response_or_unexpected_state s req :
  let o := checkBothImplementations s req in
  let silent client := exists c, client = Some c /\ c req = (None, None) in
  ((exists r, response o = Some r /\ failure o = None
              /\ ImplementationTag r = Implementation_IMPLEMENTATION_BOTH)
   \/ (response o = None
       /\ failure o = Some "unexpected state in both implementations check"))
  /\ (failure o <> None <-> silent (Spice s) \/ silent (Neo4j s)).
Proof.
  cbv zeta.
  rewrite <- (probe_silent (Spice s) "SpiceDB backend not available" req).
  rewrite <- (probe_silent (Neo4j s) "Neo4j backend not available" req).
  unfold checkBothImplementations.
  destruct (probe (Spice s) _ req) as [[sr|] [se|]];
    destruct (probe (Neo4j s) _ req) as [[nr|] [ne|]]; simpl;
    (split; [first [left; eexists; by repeat split | by right]|]);
    split; first [done | by intros [|] | by left | by right | idtac].
Qed.

(** X2: the service grants nothing by itself.  When the response of the
    router grants the permission, one of the configured clients returned a
    granting response for this request; under the hint "both" that client is
    SpiceDB or Neo4j and it returned no error. *)
Theorem grant_comes_from_a_backend s req r :
  response (CheckPermission s req) = Some r ->
  HasPermission r = true ->
  exists c r0 e,
    (Spice s = Some c \/ Neo4j s = Some c \/ GraphQL s = Some c)
    /\ c req = (Some r0, e) /\ HasPermission r0 = true
    /\ (implementation req = Implementation_IMPLEMENTATION_BOTH ->
        e = None /\ (Spice s = Some c \/ Neo4j s = Some c)).
Proof.
  unfold CheckPermission.
  assert (Hdispatch : forall client impl hint,
    response (dispatch client impl hint req) = Some r -> HasPermission r = true ->
    exists c e, client = Some c /\ c req = (Some r, e)).
  { intros [c|] impl hint; simpl; [|by intros [= <-]].
    destruct (c req) as [r' e] eqn:Hc. simpl. intros -> _. by exists c, e. }
  destruct (implementation req) eqn:Himpl; intros Hr Hp.
  - destruct (Hdispatch _ _ _ Hr Hp) as (c & e & Hc & Hreq).
    exists c, r, e. split; [auto|]. by repeat split.
  - destruct (Hdispatch _ _ _ Hr Hp) as (c & e & Hc & Hreq).
    exists c, r, e. split; [auto|]. by repeat split.
  - destruct (Hdispatch _ _ _ Hr Hp) as (c & e & Hc & Hreq).
    exists c, r, e. split; [auto|]. by repeat split.
  - destruct (Hdispatch _ _ _ Hr Hp) as (c & e & Hc & Hreq).
    exists c, r, e. split; [auto|]. by repeat split.
  - revert Hr. unfold checkBothImplementations.
    destruct (Spice s) as [sc|] eqn:Hs; destruct (Neo4j s) as [nc|] eqn:Hn; simpl.
    + destruct (sc req) as [[sr|] [se|]] eqn:Hsc;
        destruct (nc req) as [[nr|] [ne|]] eqn:Hnc; simpl; intros [= <-];
        simpl in Hp; try done.
      * exists nc, nr, None. auto 10.
      * exists sc, sr, None. auto 10.
      * exists sc, sr, None. auto 10.
      * exists sc, sr, None. auto 10.
      * exists nc, nr, None. auto 10.
    + destruct (sc req) as [[sr|] [se|]] eqn:Hsc; simpl; intros [= <-];
        simpl in Hp; try done.
      exists sc, sr, None. auto 10.
    + destruct (nc req) as [[nr|] [ne|]] eqn:Hnc; simpl; intros [= <-];
        simpl in Hp; try done.
      exists nc, nr, None. auto 10.
    + intros [= <-]. done.
Qed.

Lemma grant_comes_from_a_backend_witness :
  exists c r0 e,
    (Spice sample_service = Some c \/ Neo4j sample_service = Some c
     \/ GraphQL sample_service = Some c)
    /\ c (hinted "both") = (Some r0, e) /\ HasPermission r0 = true
    /\ (implementation (hinted "both") = Implementation_IMPLEMENTATION_BOTH ->
        e = None
        /\ (Spice sample_service = Some c \/ Neo4j sample_service = Some c)).
Proof.
  apply (grant_comes_from_a_backend sample_service (hinted "both")
           (set_ErrorMessage "SpiceDB unavailable, using Neo4j only: "
              (set_Implementation Implementation_IMPLEMENTATION_BOTH
                 (granted Implementation_IMPLEMENTATION_NEO4J))));
    reflexivity.
Defined.

(** ** The batch executor: ceiling and counters *)

Lemma in_flight_insert_in_flight ps i :
  ps !! i = Some Blocked ->
  in_flight (<[i := InFlight]> ps) = S (in_flight ps).
Proof.
  unfold in_flight. revert i. induction ps as [|q ps IH]; intros [|i] Hi;
    simpl in *; try done.
  - injection Hi as ->. rewrite !filter_cons. repeat case_decide; simpl; congruence.
  - rewrite !filter_cons. case_decide; simpl; by rewrite IH.
Qed.

Lemma in_flight_insert_finished ps i :
  ps !! i = Some InFlight ->
  S (in_flight (<[i := Finished]> ps)) = in_flight ps.
Proof.
  unfold in_flight. revert i. induction ps as [|q ps IH]; intros [|i] Hi;
    simpl in *; try done.
  - injection Hi as ->. rewrite !filter_cons. repeat case_decide; simpl; congruence.
  - rewrite !filter_cons. case_decide; simpl; by rewrite <- (IH i).
Qed.

Lemma run_app svc requests cap schedule1 schedule2 st :
  run svc requests cap (schedule1 ++ schedule2) st
  = match run svc requests cap schedule1 st with
    | Some st1 => run svc requests cap schedule2 st1
    | None => None
    end.
Proof.
  revert st. induction schedule1 as [|ev schedule1 IH]; intros st; simpl; [done|].
  by destruct (step svc requests cap ev st).
Qed.

Lemma run_in_flight svc requests cap schedule st st' :
  Z.of_nat (in_flight (phases st)) <= cap ->
  run svc requests cap schedule st = Some st' ->
  Z.of_nat (in_flight (phases st')) <= cap.
Proof.
  revert st. induction schedule as [|ev schedule IH]; intros st Hst Hrun;
    simpl in Hrun; [by simplify_eq|].
  destruct (step svc requests cap ev st) as [st1|] eqn:Hstep; [|done].
  apply (IH st1); [|done]. clear IH Hrun.
  destruct ev as [idx|idx]; simpl in Hstep.
  - destruct (phases st !! idx) as [[]|] eqn:Hidx; try done.
    case_bool_decide; [|done]. simplify_eq. simpl.
    rewrite in_flight_insert_in_flight by done. lia.
  - destruct (phases st !! idx) as [[]|] eqn:Hidx; try done.
    destruct (requests !! idx); [|done]. simplify_eq. simpl.
    pose proof (in_flight_insert_finished _ _ Hidx). lia.
Qed.

(** X3: at every point of every execution of the batch (after every prefix
    of a schedule under which the call returns) the workers between the send
    to the semaphore and their end are at most as many as the ceiling: the
    ceiling of the request when it is positive, the number of requests
    otherwise. *)
Theorem bulk_never_exceeds_ceiling svc req schedule totalTime resp :
  Requests req <> [] ->
  CheckBulkPermissions svc req schedule totalTime = Some resp ->
  let ceiling :=
    if MaxConcurrency req <=? 0
    then int32 (Z.of_nat (length (Requests req)))
    else MaxConcurrency req in
  forall k, exists st,
    run svc (Requests req) ceiling (take k schedule)
      (start (length (Requests req))) = Some st
    /\ Z.of_nat (in_flight (phases st)) <= ceiling.
Proof.
  intros Hne. unfold CheckBulkPermissions.
  destruct (Requests req) as [|request0 requests0] eqn:Hreqs; [done|].
  rewrite <- Hreqs. clear Hreqs Hne request0 requests0. cbv zeta.
  set (ceiling := if MaxConcurrency req <=? 0
                  then int32 (Z.of_nat (length (Requests req)))
                  else MaxConcurrency req).
  destruct (Z.ltb_spec ceiling 0) as [|Hcap]; [done|].
  intros Hresp k.
  destruct (run svc (Requests req) ceiling schedule _) as [st'|] eqn:Hrun; [|done].
  rewrite <- (take_drop k schedule), run_app in Hrun.
  destruct (run svc (Requests req) ceiling (take k schedule) _) as [st|] eqn:Hk;
    [|done].
  exists st. split; [done|].
  eapply run_in_flight; [|exact Hk]. simpl.
  pose proof (in_flight_none 0 (length (Requests req))) as H0. simpl in H0.
  rewrite H0. lia.
Qed.

Lemma bulk_never_exceeds_ceiling_witness :
  exists st,
    run sample_service (Requests sample_batch) 2 (take 2 sample_schedule)
      (start (length (Requests sample_batch))) = Some st
    /\ Z.of_nat (in_flight (phases st)) <= 2.
Proof.
  refine (bulk_never_exceeds_ceiling sample_service sample_batch sample_schedule 7
            _ _ _ 2%nat); [discriminate|reflexivity].
Defined.

Lemma tally_le verdict ps requests :
  (tally verdict ps requests <= finished ps)%nat.
Proof.
  revert requests. induction ps as [|p ps IH]; intros [|request requests];
    simpl; try lia.
  unfold finished in *. rewrite filter_cons.
  specialize (IH requests).
  case_bool_decide; case_decide; try done; destruct (verdict request); simpl; lia.
Qed.

Lemma tally_insert_in_flight verdict ps requests i :
  ps !! i = Some Blocked ->
  tally verdict (<[i := InFlight]> ps) requests = tally verdict ps requests.
Proof.
  revert requests i. induction ps as [|p ps IH]; intros [|request requests] [|i] Hi;
    simpl in *; try done.
  - injection Hi as ->. done.
  - by rewrite IH.
Qed.

Lemma tally_insert_finished verdict ps requests i p request :
  ps !! i = Some p -> p <> Finished -> requests !! i = Some request ->
  tally verdict (<[i := Finished]> ps) requests
  = ((if verdict request then 1 else 0) + tally verdict ps requests)%nat.
Proof.
  revert requests i. induction ps as [|q ps IH]; intros [|request' requests] [|i] Hi Hp Hreq;
    simpl in *; try done.
  - simplify_eq. by repeat case_bool_decide.
  - rewrite (IH requests i) by done. lia.
Qed.

Lemma tally_start verdict n requests :
  tally verdict (replicate n Blocked) requests = 0%nat.
Proof.
  revert requests. induction n as [|n IH]; intros [|request requests]; simpl; auto.
Qed.

Lemma tally_joined verdict ps requests :
  length ps = length requests -> Forall (fun p => p = Finished) ps ->
  tally verdict ps requests = length (List.filter verdict requests).
Proof.
  revert requests. induction ps as [|p ps IH]; intros [|request requests] Hlen Hall;
    simpl in *; try done.
  apply Forall_cons in Hall as [-> Hall].
  rewrite bool_decide_eq_true_2 by done. simpl.
  rewrite (IH requests) by (done || lia).
  by destruct (verdict request).
Qed.

Lemma run_counters svc requests cap schedule st st' :
  Z.of_nat (length requests) <= max_int32 ->
  invariant svc requests st ->
  successCount st = Z.of_nat (tally (fun r => negb (raises svc r)) (phases st) requests) ->
  errorCount st = Z.of_nat (tally (raises svc) (phases st) requests) ->
  run svc requests cap schedule st = Some st' ->
  successCount st' = Z.of_nat (tally (fun r => negb (raises svc r)) (phases st') requests)
  /\ errorCount st' = Z.of_nat (tally (raises svc) (phases st') requests).
Proof.
  intros Hmax. revert st. induction schedule as [|ev schedule IH];
    intros st Hinv Hs He Hrun; simpl in Hrun; [by simplify_eq|].
  destruct (step svc requests cap ev st) as [st1|] eqn:Hstep; [|done].
  apply (IH st1); try done.
  { by eapply invariant_step. }
  - clear IH Hrun. destruct ev as [idx|idx]; simpl in Hstep.
    + destruct (phases st !! idx) as [[]|] eqn:Hidx; try done.
      case_bool_decide; [|done]. simplify_eq. simpl.
      by rewrite tally_insert_in_flight.
    + destruct (phases st !! idx) as [[]|] eqn:Hidx; try done.
      destruct (requests !! idx) as [request|] eqn:Hreq; [|done].
      pose proof (finished_lt _ _ _ Hidx ltac:(done)) as Hlt.
      pose proof (tally_le (fun r => negb (raises svc r)) (phases st) requests).
      destruct Hinv as [Hp _ _ _ _ _].
      simplify_eq. simpl.
      rewrite (tally_insert_finished _ _ _ _ _ _ Hidx ltac:(done) Hreq).
      unfold raises at 1. destruct (failure (CheckPermission svc request)); simpl.
      * done.
      * rewrite int32_small; lia.
  - clear IH Hrun. destruct ev as [idx|idx]; simpl in Hstep.
    + destruct (phases st !! idx) as [[]|] eqn:Hidx; try done.
      case_bool_decide; [|done]. simplify_eq. simpl.
      by rewrite tally_insert_in_flight.
    + destruct (phases st !! idx) as [[]|] eqn:Hidx; try done.
      destruct (requests !! idx) as [request|] eqn:Hreq; [|done].
      pose proof (finished_lt _ _ _ Hidx ltac:(done)) as Hlt.
      pose proof (tally_le (raises svc) (phases st) requests).
      destruct Hinv as [Hp _ _ _ _ _].
      simplify_eq. simpl.
      rewrite (tally_insert_finished _ _ _ _ _ _ Hidx ltac:(done) Hreq).
      unfold raises at 1. destruct (failure (CheckPermission svc request)); simpl.
      * rewrite int32_small; lia.
      * done.
Qed.

(** The counters when the call returns. *)
Lemma bulk_counters svc req schedule totalTime resp :
  Z.of_nat (length (Requests req)) <= max_int32 ->
  CheckBulkPermissions svc req schedule totalTime = Some resp ->
  ErrorCount resp = Z.of_nat (length (List.filter (raises svc) (Requests req)))
  /\ SuccessCount resp
     = Z.of_nat (length (List.filter (fun r => negb (raises svc r)) (Requests req)))
  /\ Responses resp
     = map (fun request => slot (CheckPermission svc request)) (Requests req).
Proof.
  intros Hmax. unfold CheckBulkPermissions.
  destruct (Requests req) as [|request0 requests0] eqn:Hreqs.
  { by intros [= <-]. }
  rewrite <- Hreqs in *. clear Hreqs request0 requests0.
  set (cap := if MaxConcurrency req <=? 0
              then int32 (Z.of_nat (length (Requests req)))
              else MaxConcurrency req).
  destruct (cap <? 0); [done|].
  destruct (run svc (Requests req) cap schedule _) as [st|] eqn:Hrun; [|done].
  destruct (joined st) eqn:Hj; [|done]. intros [= <-]. simpl.
  pose proof (invariant_run svc _ cap schedule _ _ Hmax
                (invariant_start svc (Requests req)) Hrun) as Hinv.
  destruct (invariant_joined svc _ st Hinv Hj) as [Hr _].
  destruct (run_counters svc _ cap schedule _ st Hmax
              (invariant_start svc (Requests req))) as [Hs He]; try done.
  - simpl. by rewrite tally_start.
  - simpl. by rewrite tally_start.
  - apply bool_decide_eq_true in Hj. destruct Hinv as [Hp _ _ _ _ _].
    rewrite Hs, He, !tally_joined by done. done.
Qed.

(** X4: whatever the schedule, the error counter of the batch response is
    the number of requests for which the router returns an error, and the
    success counter is the number of the other requests, whether their
    response grants the permission or not. *)
Theorem bulk_counters_count_router_errors svc req schedule totalTime resp :
  Z.of_nat (length (Requests req)) <= max_int32 ->
  CheckBulkPermissions svc req schedule totalTime = Some resp ->
  ErrorCount resp = Z.of_nat (length (List.filter (raises svc) (Requests req)))
  /\ SuccessCount resp
     = Z.of_nat (length (List.filter (fun r => negb (raises svc r)) (Requests req))).
Proof.
  intros Hmax Hresp.
  destruct (bulk_counters svc req schedule totalTime resp Hmax Hresp) as (He & Hs & _).
  done.
Qed.

Lemma bulk_counters_count_router_errors_witness :
  exists resp,
    CheckBulkPermissions sample_service sample_batch sample_schedule 7 = Some resp
    /\ ErrorCount resp
       = Z.of_nat (length (List.filter (raises sample_service) (Requests sample_batch)))
    /\ SuccessCount resp
       = Z.of_nat (length (List.filter (fun r => negb (raises sample_service r))
                             (Requests sample_batch))).
Proof.
  eexists. split; [reflexivity|].
  apply (bulk_counters_count_router_errors sample_service sample_batch
           sample_schedule 7); [vm_compute; discriminate|reflexivity].
Defined.

Lemma filter_all {A : Type} (f : A -> bool) (l : list A) :
  (forall x, x ∈ l -> f x = true) -> List.filter f l = l.
Proof.
  induction l as [|x l IH]; intros H; simpl; [done|].
  rewrite (H x) by apply list_elem_of_here. f_equal. apply IH.
  intros y Hy. apply H. by apply list_elem_of_further.
Qed.

Lemma filter_none {A : Type} (f : A -> bool) (l : list A) :
  (forall x, x ∈ l -> f x = false) -> List.filter f l = [].
Proof.
  induction l as [|x l IH]; intros H; simpl; [done|].
  rewrite (H x) by apply list_elem_of_here. apply IH.
  intros y Hy. apply H. by apply list_elem_of_further.
Qed.

(** X5: when every request of a batch names a single backend that is not
    configured, all of them are counted as successes and none as an error,
    although every response denies the permission. *)
Theorem bulk_counts_unconfigured_backends_as_successes
    svc req schedule totalTime resp :
  Z.of_nat (length (Requests req)) <= max_int32 ->
  (forall request, request ∈ Requests req -> selected svc request = Some None) ->
  CheckBulkPermissions svc req schedule totalTime = Some resp ->
  SuccessCount resp = Z.of_nat (length (Requests req))
  /\ ErrorCount resp = 0
  /\ length (Responses resp) = length (Requests req)
  /\ forall i m, Responses resp !! i = Some m ->
       exists r, m = Some r /\ HasPermission r = false.
Proof.
  intros Hmax Hsel Hresp.
  assert (Hraises : forall request, request ∈ Requests req ->
            raises svc request = false
            /\ exists r, slot (CheckPermission svc request) = Some r
                         /\ HasPermission r = false).
  { intros request Hin. specialize (Hsel request Hin).
    unfold raises, slot, selected, CheckPermission in *.
    destruct (implementation request); simplify_eq; rewrite Hsel; simpl;
      (split; [done|]); eexists; by split. }
  destruct (bulk_counters svc req schedule totalTime resp Hmax Hresp)
    as (He & Hs & Hr).
  rewrite He, Hs, Hr.
  rewrite (filter_none (raises svc)) by (intros x Hx; by apply Hraises).
  rewrite filter_all by (intros x Hx; by rewrite (proj1 (Hraises x Hx))).
  repeat split; try done.
  - by rewrite length_map.
  - intros i m Hi. rewrite list_lookup_fmap in Hi.
    destruct (Requests req !! i) as [request|] eqn:Hreq; [|done].
    simpl in Hi. injection Hi as <-.
    destruct (Hraises request) as (_ & r & Hslot & Hp).
    { by eapply list_elem_of_lookup_2. }
    by exists r.
Qed.

Lemma bulk_counts_unconfigured_backends_as_successes_witness :
  exists resp,
    CheckBulkPermissions bare_service single_batch (one_by_one 0 3) 7 = Some resp
    /\ SuccessCount resp = Z.of_nat (length (Requests single_batch))
    /\ ErrorCount resp = 0
    /\ length (Responses resp) = length (Requests single_batch)
    /\ forall i m, Responses resp !! i = Some m ->
         exists r, m = Some r /\ HasPermission r = false.
Proof.
  eexists. split; [reflexivity|].
  apply (bulk_counts_unconfigured_backends_as_successes bare_service single_batch
           (one_by_one 0 3) 7).
  - vm_compute. discriminate.
  - intros request Hin.
    repeat (apply elem_of_cons in Hin as [->|Hin]; [reflexivity|]).
    by apply elem_of_nil in Hin.
  - reflexivity.
Defined.

(** ** The streaming call *)

(** The response the handler sends is the one a batch worker stores. *)
Lemma stream_unfold svc Send k req incoming last :
  stream.StreamPermissionChecks svc Send k (req :: incoming) last
  = match Send k (slot (CheckPermission svc req)) with
    | Some e => ([], Some e)
    | None =>
        (slot (CheckPermission svc req)
           :: fst (stream.StreamPermissionChecks svc Send (S k) incoming last),
         snd (stream.StreamPermissionChecks svc Send (S k) incoming last))
    end.
Proof.
  simpl. unfold slot, diagnostic.
  destruct (Send k _); [done|].
  by destruct (stream.StreamPermissionChecks svc Send (S k) incoming last).
Qed.

Lemma stream_all_sent svc Send incoming : forall k,
  (forall i m, Send i m = None) ->
  stream.StreamPermissionChecks svc Send k incoming stream.EOF
  = (map (fun request => slot (CheckPermission svc request)) incoming, None).
Proof.
  induction incoming as [|req incoming IH]; intros k HSend; [done|].
  rewrite stream_unfold, HSend, IH by done. done.
Qed.

(** X6: what the handler of the stream does in general.  The responses sent
    are the answers to a prefix of the requests, in order, each one the
    response a batch worker would store for the request; every one of their
    sends returned nil.  The handler stops before the end of the requests
    only when a send fails, and returns the error of that send; when all
    requests are answered it returns nil at [io.EOF] and the error of
    [stream.Recv] otherwise.  An error of the router never ends the stream. *)
Theorem stream_stops_only_on_transport_errors svc Send k incoming last :
  let out := stream.StreamPermissionChecks svc Send k incoming last in
  let answers := map (fun request => slot (CheckPermission svc request)) incoming in
  fst out = take (length (fst out)) answers
  /\ (forall i m, fst out !! i = Some m -> Send (k + i)%nat m = None)
  /\ match answers !! length (fst out) with
     | Some m => snd out = Send (k + length (fst out))%nat m /\ snd out <> None
     | None =>
         snd out = match last with
                   | stream.EOF => None
                   | stream.RecvError e => Some e
                   end
     end.
Proof.
  cbv zeta. revert k. induction incoming as [|req incoming IH]; intros k.
  - simpl. destruct last; simpl; repeat split; try done;
      intros i m Hi; by rewrite lookup_nil in Hi.
  - rewrite stream_unfold.
    destruct (Send k (slot (CheckPermission svc req))) as [e|] eqn:HSend.
    + cbn [fst snd length take map lookup list_lookup]. split; [done|]. split.
      * intros i m Hi. by rewrite lookup_nil in Hi.
      * rewrite Nat.add_0_r, HSend. done.
    + destruct (IH (S k)) as (Hsent & Hok & Hres). cbn [fst snd length].
      split; [|split].
      * simpl. by rewrite <- Hsent.
      * intros [|i] m Hi; simpl in Hi.
        -- injection Hi as <-. by rewrite Nat.add_0_r.
        -- replace (k + S i)%nat with (S k + i)%nat by lia. by apply Hok.
      * cbn [map lookup list_lookup].
        change ((slot (CheckPermission svc req)
                   :: map (fun request => slot (CheckPermission svc request)) incoming)
                  !! S (length (fst (stream.StreamPermissionChecks svc Send (S k) incoming last))))
          with (map (fun request => slot (CheckPermission svc request)) incoming
                  !! length (fst (stream.StreamPermissionChecks svc Send (S k) incoming last))).
        replace (k + S (length (fst (stream.StreamPermissionChecks svc Send (S k) incoming last))))%nat
          with (S k + length (fst (stream.StreamPermissionChecks svc Send (S k) incoming last)))%nat
          by lia.
        done.
Qed.

(** X7: when no send fails and the caller closes the stream, the handler
    returns nil and has sent exactly the responses the batch call returns for
    the same requests, in the same order, whatever the schedule of the
    batch. *)
Theorem stream_sends_what_the_batch_returns
    svc Send req schedule totalTime resp :
  (forall i m, Send i m = None) ->
  Z.of_nat (length (Requests req)) <= max_int32 ->
  CheckBulkPermissions svc req schedule totalTime = Some resp ->
  stream.StreamPermissionChecks svc Send 0 (Requests req) stream.EOF
  = (Responses resp, None).
Proof.
  intros HSend Hmax Hresp.
  destruct (bulk_counters svc req schedule totalTime resp Hmax Hresp)
    as (_ & _ & ->).
  by apply stream_all_sent.
Qed.

Lemma stream_sends_what_the_batch_returns_witness :
  exists resp,
    CheckBulkPermissions sample_service sample_batch sample_schedule 7 = Some resp
    /\ stream.StreamPermissionChecks sample_service sample_Send 0
         (Requests sample_batch) stream.EOF
       = (Responses resp, None).
Proof.
  eexists. split; [reflexivity|].
  apply (stream_sends_what_the_batch_returns sample_service sample_Send
           sample_batch sample_schedule 7).
  - reflexivity.
  - vm_compute. discriminate.
  - reflexivity.
Defined.

(** ** The benchmark *)

Lemma finished_start (n : nat) : finished (replicate n Blocked) = 0%nat.
Proof.
  unfold finished. induction n as [|k IH]; [done|].
  simpl. rewrite filter_cons. by case_decide.
Qed.

Lemma finished_with_insert_in_flight verdict ps : forall i k,
  ps !! i = Some Blocked ->
  finished_with verdict k (<[i := InFlight]> ps) = finished_with verdict k ps.
Proof.
  induction ps as [|p ps IH]; intros [|i] k Hi; simpl in *; try done.
  - by injection Hi as ->.
  - by rewrite IH.
Qed.

Lemma finished_with_insert_finished verdict ps : forall i k p,
  ps !! i = Some p -> p <> Finished ->
  finished_with verdict k (<[i := Finished]> ps)
  = ((if verdict (k + i)%nat then 1 else 0) + finished_with verdict k ps)%nat.
Proof.
  induction ps as [|q ps IH]; intros [|i] k p Hi Hp; simpl in *; try done.
  - simplify_eq. rewrite Nat.add_0_r. by repeat case_bool_decide.
  - rewrite (IH i (S k) p) by done.
    replace (S k + i)%nat with (k + S i)%nat by lia. lia.
Qed.

Lemma finished_with_start verdict n : forall k,
  finished_with verdict k (replicate n Blocked) = 0%nat.
Proof. induction n as [|n IH]; intros k; simpl; auto. Qed.

Lemma finished_with_joined verdict ps : forall k,
  Forall (fun p => p = Finished) ps ->
  finished_with verdict k ps = length (List.filter verdict (seq k (length ps))).
Proof.
  induction ps as [|p ps IH]; intros k Hall; simpl; [done|].
  apply Forall_cons in Hall as [-> Hall].
  rewrite bool_decide_eq_true_2 by done. simpl.
  rewrite (IH (S k)) by done. by destruct (verdict k).
Qed.

Lemma finished_with_le verdict ps : forall k,
  (finished_with verdict k ps <= finished ps)%nat.
Proof.
  induction ps as [|p ps IH]; intros k; simpl; [lia|].
  unfold finished in *. rewrite filter_cons. specialize (IH (S k)).
  case_bool_decide; case_decide; try done; destruct (verdict k); simpl; lia.
Qed.

Section Benchmark.

Variable svc : nat -> Service.
Variable testCase : benchmark.TestCase.t.
Variable concurrency : Z.
Variable elapsed : nat -> Z.
Variable n : nat.

Hypothesis n_int32 : Z.of_nat n <= max_int32.

Lemma benchmark_invariant_start :
  benchmark_invariant svc testCase elapsed n (benchmark.start n).
Proof.
  split; simpl; rewrite ?length_replicate, ?finished_with_start; try done.
  intros i Hi. apply lookup_replicate in Hi as [? _]. done.
Qed.

Lemma benchmark_invariant_step ev st st' :
  benchmark_invariant svc testCase elapsed n st ->
  benchmark.step svc testCase concurrency elapsed ev st = Some st' ->
  benchmark_invariant svc testCase elapsed n st'.
Proof.
  intros [Hp Ht Hs Hsc Hfc] Hstep. destruct ev as [idx|idx]; simpl in Hstep.
  - destruct (benchmark.phases st !! idx) as [[]|] eqn:Hidx; try done.
    case_bool_decide; [|done]. simplify_eq. split; simpl; try done.
    + by rewrite length_insert.
    + intros i Hi. apply Hs.
      destruct (decide (i = idx)) as [->|Hne].
      * rewrite list_lookup_insert_eq in Hi; [done|]. by eapply lookup_lt_Some.
      * by rewrite list_lookup_insert_ne in Hi.
    + by rewrite finished_with_insert_in_flight.
    + by rewrite finished_with_insert_in_flight.
  - destruct (benchmark.phases st !! idx) as [[]|] eqn:Hidx; try done.
    pose proof (finished_lt _ _ _ Hidx ltac:(done)) as Hlt.
    pose proof (finished_with_le (fun idx => passes (svc idx) testCase)
                  (benchmark.phases st) 0) as Hle1.
    pose proof (finished_with_le (fun idx => misses (svc idx) testCase)
                  (benchmark.phases st) 0) as Hle2.
    pose proof (finished_with_insert_finished
                  (fun idx => passes (svc idx) testCase) _ idx 0 _ Hidx ltac:(done))
      as Hpass.
    pose proof (finished_with_insert_finished
                  (fun idx => misses (svc idx) testCase) _ idx 0 _ Hidx ltac:(done))
      as Hmiss.
    cbn beta in Hpass, Hmiss. change (0 + idx)%nat with idx in Hpass, Hmiss.
    assert (Hpv : passes (svc idx) testCase = passes (svc idx) testCase) by done.
    assert (Hmv : misses (svc idx) testCase = misses (svc idx) testCase) by done.
    unfold passes at 2 in Hpv. unfold misses at 2 in Hmv.
    assert (Hslots : forall i,
      <[idx := Finished]> (benchmark.phases st) !! i = Some Finished ->
      <[idx := float64 (elapsed idx)]> (benchmark.times st) !! i
      = Some (float64 (elapsed i))).
    { intros i Hi. destruct (decide (i = idx)) as [->|Hne].
      - rewrite list_lookup_insert_eq; [done|].
        rewrite Ht, <- Hp. by eapply lookup_lt_Some.
      - rewrite list_lookup_insert_ne by done.
        rewrite list_lookup_insert_ne in Hi by done. by apply Hs. }
    destruct (failure (CheckPermission (svc idx) (benchmark.permReq testCase)))
      as [e|] eqn:Hf.
    + rewrite Hpv in Hpass. rewrite Hmv in Hmiss.
      simplify_eq. split; simpl; rewrite ?length_insert; try done.
      * by rewrite Hpass.
      * rewrite Hmiss, Hfc, int32_small; lia.
    + destruct (response (CheckPermission (svc idx) (benchmark.permReq testCase)))
        as [resp|] eqn:Hr.
      * destruct (Bool.eqb (HasPermission resp)
                    (benchmark.TestCase.ExpectedResult testCase)) eqn:Heq;
          rewrite Hpv in Hpass; rewrite Hmv in Hmiss; cbn [negb] in Hmiss;
          simplify_eq; split; simpl; rewrite ?length_insert; try done.
        -- rewrite Hpass, Hsc, int32_small; lia.
        -- by rewrite Hmiss.
        -- by rewrite Hpass.
        -- rewrite Hmiss, Hfc, int32_small; lia.
      * rewrite Hpv in Hpass. rewrite Hmv in Hmiss.
        simplify_eq. split; simpl; rewrite ?length_insert; try done.
        -- by rewrite Hpass.
        -- by rewrite Hmiss.
Qed.

Lemma benchmark_invariant_run schedule st st' :
  benchmark_invariant svc testCase elapsed n st ->
  benchmark.run svc testCase concurrency elapsed schedule st = Some st' ->
  benchmark_invariant svc testCase elapsed n st'.
Proof.
  revert st. induction schedule as [|ev schedule IH]; intros st Hinv Hrun;
    simpl in Hrun; [by simplify_eq|].
  destruct (benchmark.step svc testCase concurrency elapsed ev st)
    as [st1|] eqn:Hstep; [|done].
  eapply IH; [|done]. by eapply benchmark_invariant_step.
Qed.

(** At the join the slice of times holds the measurement of every worker at
    the index of the worker, and the counters hold the numbers of the calls
    that passed and of the calls that missed. *)
Lemma benchmark_invariant_joined st :
  benchmark_invariant svc testCase elapsed n st ->
  benchmark.joined st = true ->
  benchmark.times st = recorded n elapsed
  /\ benchmark.successCount st = Z.of_nat (length (passing svc testCase n))
  /\ benchmark.failedCount st = Z.of_nat (length (missing svc testCase n)).
Proof.
  intros [Hp Ht Hs Hsc Hfc] Hj. apply bool_decide_eq_true in Hj. split.
  - apply list_eq. intros i. unfold recorded. rewrite list_lookup_fmap.
    destruct (decide (i < n)%nat) as [Hi|Hi].
    + rewrite lookup_seq_lt by done. simpl. apply Hs.
      destruct (lookup_lt_is_Some_2 (benchmark.phases st) i) as [p Hpi]; [lia|].
      rewrite Hpi. f_equal. by eapply (Forall_lookup_1 _ _ _ _ Hj).
    + rewrite lookup_seq_ge by lia. simpl. apply lookup_ge_None. lia.
  - unfold passing, missing. rewrite Hsc, Hfc, !finished_with_joined by done.
    by rewrite Hp.
Qed.

End Benchmark.

(** Every call that is answered passes or misses, and none does both. *)
Lemma passes_or_misses (s : Service) testCase :
  response (CheckPermission s (benchmark.permReq testCase)) <> None
  \/ failure (CheckPermission s (benchmark.permReq testCase)) <> None ->
  misses s testCase = negb (passes s testCase).
Proof.
  unfold passes, misses.
  destruct (failure _); [done|]. destruct (response _); [|by intros [|]].
  by destruct (Bool.eqb _ _).
Qed.

Lemma passing_and_missing svc testCase (l : list nat) :
  (forall idx, idx ∈ l ->
     response (CheckPermission (svc idx) (benchmark.permReq testCase)) <> None
     \/ failure (CheckPermission (svc idx) (benchmark.permReq testCase)) <> None) ->
  (length (List.filter (fun idx => passes (svc idx) testCase) l)
   + length (List.filter (fun idx => misses (svc idx) testCase) l))%nat
  = length l.
Proof.
  induction l as [|idx l IH]; intros Hl; [done|]. simpl.
  rewrite (passes_or_misses (svc idx) testCase) by (apply Hl, list_elem_of_here).
  assert (IH' := IH (fun i Hi => Hl i (list_elem_of_further _ _ _ Hi))).
  destruct (passes (svc idx) testCase); simpl; lia.
Qed.

(** *** Progress of the workers *)

Lemma benchmark_run_app svc testCase cap elapsed schedule1 schedule2 st :
  benchmark.run svc testCase cap elapsed (schedule1 ++ schedule2) st
  = match benchmark.run svc testCase cap elapsed schedule1 st with
    | Some st1 => benchmark.run svc testCase cap elapsed schedule2 st1
    | None => None
    end.
Proof.
  revert st. induction schedule1 as [|ev schedule1 IH]; intros st; simpl; [done|].
  by destruct (benchmark.step svc testCase cap elapsed ev st).
Qed.

Lemma unfinished_worker ps :
  (finished ps < length ps)%nat -> exists i p, ps !! i = Some p /\ p <> Finished.
Proof.
  unfold finished. induction ps as [|q ps IH]; simpl; [lia|].
  rewrite filter_cons. case_decide as Hq; simpl; intros Hlt.
  - destruct IH as (i & p & Hi & Hp); [lia|]. by exists (S i), p.
  - by exists 0%nat, q.
Qed.

Lemma worker_in_flight ps :
  (0 < in_flight ps)%nat -> exists i, ps !! i = Some InFlight.
Proof.
  unfold in_flight. induction ps as [|q ps IH]; simpl; [lia|].
  rewrite filter_cons. case_decide as Hq; simpl; intros Hlt.
  - exists 0%nat. by rewrite Hq.
  - destruct IH as [i Hi]; [lia|]. by exists (S i).
Qed.

Lemma finished_all ps :
  finished ps = length ps -> Forall (fun p => p = Finished) ps.
Proof.
  unfold finished. induction ps as [|q ps IH]; simpl; [done|].
  rewrite filter_cons. pose proof (length_filter (fun p => p = Finished) ps).
  case_decide as Hq; simpl; intros Hlen; [|lia].
  apply Forall_cons. split; [done|]. apply IH. lia.
Qed.

(** A worker in flight can run to its end, whatever its call returns. *)
Lemma benchmark_complete svc testCase cap elapsed idx st :
  benchmark.phases st !! idx = Some InFlight ->
  exists st',
    benchmark.step svc testCase cap elapsed (Complete idx) st = Some st'
    /\ benchmark.phases st' = <[idx := Finished]> (benchmark.phases st).
Proof.
  intros Hidx. simpl. rewrite Hidx.
  destruct (failure _); [by eexists|].
  destruct (response _); [|by eexists].
  destruct (Bool.eqb _ _); by eexists.
Qed.

(** A blocked worker is admitted when a place of [sem] is free. *)
Lemma benchmark_acquire svc testCase cap elapsed idx st :
  benchmark.phases st !! idx = Some Blocked ->
  Z.of_nat (in_flight (benchmark.phases st)) < cap ->
  benchmark.step svc testCase cap elapsed (Acquire idx) st
  = Some {| benchmark.phases := <[idx := InFlight]> (benchmark.phases st);
            benchmark.times := benchmark.times st;
            benchmark.successCount := benchmark.successCount st;
            benchmark.failedCount := benchmark.failedCount st |}.
Proof. intros Hidx Hcap. simpl. by rewrite Hidx, bool_decide_eq_true_2. Qed.

(** From every state the workers can be scheduled to the join. *)
Lemma benchmark_continues svc testCase cap elapsed (m : nat) : forall st,
  1 <= cap ->
  (length (benchmark.phases st) - finished (benchmark.phases st))%nat = m ->
  exists schedule st',
    benchmark.run svc testCase cap elapsed schedule st = Some st'
    /\ benchmark.joined st' = true.
Proof.
  induction m as [|m IH]; intros st Hcap Hm.
  - exists [], st. split; [done|]. apply bool_decide_eq_true, finished_all.
    pose proof (finished_le (benchmark.phases st)). lia.
  - assert (Hstep : exists schedule st1,
              benchmark.run svc testCase cap elapsed schedule st = Some st1
              /\ exists idx p, benchmark.phases st !! idx = Some p /\ p <> Finished
                  /\ benchmark.phases st1 = <[idx := Finished]> (benchmark.phases st)).
    { destruct (decide (0 < in_flight (benchmark.phases st))%nat) as [Hin|Hfree].
      - destruct (worker_in_flight _ Hin) as [idx Hidx].
        destruct (benchmark_complete svc testCase cap elapsed idx st Hidx)
          as (st1 & Hst1 & Hph).
        exists [Complete idx], st1. cbn [benchmark.run]. rewrite Hst1.
        split; [done|]. by exists idx, InFlight.
      - destruct (unfinished_worker (benchmark.phases st)) as (idx & p & Hidx & Hp);
          [lia|].
        assert (p = Blocked) as ->.
        { destruct p; try done. destruct Hfree.
          unfold in_flight.
          pose proof (list_elem_of_lookup_2 _ _ _ Hidx) as Hel.
          assert (Hf : InFlight ∈ filter (fun p => p = InFlight) (benchmark.phases st))
            by (by apply list_elem_of_filter).
          destruct (filter _ _); [by apply elem_of_nil in Hf|]. simpl. lia. }
        set (st0 := {| benchmark.phases := <[idx := InFlight]> (benchmark.phases st);
                       benchmark.times := benchmark.times st;
                       benchmark.successCount := benchmark.successCount st;
                       benchmark.failedCount := benchmark.failedCount st |}).
        assert (Hidx0 : benchmark.phases st0 !! idx = Some InFlight).
        { simpl. rewrite list_lookup_insert_eq; [done|]. by eapply lookup_lt_Some. }
        destruct (benchmark_complete svc testCase cap elapsed idx st0 Hidx0)
          as (st1 & Hst1 & Hph).
        exists [Acquire idx; Complete idx], st1.
        cbn [benchmark.run]. rewrite (benchmark_acquire _ _ _ _ _ _ Hidx) by lia.
        fold st0. rewrite Hst1.
        split; [done|]. exists idx, Blocked. split; [done|]. split; [done|].
        rewrite Hph. simpl. by rewrite list_insert_insert_eq. }
    destruct Hstep as (schedule1 & st1 & Hrun1 & idx & p & Hidx & Hp & Hph).
    destruct (IH st1 Hcap) as (schedule2 & st2 & Hrun2 & Hj).
    { rewrite Hph, length_insert, (finished_insert _ _ _ Hidx Hp). lia. }
    exists (schedule1 ++ schedule2), st2.
    by rewrite benchmark_run_app, Hrun1.
Qed.

(** The statistics are defined for every slice of one element or more,
    within the lengths of [int32]. *)
Lemma statistics_returns (times : list spec_float) :
  (1 <= length times)%nat -> Z.of_nat (length times) < 2 ^ 31 ->
  is_Some (statistics times).
Proof.
  intros Hlen Hmax. unfold statistics.
  assert (Hsorted : length (Float64s times) = length times) by apply sort_by_length.
  rewrite Hsorted.
  destruct (percentile_indices (Z.of_nat (length times)) ltac:(lia))
    as (_ & _ & H95 & H99).
  assert (Hat : forall i, 0 <= i < Z.of_nat (length times) ->
            is_Some (at_index (Float64s times) i)).
  { intros i Hi. unfold at_index. destruct (Z.ltb_spec i 0); [lia|].
    apply lookup_lt_is_Some_2. lia. }
  destruct (Hat 0 ltac:(lia)) as [tmin ->].
  destruct (Hat (Z.of_nat (length times) - 1) ltac:(lia)) as [tmax ->].
  destruct (Hat (p95Index (Z.of_nat (length times))) ltac:(lia)) as [t95 ->].
  destruct (Hat (p99Index (Z.of_nat (length times))) ltac:(lia)) as [t99 ->].
  simpl. by eexists.
Qed.

(** What [runBenchmarkTest] returns, when it returns. *)
Lemma benchmark_test_returned svc testCase iterations concurrency impl
    schedule elapsed result :
  0 <= iterations <= max_int32 ->
  benchmark.runBenchmarkTest svc testCase iterations concurrency impl
    schedule elapsed = Some result ->
  1 <= iterations
  /\ benchmark.BenchmarkResult.TestName result = benchmark.TestCase.Name testCase
  /\ benchmark.BenchmarkResult.ImplementationTag result = impl
  /\ benchmark.BenchmarkResult.TotalRequests result = iterations
  /\ benchmark.BenchmarkResult.SuccessfulRequests result
     = Z.of_nat (length (passing svc testCase (Z.to_nat iterations)))
  /\ benchmark.BenchmarkResult.FailedRequests result
     = Z.of_nat (length (missing svc testCase (Z.to_nat iterations)))
  /\ benchmark.BenchmarkResult.Success result
     = bool_decide (missing svc testCase (Z.to_nat iterations) = [])
  /\ statistics (recorded (Z.to_nat iterations) elapsed)
     = Some {| minTime := benchmark.BenchmarkResult.MinResponseTimeMs result;
               maxTime := benchmark.BenchmarkResult.MaxResponseTimeMs result;
               avgTime := benchmark.BenchmarkResult.AvgResponseTimeMs result;
               p95Time := benchmark.BenchmarkResult.P95ResponseTimeMs result;
               p99Time := benchmark.BenchmarkResult.P99ResponseTimeMs result |}.
Proof.
  intros Hit. unfold benchmark.runBenchmarkTest.
  destruct (Z.ltb_spec iterations 0) as [|_]; [lia|].
  set (cap := if concurrency <=? 0 then 1 else concurrency).
  destruct (benchmark.run svc testCase cap elapsed schedule _) as [st|] eqn:Hrun;
    [|done].
  destruct (benchmark.joined st) eqn:Hj; [|done].
  assert (Hn : Z.of_nat (Z.to_nat iterations) <= max_int32) by lia.
  pose proof (benchmark_invariant_run svc testCase cap elapsed _ Hn schedule _ _
                (benchmark_invariant_start svc testCase elapsed _) Hrun) as Hinv.
  destruct (benchmark_invariant_joined svc testCase elapsed _ st Hinv Hj)
    as (Htimes & Hsc & Hfc).
  rewrite Htimes.
  destruct (statistics (recorded (Z.to_nat iterations) elapsed))
    as [stats|] eqn:Hstats; [|done].
  intros [= <-]. simpl.
  assert (H1 : 1 <= iterations).
  { destruct (Z.eq_dec iterations 0) as [->|]; [|lia]. done. }
  rewrite Hsc, Hfc.
  repeat split; try done.
  - destruct (missing svc testCase (Z.to_nat iterations)) as [|idx l]; [done|].
    rewrite bool_decide_eq_false_2 by done. simpl length. apply Z.eqb_neq. lia.
  - by destruct stats.
Qed.

(** Every execution of the workers can be continued to the return of
    [runBenchmarkTest]. *)
Lemma benchmark_test_continues svc testCase iterations concurrency impl elapsed
    schedule st :
  1 <= iterations <= max_int32 ->
  benchmark.run svc testCase (if concurrency <=? 0 then 1 else concurrency) elapsed
    schedule (benchmark.start (Z.to_nat iterations)) = Some st ->
  exists schedule' result,
    benchmark.runBenchmarkTest svc testCase iterations concurrency impl
      (schedule ++ schedule') elapsed = Some result.
Proof.
  intros Hit Hrun. unfold benchmark.runBenchmarkTest.
  destruct (Z.ltb_spec iterations 0) as [|_]; [lia|].
  set (cap := if concurrency <=? 0 then 1 else concurrency) in *.
  assert (Hcap : 1 <= cap).
  { subst cap. destruct (Z.leb_spec concurrency 0); lia. }
  destruct (benchmark_continues svc testCase cap elapsed _ st Hcap eq_refl)
    as (schedule' & st' & Hrun' & Hj).
  exists schedule'. rewrite benchmark_run_app, Hrun, Hrun', Hj.
  assert (Hn : Z.of_nat (Z.to_nat iterations) <= max_int32) by lia.
  pose proof (benchmark_invariant_run svc testCase cap elapsed _ Hn _ _ _
                (benchmark_invariant_start svc testCase elapsed _) Hrun) as Hinv.
  pose proof (benchmark_invariant_run svc testCase cap elapsed _ Hn _ _ _
                Hinv Hrun') as Hinv'.
  destruct (benchmark_invariant_joined svc testCase elapsed _ st' Hinv' Hj)
    as [Htimes _].
  destruct (statistics_returns (benchmark.times st')) as [stats ->].
  - rewrite Htimes. unfold recorded. rewrite length_map, length_seq. lia.
  - rewrite Htimes. unfold recorded. rewrite length_map, length_seq.
    unfold max_int32 in Hit. lia.
  - by eexists.
Qed.

(** [runBenchmarkTest] returns under the schedule that runs the workers one
    after the other. *)
Lemma benchmark_one_by_one_runs svc testCase concurrency elapsed m : forall k st,
  1 <= concurrency ->
  benchmark.phases st = replicate k Finished ++ replicate m Blocked ->
  exists st', benchmark.run svc testCase concurrency elapsed (one_by_one k m) st
              = Some st'
              /\ benchmark.joined st' = true.
Proof.
  induction m as [|m IH]; intros k st Hcap Hph.
  - exists st. split; [done|]. apply bool_decide_eq_true. rewrite Hph, app_nil_r.
    by apply Forall_replicate.
  - assert (Hk : benchmark.phases st !! k = Some Blocked).
    { rewrite Hph, lookup_app_r by (rewrite length_replicate; lia).
      rewrite length_replicate, Nat.sub_diag. done. }
    assert (Hnext :
      <[k := Finished]> (<[k := InFlight]> (benchmark.phases st))
      = replicate (S k) Finished ++ replicate m Blocked).
    { rewrite list_insert_insert_eq, Hph.
      rewrite insert_app_r_alt by (rewrite length_replicate; lia).
      rewrite length_replicate, Nat.sub_diag. simpl.
      clear. induction k as [|k IHk]; simpl; congruence. }
    assert (Hfree : in_flight (benchmark.phases st) = 0%nat).
    { rewrite Hph. apply in_flight_none. }
    set (st0 := {| benchmark.phases := <[k := InFlight]> (benchmark.phases st);
                   benchmark.times := benchmark.times st;
                   benchmark.successCount := benchmark.successCount st;
                   benchmark.failedCount := benchmark.failedCount st |}).
    assert (Hk0 : benchmark.phases st0 !! k = Some InFlight).
    { simpl. rewrite list_lookup_insert_eq; [done|]. by eapply lookup_lt_Some. }
    destruct (benchmark_complete svc testCase concurrency elapsed k st0 Hk0)
      as (st1 & Hst1 & Hph1).
    cbn [one_by_one benchmark.run].
    rewrite (benchmark_acquire _ _ _ _ _ _ Hk) by (rewrite Hfree; lia).
    fold st0. rewrite Hst1.
    apply IH; [done|]. by rewrite Hph1.
Qed.

Lemma benchmark_test_returns svc testCase iterations concurrency impl elapsed :
  1 <= iterations <= max_int32 ->
  is_Some (benchmark.runBenchmarkTest svc testCase iterations concurrency impl
             (one_by_one 0 (Z.to_nat iterations)) elapsed).
Proof.
  intros Hit. unfold benchmark.runBenchmarkTest.
  destruct (Z.ltb_spec iterations 0) as [|_]; [lia|].
  set (cap := if concurrency <=? 0 then 1 else concurrency).
  assert (Hcap : 1 <= cap).
  { subst cap. destruct (Z.leb_spec concurrency 0); lia. }
  destruct (benchmark_one_by_one_runs svc testCase cap elapsed
              (Z.to_nat iterations) 0 (benchmark.start (Z.to_nat iterations))
              Hcap eq_refl) as (st & Hrun & Hj).
  rewrite Hrun, Hj.
  assert (Hn : Z.of_nat (Z.to_nat iterations) <= max_int32) by lia.
  pose proof (benchmark_invariant_run svc testCase cap elapsed _ Hn _ _ _
                (benchmark_invariant_start svc testCase elapsed _) Hrun) as Hinv.
  destruct (benchmark_invariant_joined svc testCase elapsed _ st Hinv Hj)
    as [Htimes _].
  destruct (statistics_returns (benchmark.times st)) as [stats ->].
  - rewrite Htimes. unfold recorded. rewrite length_map, length_seq. lia.
  - rewrite Htimes. unfold recorded. rewrite length_map, length_seq.
    unfold max_int32 in Hit. lia.
  - by eexists.
Qed.

(** X8: one case of the benchmark, for an iteration count from 1 up; the
    router may answer differently from call to call.  Whatever the schedule
    and the ceiling, the result of a call that returns names the case and the
    implementation asked for, counts as many requests as iterations, counts
    as successful exactly the calls for which the router returned no error
    and the decision expected, and as failed exactly the calls for which it
    returned an error or another decision ([Success] when there is none),
    and carries the statistics of the times the workers measured, each at
    its own index.  When every call is answered with a response or an error,
    the two counts add up to the iterations, and every execution of the
    workers, however far it has got, can be continued to the return. *)
Theorem benchmark_test_counts_and_statistics
    svc testCase iterations concurrency impl elapsed :
  1 <= iterations <= max_int32 ->
  (forall schedule result,
     benchmark.runBenchmarkTest svc testCase iterations concurrency impl
       schedule elapsed = Some result ->
     benchmark.BenchmarkResult.TestName result = benchmark.TestCase.Name testCase
     /\ benchmark.BenchmarkResult.ImplementationTag result = impl
     /\ benchmark.BenchmarkResult.TotalRequests result = iterations
     /\ benchmark.BenchmarkResult.SuccessfulRequests result
        = Z.of_nat (length (passing svc testCase (Z.to_nat iterations)))
     /\ benchmark.BenchmarkResult.FailedRequests result
        = Z.of_nat (length (missing svc testCase (Z.to_nat iterations)))
     /\ benchmark.BenchmarkResult.Success result
        = bool_decide (missing svc testCase (Z.to_nat iterations) = [])
     /\ statistics (recorded (Z.to_nat iterations) elapsed)
        = Some {| minTime := benchmark.BenchmarkResult.MinResponseTimeMs result;
                  maxTime := benchmark.BenchmarkResult.MaxResponseTimeMs result;
                  avgTime := benchmark.BenchmarkResult.AvgResponseTimeMs result;
                  p95Time := benchmark.BenchmarkResult.P95ResponseTimeMs result;
                  p99Time := benchmark.BenchmarkResult.P99ResponseTimeMs result |})
  /\ ((forall idx, (idx < Z.to_nat iterations)%nat ->
         response (CheckPermission (svc idx) (benchmark.permReq testCase)) <> None
         \/ failure (CheckPermission (svc idx) (benchmark.permReq testCase)) <> None) ->
      Z.of_nat (length (passing svc testCase (Z.to_nat iterations)))
      + Z.of_nat (length (missing svc testCase (Z.to_nat iterations))) = iterations
      /\ forall schedule st,
           benchmark.run svc testCase (if concurrency <=? 0 then 1 else concurrency)
             elapsed schedule (benchmark.start (Z.to_nat iterations)) = Some st ->
           exists schedule' result,
             benchmark.runBenchmarkTest svc testCase iterations concurrency impl
               (schedule ++ schedule') elapsed = Some result).
Proof.
  intros Hit. split.
  - intros schedule result Hresult.
    apply benchmark_test_returned in Hresult; [|lia]. tauto.
  - intros Hloud. split.
    + unfold passing, missing.
      pose proof (passing_and_missing svc testCase (seq 0 (Z.to_nat iterations)))
        as Hsum.
      rewrite length_seq in Hsum.
      rewrite <- Nat2Z.inj_add, Hsum; [lia|].
      intros idx Hidx. apply Hloud. apply elem_of_seq in Hidx. lia.
    + intros schedule st Hrun.
      by eapply benchmark_test_continues.
Qed.

Lemma benchmark_test_counts_and_statistics_witness :
  (forall schedule result,
     benchmark.runBenchmarkTest flaky_service sample_case 10 2
       Implementation_IMPLEMENTATION_GRAPHQL schedule sample_elapsed = Some result ->
     benchmark.BenchmarkResult.TestName result = benchmark.TestCase.Name sample_case
     /\ benchmark.BenchmarkResult.ImplementationTag result
        = Implementation_IMPLEMENTATION_GRAPHQL
     /\ benchmark.BenchmarkResult.TotalRequests result = 10
     /\ benchmark.BenchmarkResult.SuccessfulRequests result
        = Z.of_nat (length (passing flaky_service sample_case (Z.to_nat 10)))
     /\ benchmark.BenchmarkResult.FailedRequests result
        = Z.of_nat (length (missing flaky_service sample_case (Z.to_nat 10)))
     /\ benchmark.BenchmarkResult.Success result
        = bool_decide (missing flaky_service sample_case (Z.to_nat 10) = [])
     /\ statistics (recorded (Z.to_nat 10) sample_elapsed)
        = Some {| minTime := benchmark.BenchmarkResult.MinResponseTimeMs result;
                  maxTime := benchmark.BenchmarkResult.MaxResponseTimeMs result;
                  avgTime := benchmark.BenchmarkResult.AvgResponseTimeMs result;
                  p95Time := benchmark.BenchmarkResult.P95ResponseTimeMs result;
                  p99Time := benchmark.BenchmarkResult.P99ResponseTimeMs result |})
  /\ ((forall idx, (idx < Z.to_nat 10)%nat ->
         response (CheckPermission (flaky_service idx) (benchmark.permReq sample_case))
         <> None
         \/ failure (CheckPermission (flaky_service idx) (benchmark.permReq sample_case))
            <> None) ->
      Z.of_nat (length (passing flaky_service sample_case (Z.to_nat 10)))
      + Z.of_nat (length (missing flaky_service sample_case (Z.to_nat 10))) = 10
      /\ forall schedule st,
           benchmark.run flaky_service sample_case (if 2 <=? 0 then 1 else 2)
             sample_elapsed schedule (benchmark.start (Z.to_nat 10)) = Some st ->
           exists schedule' result,
             benchmark.runBenchmarkTest flaky_service sample_case 10 2
               Implementation_IMPLEMENTATION_GRAPHQL (schedule ++ schedule')
               sample_elapsed = Some result).
Proof.
  apply (benchmark_test_counts_and_statistics flaky_service sample_case 10 2
           Implementation_IMPLEMENTATION_GRAPHQL sample_elapsed).
  split; vm_compute; discriminate.
Defined.

(** Ten calls of which every third is answered by a service without
    backends: seven pass and three miss, under a schedule that lets the
    second worker in first. *)
Example benchmark_of_a_flaky_service :
  exists result,
    benchmark.runBenchmarkTest flaky_service sample_case 10 2
      Implementation_IMPLEMENTATION_GRAPHQL
      (Acquire 1 :: Acquire 0 :: Complete 1 :: Complete 0 :: one_by_one 2 8)
      sample_elapsed = Some result
    /\ benchmark.BenchmarkResult.SuccessfulRequests result = 7
    /\ benchmark.BenchmarkResult.FailedRequests result = 3
    /\ benchmark.BenchmarkResult.Success result = false.
Proof. eexists. split; [vm_compute; reflexivity|]. by repeat split. Qed.

(** A call that returns neither a response nor an error is counted in
    neither counter: when the process lasts until the return, the result
    reports no failed request and [Success]. *)
Example benchmark_of_a_silent_service :
  exists result,
    benchmark.runBenchmarkTest (fun _ => silent_service) sample_case 3 1
      Implementation_IMPLEMENTATION_GRAPHQL (one_by_one 0 3) sample_elapsed
    = Some result
    /\ benchmark.BenchmarkResult.TotalRequests result = 3
    /\ benchmark.BenchmarkResult.SuccessfulRequests result = 0
    /\ benchmark.BenchmarkResult.FailedRequests result = 0
    /\ benchmark.BenchmarkResult.Success result = true.
Proof. eexists. split; [vm_compute; reflexivity|]. by repeat split. Qed.



Lemma int32_add_l (a b : Z) : int32 (int32 a + b) = int32 (a + b).
Proof.
  unfold int32. f_equal.
  replace ((a + 2 ^ 31) mod 2 ^ 32 - 2 ^ 31 + b + 2 ^ 31)
    with ((a + 2 ^ 31) mod 2 ^ 32 + b) by ring.
  rewrite Z.add_mod_idemp_l by lia. f_equal. ring.
Qed.

(** The loop over the cases. *)
Lemma cases_returned svc req schedules elapsed testCases :
  forall i acc results total,
  0 <= benchmark.BenchmarkRequest.Iterations req <= max_int32 ->
  benchmark.cases svc req schedules elapsed i testCases (int32 acc)
  = Some (results, total) ->
  length results = length testCases
  /\ total = int32 (acc + Z.of_nat (length testCases)
                          * benchmark.BenchmarkRequest.Iterations req)
  /\ forall j testCase, testCases !! j = Some testCase ->
       exists result,
         results !! j = Some result
         /\ benchmark.runBenchmarkTest (svc (i + j)%nat) testCase
              (benchmark.BenchmarkRequest.Iterations req)
              (benchmark.BenchmarkRequest.Concurrency req)
              (benchmark.BenchmarkRequest.ImplementationTag req)
              (schedules (i + j)%nat) (elapsed (i + j)%nat) = Some result.
Proof.
  induction testCases as [|testCase testCases IH]; intros i acc results total Hit Hc;
    simpl in Hc.
  - simplify_eq. split; [done|]. split; [simpl; f_equal; lia|].
    intros j tc Hj. by rewrite lookup_nil in Hj.
  - destruct (benchmark.runBenchmarkTest (svc i) testCase _ _ _ (schedules i)
                (elapsed i)) as [result|] eqn:Hresult; [|done].
    destruct (benchmark_test_returned _ _ _ _ _ _ _ _ Hit Hresult)
      as (_ & _ & _ & Htotal & _).
    rewrite Htotal, int32_add_l in Hc.
    destruct (benchmark.cases svc req schedules elapsed (S i) testCases _)
      as [[results' total']|] eqn:Hrest; [|done].
    simplify_eq.
    destruct (IH _ _ _ _ Hit Hrest) as (Hlen & Htot & Hres).
    split; [simpl; by rewrite Hlen|]. split.
    + rewrite Htot. f_equal. simpl length. lia.
    + intros [|j] tc Hj; simpl in Hj.
      * simplify_eq. exists result. by rewrite Nat.add_0_r.
      * destruct (Hres j tc Hj) as (result' & Hj' & Hrun).
        exists result'. split; [done|].
        by replace (i + S j)%nat with (S i + j)%nat by lia.
Qed.

Lemma cases_return svc req elapsed testCases : forall i acc,
  1 <= benchmark.BenchmarkRequest.Iterations req <= max_int32 ->
  is_Some (benchmark.cases svc req
             (fun _ => one_by_one 0 (Z.to_nat (benchmark.BenchmarkRequest.Iterations req)))
             elapsed i testCases acc).
Proof.
  induction testCases as [|testCase testCases IH]; intros i acc Hit; simpl.
  - by eexists.
  - destruct (benchmark_test_returns (svc i) testCase
                (benchmark.BenchmarkRequest.Iterations req)
                (benchmark.BenchmarkRequest.Concurrency req)
                (benchmark.BenchmarkRequest.ImplementationTag req) (elapsed i) Hit)
      as [result ->].
    destruct (IH (S i)
                (int32 (acc + benchmark.BenchmarkResult.TotalRequests result)) Hit)
      as [[results total] ->].
    by eexists.
Qed.

(** When every call is answered, no call misses exactly when every call
    passes. *)
Lemma no_miss_all_pass svc testCase (l : list nat) :
  (forall idx, idx ∈ l ->
     response (CheckPermission (svc idx) (benchmark.permReq testCase)) <> None
     \/ failure (CheckPermission (svc idx) (benchmark.permReq testCase)) <> None) ->
  bool_decide (List.filter (fun idx => misses (svc idx) testCase) l = [])
  = forallb (fun idx => passes (svc idx) testCase) l.
Proof.
  induction l as [|idx l IH]; intros Hl; [done|]. simpl.
  rewrite (passes_or_misses (svc idx) testCase) by (apply Hl, list_elem_of_here).
  destruct (passes (svc idx) testCase); simpl.
  - apply IH. intros i Hi. by apply Hl, list_elem_of_further.
  - done.
Qed.

(** What [Benchmark] returns for one case or more and one iteration or
    more. *)
Lemma benchmark_returned svc req schedules elapsed totalTime resp :
  benchmark.BenchmarkRequest.TestCases req <> [] ->
  1 <= benchmark.BenchmarkRequest.Iterations req <= max_int32 ->
  benchmark.Benchmark svc req schedules elapsed totalTime = Some resp ->
  exists results totalRequests,
    benchmark.cases svc req schedules elapsed 0
      (benchmark.BenchmarkRequest.TestCases req) 0 = Some (results, totalRequests)
    /\ resp
       = {| benchmark.BenchmarkResponse.Results := results;
            benchmark.BenchmarkResponse.Summary :=
              {| benchmark.BenchmarkSummary.TotalTimeMs := float64 totalTime;
                 benchmark.BenchmarkSummary.TotalRequests := totalRequests;
                 benchmark.BenchmarkSummary.AvgResponseTimeMs :=
                   float64_div (float64 totalTime) (float64 totalRequests);
                 benchmark.BenchmarkSummary.ThroughputRps :=
                   float64_div (float64 totalRequests)
                     (float64_div (float64 totalTime) (float64 1000));
                 benchmark.BenchmarkSummary.ImplementationTag :=
                   benchmark.BenchmarkRequest.ImplementationTag req |} |}.
Proof.
  intros Hne Hit. unfold benchmark.Benchmark.
  rewrite bool_decide_eq_false_2.
  2:{ destruct (benchmark.BenchmarkRequest.TestCases req); [done|]. simpl. lia. }
  destruct (Z.leb_spec (benchmark.BenchmarkRequest.Iterations req) 0); [lia|].
  simpl.
  destruct (benchmark.cases svc req schedules elapsed 0 _ 0)
    as [[results totalRequests]|]; [|done].
  intros [= <-]. by exists results, totalRequests.
Qed.

(** X10: a benchmark of one case or more, with an iteration count from 1
    up, over a router that returns a response or an error for every call of
    every case (the answers may differ from call to call).  The call
    returns, and whatever the schedules of the cases, the results are as
    many as the cases and stand in their order, each one the result of its
    case, with [Success] exactly when every call of the case passed; the
    summary counts the iterations of all cases (with the wrap-around of
    [int32]) and carries the elapsed time and the implementation asked
    for. *)
Theorem benchmark_results_in_case_order svc req elapsed totalTime :
  benchmark.BenchmarkRequest.TestCases req <> [] ->
  1 <= benchmark.BenchmarkRequest.Iterations req <= max_int32 ->
  (forall i testCase idx,
     benchmark.BenchmarkRequest.TestCases req !! i = Some testCase ->
     (idx < Z.to_nat (benchmark.BenchmarkRequest.Iterations req))%nat ->
     response (CheckPermission (svc i idx) (benchmark.permReq testCase)) <> None
     \/ failure (CheckPermission (svc i idx) (benchmark.permReq testCase)) <> None) ->
  (exists schedules resp,
     benchmark.Benchmark svc req schedules elapsed totalTime = Some resp)
  /\ forall schedules resp,
     benchmark.Benchmark svc req schedules elapsed totalTime = Some resp ->
     length (benchmark.BenchmarkResponse.Results resp)
     = length (benchmark.BenchmarkRequest.TestCases req)
     /\ (forall i testCase,
           benchmark.BenchmarkRequest.TestCases req !! i = Some testCase ->
           exists result,
             benchmark.BenchmarkResponse.Results resp !! i = Some result
             /\ benchmark.runBenchmarkTest (svc i) testCase
                  (benchmark.BenchmarkRequest.Iterations req)
                  (benchmark.BenchmarkRequest.Concurrency req)
                  (benchmark.BenchmarkRequest.ImplementationTag req)
                  (schedules i) (elapsed i) = Some result
             /\ benchmark.BenchmarkResult.TestName result
                = benchmark.TestCase.Name testCase
             /\ benchmark.BenchmarkResult.Success result
                = forallb (fun idx => passes (svc i idx) testCase)
                    (seq 0 (Z.to_nat (benchmark.BenchmarkRequest.Iterations req))))
     /\ benchmark.BenchmarkSummary.TotalRequests
          (benchmark.BenchmarkResponse.Summary resp)
        = int32 (Z.of_nat (length (benchmark.BenchmarkRequest.TestCases req))
                 * benchmark.BenchmarkRequest.Iterations req)
     /\ benchmark.BenchmarkSummary.TotalTimeMs
          (benchmark.BenchmarkResponse.Summary resp) = float64 totalTime
     /\ benchmark.BenchmarkSummary.ImplementationTag
          (benchmark.BenchmarkResponse.Summary resp)
        = benchmark.BenchmarkRequest.ImplementationTag req.
Proof.
  intros Hne Hit Hloud. split.
  - exists (fun _ => one_by_one 0 (Z.to_nat (benchmark.BenchmarkRequest.Iterations req))).
    unfold benchmark.Benchmark.
    rewrite bool_decide_eq_false_2.
    2:{ destruct (benchmark.BenchmarkRequest.TestCases req); [done|]. simpl. lia. }
    destruct (Z.leb_spec (benchmark.BenchmarkRequest.Iterations req) 0); [lia|].
    simpl.
    destruct (cases_return svc req elapsed
                (benchmark.BenchmarkRequest.TestCases req) 0%nat 0 Hit)
      as [[results total] ->].
    by eexists.
  - intros schedules resp Hresp.
    destruct (benchmark_returned _ _ _ _ _ _ Hne Hit Hresp)
      as (results & totalRequests & Hcases & ->). simpl.
    change 0 with (int32 0) in Hcases.
    assert (Hit0 : 0 <= benchmark.BenchmarkRequest.Iterations req <= max_int32)
      by lia.
    destruct (cases_returned _ _ _ _ _ _ _ _ _ Hit0 Hcases)
      as (Hlen & Htot & Hres).
    repeat split; try done.
    intros i testCase Hi. destruct (Hres i testCase Hi) as (result & Hr & Hrun).
    exists result. simpl in Hrun.
    destruct (benchmark_test_returned _ _ _ _ _ _ _ _ Hit0 Hrun)
      as (_ & Hname & _ & _ & _ & _ & Hsuccess & _).
    split; [done|]. split; [done|]. split; [done|].
    rewrite Hsuccess. unfold missing. apply no_miss_all_pass.
    intros idx Hidx. apply (Hloud i); [done|]. apply elem_of_seq in Hidx. lia.
Qed.

Lemma benchmark_results_in_case_order_witness :
  (exists schedules resp,
     benchmark.Benchmark (fun _ => flaky_service) sample_benchmark schedules
       (fun _ => sample_elapsed) 40 = Some resp)
  /\ forall schedules resp,
     benchmark.Benchmark (fun _ => flaky_service) sample_benchmark schedules
       (fun _ => sample_elapsed) 40 = Some resp ->
     length (benchmark.BenchmarkResponse.Results resp)
     = length (benchmark.BenchmarkRequest.TestCases sample_benchmark)
     /\ (forall i testCase,
           benchmark.BenchmarkRequest.TestCases sample_benchmark !! i = Some testCase ->
           exists result,
             benchmark.BenchmarkResponse.Results resp !! i = Some result
             /\ benchmark.runBenchmarkTest flaky_service testCase
                  (benchmark.BenchmarkRequest.Iterations sample_benchmark)
                  (benchmark.BenchmarkRequest.Concurrency sample_benchmark)
                  (benchmark.BenchmarkRequest.ImplementationTag sample_benchmark)
                  (schedules i) sample_elapsed = Some result
             /\ benchmark.BenchmarkResult.TestName result
                = benchmark.TestCase.Name testCase
             /\ benchmark.BenchmarkResult.Success result
                = forallb (fun idx => passes (flaky_service idx) testCase)
                    (seq 0 (Z.to_nat
                              (benchmark.BenchmarkRequest.Iterations sample_benchmark))))
     /\ benchmark.BenchmarkSummary.TotalRequests
          (benchmark.BenchmarkResponse.Summary resp)
        = int32 (Z.of_nat (length (benchmark.BenchmarkRequest.TestCases sample_benchmark))
                 * benchmark.BenchmarkRequest.Iterations sample_benchmark)
     /\ benchmark.BenchmarkSummary.TotalTimeMs
          (benchmark.BenchmarkResponse.Summary resp) = float64 40
     /\ benchmark.BenchmarkSummary.ImplementationTag
          (benchmark.BenchmarkResponse.Summary resp)
        = benchmark.BenchmarkRequest.ImplementationTag sample_benchmark.
Proof.
  apply (benchmark_results_in_case_order (fun _ => flaky_service) sample_benchmark
           (fun _ => sample_elapsed) 40).
  - discriminate.
  - split; vm_compute; discriminate.
  - intros i testCase idx Hi Hidx.
    change (Z.to_nat _) with 10%nat in Hidx.
    destruct i as [|[|i]]; simpl in Hi; [| |done]; injection Hi as <-;
      do 10 (destruct idx as [|idx];
             [first [left; vm_compute; discriminate
                    | right; vm_compute; discriminate]|]);
      lia.
Defined.

(** X11: a benchmark that takes less than a millisecond.  The elapsed time
    read off the clock is 0, so the division for the throughput is a
    division by zero: the summary reports the throughput [+Inf] and the
    average response time 0 (the count of requests being within
    [int32]). *)
Theorem benchmark_throughput_of_a_run_below_one_millisecond
    svc req schedules elapsed resp :
  benchmark.BenchmarkRequest.TestCases req <> [] ->
  1 <= benchmark.BenchmarkRequest.Iterations req ->
  Z.of_nat (length (benchmark.BenchmarkRequest.TestCases req))
  * benchmark.BenchmarkRequest.Iterations req <= max_int32 ->
  benchmark.Benchmark svc req schedules elapsed 0 = Some resp ->
  benchmark.BenchmarkSummary.ThroughputRps
    (benchmark.BenchmarkResponse.Summary resp) = S754_infinity false
  /\ benchmark.BenchmarkSummary.AvgResponseTimeMs
       (benchmark.BenchmarkResponse.Summary resp) = S754_zero false.
Proof.
  intros Hne H1 Hmax Hresp.
  assert (Hlen : 1 <= Z.of_nat (length (benchmark.BenchmarkRequest.TestCases req))).
  { destruct (benchmark.BenchmarkRequest.TestCases req); [done|]. simpl. lia. }
  assert (Hit : 1 <= benchmark.BenchmarkRequest.Iterations req <= max_int32) by nia.
  destruct (benchmark_returned _ _ _ _ _ _ Hne Hit Hresp)
    as (results & totalRequests & Hcases & ->). simpl.
  change 0 with (int32 0) in Hcases.
  assert (Hit0 : 0 <= benchmark.BenchmarkRequest.Iterations req <= max_int32)
    by lia.
  destruct (cases_returned _ _ _ _ _ _ _ _ _ Hit0 Hcases)
    as (_ & Htot & _).
  rewrite int32_small in Htot by nia.
  assert (Hpos : 0 < totalRequests < 2 ^ 53).
  { unfold max_int32 in Hmax. nia. }
  rewrite (float64_positive totalRequests) by done.
  done.
Qed.

Lemma benchmark_throughput_of_a_run_below_one_millisecond_witness :
  exists resp,
    benchmark.Benchmark (fun _ _ => sample_service) sample_benchmark
      (fun _ => one_by_one 0 10) (fun _ _ => 0) 0 = Some resp
    /\ benchmark.BenchmarkSummary.ThroughputRps
         (benchmark.BenchmarkResponse.Summary resp) = S754_infinity false
    /\ benchmark.BenchmarkSummary.AvgResponseTimeMs
         (benchmark.BenchmarkResponse.Summary resp) = S754_zero false.
Proof.
  eexists. split; [vm_compute; reflexivity|].
  apply (benchmark_throughput_of_a_run_below_one_millisecond
           (fun _ _ => sample_service) sample_benchmark (fun _ => one_by_one 0 10) (fun _ _ => 0)).
  - discriminate.
  - vm_compute. discriminate.
  - vm_compute. discriminate.
  - vm_compute. reflexivity.
Defined.

(** * The clients of the backends *)

(** ** The client of SpiceDB *)

Section SpiceDB.

Variable Struct : Type.
Variable NewStruct : gmap string string -> Struct + string.
Variable remote : spicedb.v1.CheckPermissionRequest Struct -> Z + string.

(** The results of the client, by the answer of SpiceDB. *)
Lemma spicedb_answered req checkReq permissionship :
  spicedb.checkReq Struct NewStruct req = inl checkReq ->
  remote checkReq = inl permissionship ->
  exists r,
    spicedb.CheckPermission Struct NewStruct remote req = (Some r, None)
    /\ Permissionship r = permissionship
    /\ ImplementationTag r = Implementation_IMPLEMENTATION_UNSPECIFIED
    /\ HasPermission r
       = ((permissionship =? 2)
          || (permissionship =? 3) && negb (bool_decide (Context req = ∅))).
Proof.
  intros Hreq Hremote. unfold spicedb.CheckPermission. rewrite Hreq, Hremote.
  unfold spicedb.v1.CheckPermissionResponse_PERMISSIONSHIP_HAS_PERMISSION,
    spicedb.v1.CheckPermissionResponse_PERMISSIONSHIP_CONDITIONAL_PERMISSION,
    spicedb.v1.CheckPermissionResponse_PERMISSIONSHIP_NO_PERMISSION.
  destruct (Z.eqb_spec permissionship 2) as [H2|H2];
    destruct (Z.eqb_spec permissionship 3) as [H3|H3]; try lia;
    destruct (bool_decide (Context req = ∅)); simpl;
    try (eexists; by repeat split).
  all: destruct (permissionship =? 1); eexists; by repeat split.
Qed.

Lemma spicedb_failed req :
  (forall checkReq permissionship,
     spicedb.checkReq Struct NewStruct req = inl checkReq ->
     remote checkReq <> inl permissionship) ->
  exists r e,
    spicedb.CheckPermission Struct NewStruct remote req = (Some r, Some e)
    /\ HasPermission r = false
    /\ ImplementationTag r = Implementation_IMPLEMENTATION_UNSPECIFIED
    /\ contains e (ErrorMessage r) = true.
Proof.
  intros Hfail. unfold spicedb.CheckPermission.
  destruct (spicedb.checkReq Struct NewStruct req) as [checkReq|results] eqn:Hreq.
  - destruct (remote checkReq) as [p|err] eqn:Hremote.
    + by destruct (Hfail checkReq p).
    + eexists _, err. repeat split; try done. apply contains_itself.
  - unfold spicedb.checkReq in Hreq. case_bool_decide; [|done].
    destruct (NewStruct (Context req)) as [contextStruct|err]; [done|].
    injection Hreq as <-. eexists _, err. repeat split; try done.
    apply contains_later, contains_itself.
Qed.

(** X12: the SpiceDB client always returns a response, never marked with an
    implementation.  It returns no error exactly when SpiceDB answers the
    request built; the response then grants the permission exactly when the
    answer is HAS_PERMISSION, or CONDITIONAL_PERMISSION for a request with a
    context that is not empty.  Otherwise it returns, together with the
    error, a response that denies the permission and carries the text of the
    error. *)
Theorem spicedb_client_decision req :
  let out := spicedb.CheckPermission Struct NewStruct remote req in
  let answered permissionship :=
    exists checkReq,
      spicedb.checkReq Struct NewStruct req = inl checkReq
      /\ remote checkReq = inl permissionship in
  exists r,
    fst out = Some r
    /\ ImplementationTag r = Implementation_IMPLEMENTATION_UNSPECIFIED
    /\ (snd out = None <-> exists permissionship, answered permissionship)
    /\ (HasPermission r = true
        <-> answered 2 \/ (answered 3 /\ Context req <> ∅))
    /\ (forall e, snd out = Some e ->
          HasPermission r = false /\ contains e (ErrorMessage r) = true).
Proof.
  cbv zeta.
  destruct (spicedb.checkReq Struct NewStruct req) as [checkReq|results] eqn:Hreq.
  - destruct (remote checkReq) as [p|err] eqn:Hremote.
    + destruct (spicedb_answered req checkReq p Hreq Hremote)
        as (r & -> & Hp & Htag & Hgrant).
      exists r. simpl. split; [done|]. split; [done|]. split; [|split].
      * split; [|done]. intros _. by exists p, checkReq.
      * rewrite Hgrant. split.
        -- intros H. apply orb_true_iff in H as [H|H].
           ++ apply Z.eqb_eq in H as ->. left. by exists checkReq.
           ++ apply andb_true_iff in H as [H3 Hctx]. apply Z.eqb_eq in H3 as ->.
              right. split; [by exists checkReq|].
              apply negb_true_iff, bool_decide_eq_false in Hctx. done.
        -- intros [(checkReq' & [= <-] & Hr)|[(checkReq' & [= <-] & Hr) Hctx]];
             rewrite Hremote in Hr; injection Hr as ->; simpl; [done|].
           by rewrite bool_decide_eq_false_2.
      * done.
    + destruct (spicedb_failed req) as (r & e & -> & Hp & Htag & Hmsg).
      { intros checkReq' p Hreq'. rewrite Hreq in Hreq'. injection Hreq' as <-.
        by rewrite Hremote. }
      exists r. simpl. split; [done|]. split; [done|]. split; [|split].
      * split; [done|]. intros (p & checkReq' & [= <-] & Hr). by rewrite Hremote in Hr.
      * rewrite Hp. split; [done|].
        intros [(checkReq' & [= <-] & Hr)|[(checkReq' & [= <-] & Hr) _]];
          by rewrite Hremote in Hr.
      * by intros e' [= <-].
  - destruct (spicedb_failed req) as (r & e & -> & Hp & Htag & Hmsg).
    { intros checkReq' p Hreq'. by rewrite Hreq in Hreq'. }
    exists r. simpl. split; [done|]. split; [done|]. split; [|split].
    + split; [done|]. by intros (p & checkReq' & [=] & _).
    + rewrite Hp. split; [done|].
      by intros [(checkReq' & [=] & _)|[(checkReq' & [=] & _) _]].
    + by intros e' [= <-].
Qed.

(** X13: a request that carries the hint of the router has a context that is
    not empty, the hint being a key of the context.  When SpiceDB answers
    CONDITIONAL_PERMISSION, the router therefore grants the permission to
    the request with the hint "spicedb", and denies it, with the message
    that a context is required, to the same request without any context. *)
Theorem hinted_request_is_granted_on_conditional_permission
    s req contextStruct :
  Spice s = Some (spicedb.CheckPermission Struct NewStruct remote) ->
  (forall checkReq, remote checkReq = inl 3) ->
  Context req !! "implementation" = Some "spicedb" ->
  NewStruct (Context req) = inl contextStruct ->
  let bare := {| Actor := Actor req; Resource := Resource req;
                 Permission := Permission req; Context := ∅ |} in
  (exists r, CheckPermission s req = returns (Some r) None []
             /\ HasPermission r = true)
  /\ (exists r, CheckPermission s bare = returns (Some r) None []
                /\ HasPermission r = false
                /\ ErrorMessage r
                   = "conditional permission requires context but none was provided").
Proof.
  intros Hs Hremote Hhint Hstruct bare.
  assert (Hne : Context req <> ∅).
  { intros Hempty. by rewrite Hempty, lookup_empty in Hhint. }
  split.
  - unfold CheckPermission, implementation. rewrite Hhint. simpl. rewrite Hs. simpl.
    unfold spicedb.CheckPermission, spicedb.checkReq.
    rewrite bool_decide_eq_true_2, Hstruct, Hremote by done. simpl.
    rewrite bool_decide_eq_false_2 by done. simpl. by eexists.
  - unfold CheckPermission, implementation. simpl. rewrite lookup_empty, Hs. simpl.
    unfold spicedb.CheckPermission, spicedb.checkReq. simpl.
    rewrite bool_decide_eq_false_2 by (intros H; by apply H).
    rewrite Hremote. simpl. by eexists.
Qed.

End SpiceDB.

Lemma hinted_request_is_granted_on_conditional_permission_witness :
  (exists r, CheckPermission (NewService (Some conditional_spicedb) None None)
               (hinted "spicedb") = returns (Some r) None []
             /\ HasPermission r = true)
  /\ (exists r, CheckPermission (NewService (Some conditional_spicedb) None None)
                  unhinted = returns (Some r) None []
                /\ HasPermission r = false
                /\ ErrorMessage r
                   = "conditional permission requires context but none was provided").
Proof.
  apply (hinted_request_is_granted_on_conditional_permission
           (gmap string string) inl (fun _ => inl 3)
           (NewService (Some conditional_spicedb) None None) (hinted "spicedb")
           (Context (hinted "spicedb"))); reflexivity.
Defined.

(** ** The client of Neo4j *)

Section Neo4j.

Variable Run : string -> neo4j.params -> neo4j.execution.
Variable clock : string.
Variable ParseFloat : string -> option spec_float.
Variable responseTime : Z.

(** The permissions the client has a query for. *)
Lemma getPermissionQuery_supported (permission : string) :
  snd (neo4j.getPermissionQuery permission) = None
  <-> permission ∈ ["read"; "can_view_transactions"; "write";
                    "can_initiate_payment"; "can_download_statement"; "can_access"].
Proof.
  unfold neo4j.getPermissionQuery. rewrite !elem_of_cons, elem_of_nil.
  destruct (String.eqb_spec permission "read");
    [split; [intros _; auto 10|done]|].
  destruct (String.eqb_spec permission "can_view_transactions");
    [split; [intros _; auto 10|done]|].
  destruct (String.eqb_spec permission "write");
    [split; [intros _; auto 10|done]|].
  destruct (String.eqb_spec permission "can_initiate_payment");
    [split; [intros _; auto 10|done]|].
  destruct (String.eqb_spec permission "can_download_statement");
    [split; [intros _; auto 10|done]|].
  destruct (String.eqb_spec permission "can_access");
    [split; [intros _; auto 10|done]|].
  simpl. split; [done|]. tauto.
Qed.

Lemma neo4j_unsupported req :
  Permission req ∉ ["read"; "can_view_transactions"; "write";
                    "can_initiate_payment"; "can_download_statement"; "can_access"] ->
  neo4j.CheckPermission Run clock ParseFloat responseTime req
  = (None, Some ("unsupported permission: " +:+ Permission req)).
Proof.
  intros Hp. repeat (apply not_elem_of_cons in Hp as [? Hp]).
  unfold neo4j.CheckPermission, neo4j.getPermissionQuery.
  by repeat (rewrite (proj2 (String.eqb_neq _ _)) by done).
Qed.

(** X14: the Neo4j client returns either a response and no error, or an
    error and no response, never both and never neither.  A response is
    marked NEO4J, carries the time measured, and has the permissionship 2
    when it grants and 1 when it denies. *)
Theorem neo4j_client_response_or_error req :
  let out := neo4j.CheckPermission Run clock ParseFloat responseTime req in
  (exists r, out = (Some r, None)
             /\ ImplementationTag r = Implementation_IMPLEMENTATION_NEO4J
             /\ ResponseTimeMs r = float64 responseTime
             /\ ErrorMessage r = ""
             /\ Permissionship r = if HasPermission r then 2 else 1)
  \/ (exists e, out = (None, Some e)).
Proof.
  cbv zeta. unfold neo4j.CheckPermission.
  destruct (neo4j.getPermissionQuery (Permission req)) as [query [err|]];
    [right; by eexists|].
  destruct (Run query _) as [e|e|[[v|v|v|t]|]];
    first [right; by eexists | left; eexists; by repeat split].
Qed.

(** X15: a permission the Neo4j client has no query for is answered with the
    error "unsupported permission: ..." and no response, without a query to
    the database.  Under the hint "both" the dual check then returns the
    response of SpiceDB, when SpiceDB returns one without an error, marked
    BOTH and with the message that Neo4j is unavailable: the response
    carries the tag BOTH, the message "Neo4j unavailable, using SpiceDB
    only: " followed by the message of SpiceDB's response, and the decision,
    the permissionship and the response time of SpiceDB's response. *)
Theorem neo4j_unsupported_permission_falls_back_to_spicedb s req c sr :
  Permission req ∉ ["read"; "can_view_transactions"; "write";
                    "can_initiate_payment"; "can_download_statement"; "can_access"] ->
  Neo4j s = Some (neo4j.CheckPermission Run clock ParseFloat responseTime) ->
  Spice s = Some c -> c req = (Some sr, None) ->
  Context req !! "implementation" = Some "both" ->
  neo4j.CheckPermission Run clock ParseFloat responseTime req
  = (None, Some ("unsupported permission: " +:+ Permission req))
  /\ CheckPermission s req
     = returns
         (Some (set_ErrorMessage
                  ("Neo4j unavailable, using SpiceDB only: " +:+ ErrorMessage sr)
                  (set_Implementation Implementation_IMPLEMENTATION_BOTH sr)))
         None
         ["Neo4j error (using SpiceDB only): unsupported permission: "
          +:+ Permission req +:+ newline]
  /\ exists resp,
       response (CheckPermission s req) = Some resp
       /\ failure (CheckPermission s req) = None
       /\ ImplementationTag resp = Implementation_IMPLEMENTATION_BOTH
       /\ ErrorMessage resp
          = "Neo4j unavailable, using SpiceDB only: " +:+ ErrorMessage sr
       /\ HasPermission resp = HasPermission sr
       /\ Permissionship resp = Permissionship sr
       /\ ResponseTimeMs resp = ResponseTimeMs sr.
Proof.
  intros Hp Hn Hs Hc Hhint. pose proof (neo4j_unsupported req Hp) as Hneo.
  split; [done|].
  assert (Hcheck : CheckPermission s req
     = returns
         (Some (set_ErrorMessage
                  ("Neo4j unavailable, using SpiceDB only: " +:+ ErrorMessage sr)
                  (set_Implementation Implementation_IMPLEMENTATION_BOTH sr)))
         None
         ["Neo4j error (using SpiceDB only): unsupported permission: "
          +:+ Permission req +:+ newline]).
  { unfold CheckPermission, implementation. rewrite Hhint. simpl.
    unfold checkBothImplementations. rewrite Hs, Hn. simpl.
    rewrite Hc, Hneo. done. }
  split; [done|]. rewrite Hcheck. eexists. split; [reflexivity|]. by repeat split.
Qed.


End Neo4j.

Lemma neo4j_unsupported_permission_falls_back_to_spicedb_witness :
  unreachable_neo4j view_request = (None, Some "unsupported permission: view")
  /\ CheckPermission
       (NewService (Some (grants Implementation_IMPLEMENTATION_SPICEDB))
          (Some unreachable_neo4j) None)
       view_request
     = returns
         (Some (set_ErrorMessage "Neo4j unavailable, using SpiceDB only: "
                  (set_Implementation Implementation_IMPLEMENTATION_BOTH
                     (granted Implementation_IMPLEMENTATION_SPICEDB))))
         None
         ["Neo4j error (using SpiceDB only): unsupported permission: view" +:+ newline]
  /\ exists resp,
       response (CheckPermission
                   (NewService (Some (grants Implementation_IMPLEMENTATION_SPICEDB))
                      (Some unreachable_neo4j) None)
                   view_request) = Some resp
       /\ failure (CheckPermission
                     (NewService (Some (grants Implementation_IMPLEMENTATION_SPICEDB))
                        (Some unreachable_neo4j) None)
                     view_request) = None
       /\ ImplementationTag resp = Implementation_IMPLEMENTATION_BOTH
       /\ ErrorMessage resp
          = "Neo4j unavailable, using SpiceDB only: "
            +:+ ErrorMessage (granted Implementation_IMPLEMENTATION_SPICEDB)
       /\ HasPermission resp
          = HasPermission (granted Implementation_IMPLEMENTATION_SPICEDB)
       /\ Permissionship resp
          = Permissionship (granted Implementation_IMPLEMENTATION_SPICEDB)
       /\ ResponseTimeMs resp
          = ResponseTimeMs (granted Implementation_IMPLEMENTATION_SPICEDB).
Proof.
  apply (neo4j_unsupported_permission_falls_back_to_spicedb
           (fun _ _ => neo4j.RunError "connection refused") "2024-06-01T12:00:00"
           (fun _ => None) 5
           (NewService (Some (grants Implementation_IMPLEMENTATION_SPICEDB))
              (Some unreachable_neo4j) None)
           view_request (grants Implementation_IMPLEMENTATION_SPICEDB)
           (granted Implementation_IMPLEMENTATION_SPICEDB)).
  - rewrite !not_elem_of_cons. repeat split; try discriminate. apply not_elem_of_nil.
  - reflexivity.
  - reflexivity.
  - reflexivity.
  - reflexivity.
Defined.


(** ** The client of the GraphQL server *)

Section GraphQL.

Variable ParseFloat : string -> option spec_float.
Variable post : graphql.GraphQLRequest -> string -> graphql.exchange.
Variable range : gmap string graphql.value -> list (string * graphql.value).
Variable responseTime : Z.

Lemma first_bool_true entries :
  graphql.first_bool entries = true ->
  exists k, (k, graphql.Bool true) ∈ entries.
Proof.
  induction entries as [|[k [v|]] entries IH]; simpl; [done| |].
  - intros ->. exists k. apply list_elem_of_here.
  - intros H. destruct (IH H) as [k' Hk']. exists k'. by apply list_elem_of_further.
Qed.

Lemma first_bool_agree entries b :
  (forall k v, (k, graphql.Bool v) ∈ entries -> v = b) ->
  (exists k v, (k, graphql.Bool v) ∈ entries) ->
  graphql.first_bool entries = b.
Proof.
  induction entries as [|[k [v|]] entries IH]; simpl; intros Hall Hex.
  - destruct Hex as (k & v & H). by apply elem_of_nil in H.
  - apply (Hall k). apply list_elem_of_here.
  - apply IH.
    + intros k' v' H. apply (Hall k'). by apply list_elem_of_further.
    + destruct Hex as (k' & v' & H). apply elem_of_cons in H as [[=]|H]. eauto.
Qed.

Lemma first_bool_none entries :
  (forall k v, (k, graphql.Bool v) ∉ entries) -> graphql.first_bool entries = false.
Proof.
  induction entries as [|[k [v|]] entries IH]; simpl; intros Hnone; [done| |].
  - destruct (Hnone k v). apply list_elem_of_here.
  - apply IH. intros k' v' H. apply (Hnone k' v'). by apply list_elem_of_further.
Qed.

Lemma booleans_or_none (entries : list (string * graphql.value)) :
  (exists k v, (k, graphql.Bool v) ∈ entries)
  \/ (forall k v, (k, graphql.Bool v) ∉ entries).
Proof.
  induction entries as [|[k [v|]] entries IH].
  - right. intros k v H. by apply elem_of_nil in H.
  - left. exists k, v. apply list_elem_of_here.
  - destruct IH as [(k' & v' & H)|Hno].
    + left. exists k', v'. by apply list_elem_of_further.
    + right. intros k' v' H. apply elem_of_cons in H as [[=]|H]. by apply (Hno k' v').
Qed.

Lemma graphql_never_fails req :
  exists r, graphql.CheckPermission ParseFloat post range responseTime req
            = (Some r, None).
Proof.
  unfold graphql.CheckPermission.
  destruct (graphql.buildGraphQLQuery ParseFloat req) as [query variables].
  destruct (post _ _) as [e|e|e|e|e|gqlResp]; try by eexists.
  case_bool_decide; by eexists.
Qed.

(** X17: the GraphQL client never returns an error and always returns a
    response: every failure of the exchange with the server becomes a
    response that denies the permission.  A response that grants the
    permission comes from a decoded answer without errors whose data hold the
    boolean [true] (the entries visited being the entries of the map). *)
Theorem graphql_client_never_returns_an_error req :
  (forall data, range data ≡ₚ map_to_list data) ->
  exists r,
    graphql.CheckPermission ParseFloat post range responseTime req = (Some r, None)
    /\ (HasPermission r = true ->
        exists gqlResp k,
          post {| graphql.Query := fst (graphql.buildGraphQLQuery ParseFloat req);
                  graphql.Variables := snd (graphql.buildGraphQLQuery ParseFloat req) |}
            (Actor req) = graphql.Decoded gqlResp
          /\ graphql.Errors gqlResp = []
          /\ graphql.Data gqlResp !! k = Some (graphql.Bool true)
          /\ ImplementationTag r = Implementation_IMPLEMENTATION_GRAPHQL
          /\ Permissionship r = 2).
Proof.
  intros Hrange. unfold graphql.CheckPermission.
  destruct (graphql.buildGraphQLQuery ParseFloat req) as [query variables]. simpl.
  destruct (post _ _) as [e|e|e|e|e|gqlResp]; try (eexists; by split).
  case_bool_decide as Herr; [eexists; by split|].
  eexists. split; [done|]. simpl. intros Hgrant.
  exists gqlResp. unfold graphql.extractPermissionResult in *.
  destruct (first_bool_true _ Hgrant) as [k Hk]. exists k.
  rewrite Hrange in Hk. apply elem_of_map_to_list in Hk.
  repeat split; try done.
  - destruct (graphql.Errors gqlResp); [done|]. simpl in Herr. lia.
  - by rewrite Hgrant.
Qed.

(** X18: the result read off the data of an answer does not depend on the
    order in which the entries of the map are visited when the booleans
    among the values agree; it is [false] when there is no boolean. *)
Theorem graphql_result_independent_of_map_order
    (range1 range2 : gmap string graphql.value -> list (string * graphql.value))
    data permission :
  range1 data ≡ₚ map_to_list data ->
  range2 data ≡ₚ map_to_list data ->
  (forall k1 k2 v1 v2,
     data !! k1 = Some (graphql.Bool v1) -> data !! k2 = Some (graphql.Bool v2) ->
     v1 = v2) ->
  graphql.extractPermissionResult range1 data permission
  = graphql.extractPermissionResult range2 data permission
  /\ ((forall k v, data !! k <> Some (graphql.Bool v)) ->
      graphql.extractPermissionResult range1 data permission = false)
  /\ (forall k v, data !! k = Some (graphql.Bool v) ->
      graphql.extractPermissionResult range1 data permission = v).
Proof.
  intros H1 H2 Hagree. unfold graphql.extractPermissionResult.
  assert (Hin : forall (rg : gmap string graphql.value -> list (string * graphql.value)),
            rg data ≡ₚ map_to_list data ->
            forall k v, (k, v) ∈ rg data <-> data !! k = Some v).
  { intros rg Hrg k v. rewrite Hrg. apply elem_of_map_to_list. }
  assert (Hone : forall (rg : gmap string graphql.value -> list (string * graphql.value)),
            rg data ≡ₚ map_to_list data ->
            forall k v, data !! k = Some (graphql.Bool v) ->
            graphql.first_bool (rg data) = v).
  { intros rg Hrg k v Hk. apply first_bool_agree.
    - intros k' v' Hk'. apply (Hin rg Hrg) in Hk'. by eapply Hagree.
    - exists k, v. by apply (Hin rg Hrg). }
  assert (Hnone : forall (rg : gmap string graphql.value -> list (string * graphql.value)),
            rg data ≡ₚ map_to_list data ->
            (forall k v, data !! k <> Some (graphql.Bool v)) ->
            graphql.first_bool (rg data) = false).
  { intros rg Hrg Hno. apply first_bool_none.
    intros k v Hk. apply (Hin rg Hrg) in Hk. by destruct (Hno k v). }
  split; [|split].
  - destruct (booleans_or_none (map_to_list data)) as [(k & v & Hk)|Hno].
    + apply elem_of_map_to_list in Hk.
      by rewrite (Hone range1 H1 k v), (Hone range2 H2 k v).
    + assert (Hno' : forall k v, data !! k <> Some (graphql.Bool v)).
      { intros k v Hk. apply (Hno k v). by apply elem_of_map_to_list. }
      by rewrite (Hnone range1 H1), (Hnone range2 H2).
  - by apply Hnone.
  - intros k v Hk. by eapply Hone.
Qed.


(** X20: a batch whose requests all carry the hint "graphql", over a service
    with the GraphQL client, reports no error at all, whatever the server
    does: every request counts as a success. *)
Theorem bulk_over_graphql_reports_no_error svc req schedule totalTime resp :
  GraphQL svc = Some (graphql.CheckPermission ParseFloat post range responseTime) ->
  (forall request, request ∈ Requests req ->
     Context request !! "implementation" = Some "graphql") ->
  Z.of_nat (length (Requests req)) <= max_int32 ->
  CheckBulkPermissions svc req schedule totalTime = Some resp ->
  ErrorCount resp = 0
  /\ SuccessCount resp = Z.of_nat (length (Requests req)).
Proof.
  intros Hg Hhint Hmax Hresp.
  destruct (bulk_counters svc req schedule totalTime resp Hmax Hresp)
    as (He & Hs & _).
  assert (Hraises : forall request, request ∈ Requests req ->
            raises svc request = false).
  { intros request Hin. unfold raises, CheckPermission, implementation.
    rewrite (Hhint request Hin). simpl. rewrite Hg. simpl.
    by destruct (graphql_never_fails request) as [r ->]. }
  rewrite He, Hs, (filter_none (raises svc)) by done.
  rewrite filter_all by (intros x Hx; by rewrite (Hraises x Hx)). done.
Qed.

End GraphQL.

Lemma graphql_client_never_returns_an_error_witness :
  exists r,
    granting_graphql (hinted "graphql") = (Some r, None)
    /\ (HasPermission r = true ->
        exists gqlResp k,
          graphql.Decoded
            {| graphql.Data := {[ "canAccess" := graphql.Bool true ]};
               graphql.Errors := [] |}
          = graphql.Decoded gqlResp
          /\ graphql.Errors gqlResp = []
          /\ graphql.Data gqlResp !! k = Some (graphql.Bool true)
          /\ ImplementationTag r = Implementation_IMPLEMENTATION_GRAPHQL
          /\ Permissionship r = 2).
Proof.
  apply (graphql_client_never_returns_an_error (fun _ => None)
           (fun _ _ =>
              graphql.Decoded
                {| graphql.Data := {[ "canAccess" := graphql.Bool true ]};
                   graphql.Errors := [] |})
           map_to_list 5 (hinted "graphql")).
  intros data. reflexivity.
Defined.

Lemma graphql_result_independent_of_map_order_witness :
  map_to_list sample_data <> reverse (map_to_list sample_data)
  /\ graphql.extractPermissionResult map_to_list sample_data "can_access"
     = graphql.extractPermissionResult (fun data => reverse (map_to_list data))
         sample_data "can_access"
  /\ ((forall k v, sample_data !! k <> Some (graphql.Bool v)) ->
      graphql.extractPermissionResult map_to_list sample_data "can_access" = false)
  /\ (forall k v, sample_data !! k = Some (graphql.Bool v) ->
      graphql.extractPermissionResult map_to_list sample_data "can_access" = v).
Proof.
  split; [vm_compute; discriminate|].
  assert (Htrue : forall k v, sample_data !! k = Some (graphql.Bool v) -> v = true).
  { intros k v H. unfold sample_data in H.
    repeat (apply lookup_insert_Some in H as [[_ H]|[_ H]]; [congruence|]).
    apply lookup_singleton_Some in H as [_ H]. congruence. }
  apply (graphql_result_independent_of_map_order map_to_list
           (fun data => reverse (map_to_list data)) sample_data "can_access").
  - reflexivity.
  - apply reverse_Permutation.
  - intros k1 k2 v1 v2 H1 H2. by rewrite (Htrue k1 v1 H1), (Htrue k2 v2 H2).
Defined.


Lemma bulk_over_graphql_reports_no_error_witness :
  exists resp,
    CheckBulkPermissions (NewService None None (Some granting_graphql))
      graphql_batch (one_by_one 0 2) 7 = Some resp
    /\ ErrorCount resp = 0
    /\ SuccessCount resp = Z.of_nat (length (Requests graphql_batch)).
Proof.
  eexists. split; [reflexivity|].
  apply (bulk_over_graphql_reports_no_error (fun _ => None)
           (fun _ _ =>
              graphql.Decoded
                {| graphql.Data := {[ "canAccess" := graphql.Bool true ]};
                   graphql.Errors := [] |})
           map_to_list 5 (NewService None None (Some granting_graphql))
           graphql_batch (one_by_one 0 2) 7).
  - reflexivity.
  - intros request Hin.
    repeat (apply elem_of_cons in Hin as [->|Hin]; [reflexivity|]).
    by apply elem_of_nil in Hin.
  - vm_compute. discriminate.
  - reflexivity.
Defined.

(** ** The service over the three clients *)

Section Clients.

Variable Struct : Type.
Variable NewStruct : gmap string string -> Struct + string.
Variable remote : spicedb.v1.CheckPermissionRequest Struct -> Z + string.
Variable Run : string -> neo4j.params -> neo4j.execution.
Variable clock : string.
Variable ParseFloat : string -> option spec_float.
Variable post : graphql.GraphQLRequest -> string -> graphql.exchange.
Variable range : gmap string graphql.value -> list (string * graphql.value).
Variable responseTime : Z.

Lemma spicedb_responds req :
  exists r e, spicedb.CheckPermission Struct NewStruct remote req = (Some r, e).
Proof.
  unfold spicedb.CheckPermission.
  destruct (spicedb.checkReq Struct NewStruct req) as [checkReq|results] eqn:Hreq.
  - destruct (remote checkReq) as [p|err]; [|by eexists _, _].
    destruct (_ && _); by eexists _, _.
  - unfold spicedb.checkReq in Hreq. case_bool_decide; [|done].
    destruct (NewStruct (Context req)); [done|]. injection Hreq as <-.
    by eexists _, _.
Qed.

Lemma neo4j_responds req :
  (exists r, neo4j.CheckPermission Run clock ParseFloat responseTime req
             = (Some r, None))
  \/ (exists e, neo4j.CheckPermission Run clock ParseFloat responseTime req
                = (None, Some e)).
Proof.
  unfold neo4j.CheckPermission.
  destruct (neo4j.getPermissionQuery (Permission req)) as [query [err|]];
    [right; by eexists|].
  destruct (Run query _) as [e|e|[[v|v|v|t]|]];
    first [right; by eexists | left; by eexists].
Qed.

End Clients.

(** What the router returns over the clients of the repository. *)
Lemma over_the_clients_answers s r :
  over_the_clients s ->
  (response (CheckPermission s r) <> None \/ failure (CheckPermission s r) <> None)
  /\ (implementation r = Implementation_IMPLEMENTATION_BOTH ->
      failure (CheckPermission s r) = None
      /\ exists m, response (CheckPermission s r) = Some m)
  /\ (response (CheckPermission s r) = None ->
      implementation r = Implementation_IMPLEMENTATION_NEO4J).
Proof.
  intros (Hs & Hn & Hg).
  assert (Hspice : exists m e,
            probe (Spice s) "SpiceDB backend not available" r = (m, e)
            /\ (m <> None \/ e <> None)).
  { destruct Hs as [->|(Struct & NewStruct & remote & ->)]; simpl.
    - eexists _, _. split; [done|]. by right.
    - destruct (spicedb_responds Struct NewStruct remote r) as (m & e & ->).
      eexists _, _. split; [done|]. by left. }
  assert (Hneo : exists m e,
            probe (Neo4j s) "Neo4j backend not available" r = (m, e)
            /\ (m <> None \/ e <> None)).
  { destruct Hn as [->|(Run & clock & ParseFloat & responseTime & ->)]; simpl.
    - eexists _, _. split; [done|]. by right.
    - destruct (neo4j_responds Run clock ParseFloat responseTime r)
        as [[m ->]|[e ->]]; eexists _, _; (split; [done|]); [by left|by right]. }
  assert (Hboth : failure (checkBothImplementations s r) = None
                  /\ exists m, response (checkBothImplementations s r) = Some m).
  { unfold checkBothImplementations.
    destruct Hspice as (sm & se & -> & Hsr).
    destruct Hneo as (nm & ne & -> & Hnr).
    destruct sm as [sm|], se as [se|], nm as [nm|], ne as [ne|]; simpl;
      try (split; [done|by eexists]); by destruct Hsr, Hnr. }
  unfold CheckPermission.
  destruct (implementation r) eqn:Himpl.
  - destruct Hs as [->|(Struct & NewStruct & remote & ->)]; simpl;
      [by repeat split; try left|].
    destruct (spicedb_responds Struct NewStruct remote r) as (m & e & ->). simpl.
    repeat split; try done. by left.
  - destruct Hs as [->|(Struct & NewStruct & remote & ->)]; simpl;
      [by repeat split; try left|].
    destruct (spicedb_responds Struct NewStruct remote r) as (m & e & ->). simpl.
    repeat split; try done. by left.
  - destruct Hn as [->|(Run & clock & ParseFloat & responseTime & ->)]; simpl;
      [by repeat split; try left|].
    destruct (neo4j_responds Run clock ParseFloat responseTime r)
      as [[m ->]|[e ->]]; simpl; repeat split; try done; [by left|by right].
  - destruct Hg as [->|(ParseFloat & post & range & responseTime & ->)]; simpl;
      [by repeat split; try left|].
    destruct (graphql_never_fails ParseFloat post range responseTime r) as [m ->].
    simpl. repeat split; try done. by left.
  - destruct Hboth as [Hf [m Hm]]. rewrite Hf, Hm.
    repeat split; try done; [by left|by eexists].
Qed.

(** X21: a service in which each of the three clients is nil or a client of
    the repository with a connection behind it, whatever the SpiceDB, the
    Neo4j and the GraphQL servers answer, and they may answer differently
    from call to call.  The router never returns neither a response nor an
    error, under the hint "both" it returns a response and no error, and it
    returns no response only under the hint "neo4j".  So in a benchmark case
    of one iteration or more every call is counted as successful or as
    failed, and every execution of the workers, however far it has got, can
    be continued to the return.  The service that [main] builds when Neo4j
    cannot be reached is not such a service: its Neo4j field holds a nil
    pointer to a client, which is not a nil field, and a call of that client
    for a permission it has a query for reads the driver of the nil
    pointer. *)
Theorem service_over_the_clients_always_answers
    svc req testCase iterations concurrency impl elapsed :
  (forall idx, over_the_clients (svc idx)) ->
  1 <= iterations <= max_int32 ->
  (forall idx,
     (response (CheckPermission (svc idx) req) <> None
      \/ failure (CheckPermission (svc idx) req) <> None)
     /\ (implementation req = Implementation_IMPLEMENTATION_BOTH ->
         failure (CheckPermission (svc idx) req) = None
         /\ exists r, response (CheckPermission (svc idx) req) = Some r)
     /\ (response (CheckPermission (svc idx) req) = None ->
         implementation req = Implementation_IMPLEMENTATION_NEO4J))
  /\ (forall schedule result,
        benchmark.runBenchmarkTest svc testCase iterations concurrency impl
          schedule elapsed = Some result ->
        benchmark.BenchmarkResult.SuccessfulRequests result
        + benchmark.BenchmarkResult.FailedRequests result = iterations)
  /\ forall schedule st,
       benchmark.run svc testCase (if concurrency <=? 0 then 1 else concurrency)
         elapsed schedule (benchmark.start (Z.to_nat iterations)) = Some st ->
       exists schedule' result,
         benchmark.runBenchmarkTest svc testCase iterations concurrency impl
           (schedule ++ schedule') elapsed = Some result.
Proof.
  intros Hsvc Hit. split; [|split].
  - intros idx. by apply over_the_clients_answers.
  - intros schedule result Hresult.
    apply benchmark_test_returned in Hresult; [|lia].
    destruct Hresult as (_ & _ & _ & _ & -> & -> & _).
    unfold passing, missing.
    pose proof (passing_and_missing svc testCase (seq 0 (Z.to_nat iterations)))
      as Hsum.
    rewrite length_seq in Hsum.
    rewrite <- Nat2Z.inj_add, Hsum; [lia|].
    intros idx _. by apply over_the_clients_answers.
  - intros schedule st Hrun. by eapply benchmark_test_continues.
Qed.

Lemma service_over_the_clients_always_answers_witness :
  (forall idx,
     (response (CheckPermission (sample_clients idx) view_request) <> None
      \/ failure (CheckPermission (sample_clients idx) view_request) <> None)
     /\ (implementation view_request = Implementation_IMPLEMENTATION_BOTH ->
         failure (CheckPermission (sample_clients idx) view_request) = None
         /\ exists r,
              response (CheckPermission (sample_clients idx) view_request) = Some r)
     /\ (response (CheckPermission (sample_clients idx) view_request) = None ->
         implementation view_request = Implementation_IMPLEMENTATION_NEO4J))
  /\ (forall schedule result,
        benchmark.runBenchmarkTest sample_clients sample_case 10 2
          Implementation_IMPLEMENTATION_GRAPHQL schedule sample_elapsed
        = Some result ->
        benchmark.BenchmarkResult.SuccessfulRequests result
        + benchmark.BenchmarkResult.FailedRequests result = 10)
  /\ forall schedule st,
       benchmark.run sample_clients sample_case (if 2 <=? 0 then 1 else 2)
         sample_elapsed schedule (benchmark.start (Z.to_nat 10)) = Some st ->
       exists schedule' result,
         benchmark.runBenchmarkTest sample_clients sample_case 10 2
           Implementation_IMPLEMENTATION_GRAPHQL (schedule ++ schedule')
           sample_elapsed = Some result.
Proof.
  apply (service_over_the_clients_always_answers sample_clients view_request
           sample_case 10 2 Implementation_IMPLEMENTATION_GRAPHQL sample_elapsed).
  - intros idx. unfold sample_clients.
    destruct (Nat.even idx); (split; [|split]); simpl.
    + right. by exists (gmap string string), inl, (fun _ => inl 3).
    + by left.
    + right. by eexists _, _, _, _.
    + right. by exists (gmap string string), inl, (fun _ => inl 3).
    + right. by eexists _, _, _, _.
    + by left.
  - split; vm_compute; discriminate.
Defined.

(** Over such services a benchmark case counts every call: the services of
    the even calls grant through GraphQL, those of the odd calls have no
    GraphQL client. *)
Example benchmark_over_the_clients :
  exists result,
    benchmark.runBenchmarkTest sample_clients sample_case 10 2
      Implementation_IMPLEMENTATION_GRAPHQL (one_by_one 0 10) sample_elapsed
    = Some result
    /\ benchmark.BenchmarkResult.SuccessfulRequests result = 5
    /\ benchmark.BenchmarkResult.FailedRequests result = 5.
Proof. eexists. split; [vm_compute; reflexivity|]. by split. Qed.

(** ** The test client of the SpiceDB model *)

Lemma contains_colon_cons (r : Ascii.ascii) (rest : string) :
  contains ":" (String r rest)
  = Ascii.eqb r spicedb_tests.colon || contains ":" rest.
Proof.
  cbn [contains String.prefix].
  destruct (Ascii.ascii_dec _ r) as [<-|Hne].
  - by destruct rest.
  - rewrite (proj2 (Ascii.eqb_neq r spicedb_tests.colon)); [done|].
    intros ->. by apply Hne.
Qed.

Lemma string_length_append (a b : string) :
  String.length (a +:+ b) = (String.length a + String.length b)%nat.
Proof. induction a as [|c a IH]; simpl; [done|]. by rewrite IH. Qed.

Lemma substring_prefix (pre s : string) :
  substring 0 (String.length pre) (pre +:+ s) = pre.
Proof.
  induction pre as [|c pre IH]; simpl; [by destruct s|]. by rewrite IH.
Qed.

Lemma substring_all (s : string) : substring 0 (String.length s) s = s.
Proof. induction s as [|c s IH]; simpl; [done|]. by rewrite IH. Qed.

Lemma substring_skip (pre s : string) (k n : nat) :
  substring (String.length pre + k) n (pre +:+ s) = substring k n s.
Proof. induction pre as [|c pre IH]; simpl; [done|]. by rewrite IH. Qed.

Lemma string_append_assoc (a b c : string) : (a +:+ b) +:+ c = a +:+ (b +:+ c).
Proof.
  induction a as [|x a IH]; [done|].
  change (String x ((a +:+ b) +:+ c) = String x (a +:+ (b +:+ c))). by rewrite IH.
Qed.

Lemma scan_cons (objectRef : string) (i : nat) (r : Ascii.ascii) (rest : string) :
  spicedb_tests.scan objectRef i (String r rest)
  = if Ascii.eqb r spicedb_tests.colon
    then [substring 0 i objectRef;
          substring (i + 1) (String.length objectRef - (i + 1)) objectRef]
    else spicedb_tests.scan objectRef (S i) rest.
Proof. reflexivity. Qed.

Lemma string_append_nil_r (a : string) : a +:+ "" = a.
Proof.
  induction a as [|x a IH]; [done|].
  change (String x (a +:+ "") = String x a). by rewrite IH.
Qed.

Lemma scan_no_colon (objectRef rest : string) : forall i,
  contains ":" rest = false -> spicedb_tests.scan objectRef i rest = [objectRef].
Proof.
  induction rest as [|r rest IH]; intros i H; [done|].
  rewrite contains_colon_cons in H. apply orb_false_iff in H as [Hr Hrest].
  rewrite scan_cons, Hr. by apply IH.
Qed.

Lemma scan_colon (a b : string) : forall pre,
  contains ":" a = false ->
  spicedb_tests.scan (pre +:+ a +:+ ":" +:+ b) (String.length pre) (a +:+ ":" +:+ b)
  = [pre +:+ a; b].
Proof.
  induction a as [|r a IH]; intros pre Ha.
  - change (spicedb_tests.scan (pre +:+ String spicedb_tests.colon b) (String.length pre)
              (String spicedb_tests.colon b) = [pre +:+ ""; b]).
    rewrite scan_cons. change (Ascii.eqb _ spicedb_tests.colon) with true. cbv iota.
    rewrite substring_prefix.
    rewrite (substring_skip pre (String spicedb_tests.colon b) 1).
    rewrite string_length_append. simpl String.length.
    replace (String.length pre + S (String.length b) - (String.length pre + 1))%nat
      with (String.length b) by lia.
    cbn [substring]. by rewrite substring_all, string_append_nil_r.
  - rewrite contains_colon_cons in Ha. apply orb_false_iff in Ha as [Hr Ha].
    change (spicedb_tests.scan (pre +:+ String r (a +:+ ":" +:+ b))
              (String.length pre) (String r (a +:+ ":" +:+ b))
            = [pre +:+ String r a; b]).
    rewrite scan_cons, Hr.
    specialize (IH (pre +:+ String r "") Ha).
    rewrite string_length_append in IH. simpl String.length in IH.
    replace (String.length pre + 1)%nat with (S (String.length pre)) in IH by lia.
    rewrite !string_append_assoc in IH. exact IH.
Qed.

Lemma first_colon (s : string) :
  contains ":" s = false
  \/ exists a b, s = a +:+ ":" +:+ b /\ contains ":" a = false.
Proof.
  induction s as [|r s IH]; [by left|].
  rewrite contains_colon_cons.
  destruct (Ascii.eqb_spec r spicedb_tests.colon) as [->|Hr].
  - right. by exists "", s.
  - destruct IH as [Hs|(a & b & -> & Ha)]; [by left|].
    right. exists (String r a), b. split; [done|].
    rewrite contains_colon_cons, Ha.
    by rewrite (proj2 (Ascii.eqb_neq r spicedb_tests.colon)).
Qed.

Lemma parseObjectRef_colon (a b : string) :
  contains ":" a = false ->
  spicedb_tests.parseObjectRef (a +:+ ":" +:+ b) = [a; b].
Proof. intros Ha. apply (scan_colon a b "" Ha). Qed.

Lemma parseObjectRef_no_colon (s : string) :
  contains ":" s = false -> spicedb_tests.parseObjectRef s = [s].
Proof. apply scan_no_colon. Qed.

(** X22: [parseObjectRef] splits a reference at its first colon and nowhere
    else: joining the parts with a colon gives the reference back; there is
    one part, the reference itself, when it has no colon, and otherwise two,
    the first without a colon; a type without a colon followed by a colon
    and an id, with colons or not, is split into the type and the id. *)
Theorem parseObjectRef_splits_at_the_first_colon (objectRef : string) :
  String.concat ":" (spicedb_tests.parseObjectRef objectRef) = objectRef
  /\ ((contains ":" objectRef = false
       /\ spicedb_tests.parseObjectRef objectRef = [objectRef])
      \/ (exists type id,
            spicedb_tests.parseObjectRef objectRef = [type; id]
            /\ contains ":" type = false
            /\ contains ":" objectRef = true))
  /\ (forall type id,
        contains ":" type = false ->
        spicedb_tests.parseObjectRef (type +:+ ":" +:+ id) = [type; id]).
Proof.
  split; [|split].
  - destruct (first_colon objectRef) as [H|(a & b & -> & Ha)].
    + by rewrite parseObjectRef_no_colon.
    + by rewrite parseObjectRef_colon.
  - destruct (first_colon objectRef) as [H|(a & b & -> & Ha)].
    + left. split; [done|]. by apply parseObjectRef_no_colon.
    + right. exists a, b. split; [by apply parseObjectRef_colon|]. split; [done|].
      apply contains_middle.
  - intros type id Htype. by apply parseObjectRef_colon.
Qed.

(** X23: the test client checks the two references before it calls SpiceDB,
    the resource first: a reference without a colon is answered with the
    error of its format, whatever SpiceDB would say.  For references with a
    colon the request names the parts before and after the first colon, and
    the result is [true] only for the answer HAS_PERMISSION; a conditional
    permission counts as no permission. *)
Theorem test_client_checks_references_first
    (Struct Value : Type) (NewStruct : gmap string Value -> Struct + string)
    (emptyStruct : Struct)
    (remote : spicedb.v1.CheckPermissionRequest Struct -> Z + string)
    (resource permission subject : string) (caveatContext : gmap string Value) :
  let check :=
    spicedb_tests.CheckPermission Struct Value NewStruct emptyStruct remote
      resource permission subject caveatContext in
  (contains ":" resource = false ->
   check = (false, Some ("invalid resource format: " +:+ resource)))
  /\ (contains ":" resource = true -> contains ":" subject = false ->
      check = (false, Some ("invalid subject format: " +:+ subject)))
  /\ (forall rtype rid stype sid,
        resource = rtype +:+ ":" +:+ rid -> contains ":" rtype = false ->
        subject = stype +:+ ":" +:+ sid -> contains ":" stype = false ->
        exists req,
          spicedb.v1.Resource req
          = {| spicedb.v1.ObjectType := rtype; spicedb.v1.ObjectId := rid |}
          /\ spicedb.v1.Subject req
             = {| spicedb.v1.Object :=
                    {| spicedb.v1.ObjectType := stype; spicedb.v1.ObjectId := sid |} |}
          /\ spicedb.v1.Permission req = permission
          /\ check
             = match remote req with
               | inl permissionship => ((permissionship =? 2), None)
               | inr err => (false, Some ("failed to check permission: " +:+ err))
               end).
Proof.
  cbv zeta. unfold spicedb_tests.CheckPermission. split; [|split].
  - intros Hr. by rewrite parseObjectRef_no_colon.
  - intros Hr Hs.
    destruct (first_colon resource) as [H|(a & b & -> & Ha)]; [congruence|].
    rewrite parseObjectRef_colon by done. simpl.
    by rewrite parseObjectRef_no_colon.
  - intros rtype rid stype sid -> Hrt -> Hst.
    rewrite !parseObjectRef_colon by done. simpl.
    eexists. split; [|split; [|split]]; [| | |reflexivity]; done.
Qed.

(** ** The resolvers of the GraphQL model *)

Section Resolvers.

Variable organization_findUnique : string -> option resolvers.Organization.
Variable account_findUnique : string -> option resolvers.Account.
Variable accountantAccess : list resolvers.AccountantAccess.

(** A power of attorney that covers an amount covers the request without an
    amount. *)
Lemma poa_loop_without_amount now userId amount poas :
  resolvers.poa_loop now userId amount poas = true ->
  resolvers.poa_loop now userId None poas = true.
Proof.
  induction poas as [|poa poas IH]; simpl; [done|].
  destruct (String.eqb _ _); [|done].
  destruct (match resolvers.validFrom poa with Some _ => _ | None => _ end); [done|].
  destruct (resolvers.maxAmount poa); [|done].
  by destruct amount as [amount|]; [destruct (float64_lt _ _)|].
Qed.

(** X24: the four resolvers are ordered.  Whoever may access an account may
    initiate a payment of any amount from it, and whoever may initiate a
    payment may download its statements and view its transactions (the time
    read for the powers of attorney being the same). *)
Theorem resolvers_are_ordered userId accountId amount now now2 :
  (resolvers.canAccess organization_findUnique account_findUnique userId accountId
   = true ->
   resolvers.canInitiatePayment organization_findUnique account_findUnique
     userId accountId amount now = true)
  /\ (resolvers.canInitiatePayment organization_findUnique account_findUnique
        userId accountId amount now = true ->
      resolvers.canDownloadStatement organization_findUnique account_findUnique
        accountantAccess userId accountId now now2 = true
      /\ resolvers.canViewTransactions organization_findUnique account_findUnique
           accountantAccess userId accountId now now2 = true).
Proof.
  unfold resolvers.canAccess, resolvers.canInitiatePayment,
    resolvers.canDownloadStatement, resolvers.canViewTransactions.
  destruct (resolvers.no_user userId); [done|].
  destruct (account_findUnique accountId) as [account|]; [|done].
  destruct (match resolvers.ownerUser account with Some _ => _ | None => _ end);
    [done|].
  destruct (match resolvers.ownerOrg account with Some _ => _ | None => _ end);
    [done|].
  split; [done|].
  destruct (match resolvers.delegates account with Some _ => _ | None => _ end);
    [done|].
  unfold resolvers.userHasPOAAccess.
  destruct (resolvers.poa_loop now _ amount _) eqn:Hpoa; [|done].
  by rewrite (poa_loop_without_amount _ _ _ _ Hpoa).
Qed.

(** X25: the resolvers deny by default.  Without a user id in the context
    (none, or the empty string), and for an account that does not exist,
    each of the four resolvers answers [false]. *)
Theorem resolvers_deny_without_user_or_account userId accountId amount now now2 :
  resolvers.no_user userId = true \/ account_findUnique accountId = None ->
  resolvers.canAccess organization_findUnique account_findUnique userId accountId
  = false
  /\ resolvers.canInitiatePayment organization_findUnique account_findUnique
       userId accountId amount now = false
  /\ resolvers.canDownloadStatement organization_findUnique account_findUnique
       accountantAccess userId accountId now now2 = false
  /\ resolvers.canViewTransactions organization_findUnique account_findUnique
       accountantAccess userId accountId now now2 = false.
Proof.
  unfold resolvers.canAccess, resolvers.canInitiatePayment,
    resolvers.canDownloadStatement, resolvers.canViewTransactions.
  intros [-> | ->]; [done|]. by destruct (resolvers.no_user userId).
Qed.

(** X26: what an accountant adds.  The resolver for the statements answers
    as the resolver for payments does for a request without an amount, or
    [true] for a user with an accountant access to the account that is valid
    at the time read; the resolver for the transactions answers the same.
    The accountant access never counts for a payment. *)
Theorem accountant_may_view_but_not_pay userId accountId now now2 :
  resolvers.canDownloadStatement organization_findUnique account_findUnique
    accountantAccess userId accountId now now2
  = resolvers.canInitiatePayment organization_findUnique account_findUnique
      userId accountId None now
    || (negb (resolvers.no_user userId)
        && bool_decide (is_Some (account_findUnique accountId))
        && resolvers.userHasAccountantAccess accountantAccess now2 accountId
             (default "" userId))
  /\ resolvers.canViewTransactions organization_findUnique account_findUnique
       accountantAccess userId accountId now now2
     = resolvers.canDownloadStatement organization_findUnique account_findUnique
         accountantAccess userId accountId now now2.
Proof.
  split; [|done].
  unfold resolvers.canInitiatePayment, resolvers.canDownloadStatement.
  destruct (resolvers.no_user userId); [done|].
  destruct (account_findUnique accountId) as [account|]; [|done].
  repeat (match goal with
          | |- context [if ?b then true else _] => destruct b; [done|]
          end).
  by rewrite andb_false_r.
Qed.

End Resolvers.

Lemma resolvers_deny_without_user_or_account_witness :
  resolvers.canAccess (fun _ => None) (fun _ => None) (Some "") "acc123" = false
  /\ resolvers.canInitiatePayment (fun _ => None) (fun _ => None) (Some "") "acc123"
       None 0 = false
  /\ resolvers.canDownloadStatement (fun _ => None) (fun _ => None) [] (Some "")
       "acc123" 0 0 = false
  /\ resolvers.canViewTransactions (fun _ => None) (fun _ => None) [] (Some "")
       "acc123" 0 0 = false.
Proof.
  apply (resolvers_deny_without_user_or_account (fun _ => None) (fun _ => None) []
           (Some "") "acc123" None 0 0).
  left. reflexivity.
Defined.

